(** * Streaming exchange of ilp-sdk: [src/services/switch.ts]

    A shallow embedding of [streamMoney] and of its recursive loop
    [trySendPacket], together with the part of bignumber.js and of the
    oer-utils [Reader] that the loop relies on.

    Conventions of the model.
    - A [BigNumber] is a rational, one of the two infinities, or NaN.
      Sums and products are exact, as they are in bignumber.js; a quotient
      of [div] is rounded to [DECIMAL_PLACES] decimal places, half up, as
      [switch.ts] leaves both settings at their defaults.  The negative
      zero of bignumber.js is not told apart from zero.
    - Everything the loop reads from its surroundings during one iteration
      (the clock, the three capacities of the uplinks, the rate snapshot,
      the fresh secret and the reply of [sendPacket]) is one [Event]; a run
      of the loop consumes a list of events, one per iteration.
    - The unit conversions of crypto-rate-utils, [sha256] and the
      [APPLICATION_ERROR] constant are not part of [switch.ts]; they are
      the fields of the class [Collaborators]. *)

From Stdlib Require Import ZArith QArith Qcanon Qround List String Bool Lia Lqa.
From Stdlib Require Import Morphisms NArith.Nnat.
From Stdlib Require Import Strings.Byte.
Import ListNotations.

Local Open Scope Z_scope.

(** ** bignumber.js *)

Module BigNumber.

Inductive t : Set :=
| Fin (q : Qc)
| PInf
| NInf
| NaN.

Definition ofQ (q : Q) : t := Fin (Q2Qc q).
Definition ofZ (z : Z) : t := ofQ (inject_Z z).
Definition ofN (n : N) : t := ofZ (Z.of_N n).

Definition zero : t := ofZ 0.
Definition one : t := ofZ 1.

(** [ROUND_CEIL] and [ROUND_DOWN] at zero decimal places. *)
Definition ceilQc (q : Qc) : Qc := Q2Qc (inject_Z (Qceiling q)).
Definition truncQc (q : Qc) : Qc :=
  match Qccompare q (Q2Qc 0) with
  | Lt => Q2Qc (inject_Z (Qceiling q))
  | _ => Q2Qc (inject_Z (Qfloor q))
  end.

Definition isNaN (x : t) : bool :=
  match x with NaN => true | _ => false end.

Definition negated (x : t) : t :=
  match x with
  | Fin q => Fin (- q)%Qc
  | PInf => NInf
  | NInf => PInf
  | NaN => NaN
  end.

Definition plus (x y : t) : t :=
  match x, y with
  | NaN, _ | _, NaN => NaN
  | Fin a, Fin b => Fin (a + b)%Qc
  | PInf, NInf | NInf, PInf => NaN
  | PInf, _ | _, PInf => PInf
  | NInf, _ | _, NInf => NInf
  end.

Definition minus (x y : t) : t := plus x (negated y).

(** The sign of a number: [None] for NaN. *)
Definition sign (x : t) : option comparison :=
  match x with
  | Fin q => Some (Qccompare q (Q2Qc 0))
  | PInf => Some Gt
  | NInf => Some Lt
  | NaN => None
  end.

Definition signed_inf (c : comparison) : t :=
  match c with Lt => NInf | _ => PInf end.

Definition sign_mul (a b : comparison) : comparison :=
  match a, b with
  | Eq, _ | _, Eq => Eq
  | Lt, Lt | Gt, Gt => Gt
  | _, _ => Lt
  end.

(** [times]: NaN if either is NaN, or one is 0 and the other infinite. *)
Definition times (x y : t) : t :=
  match x, y with
  | Fin a, Fin b => Fin (a * b)%Qc
  | _, _ =>
      match sign x, sign y with
      | Some a, Some b =>
          match sign_mul a b with
          | Eq => NaN
          | c => signed_inf c
          end
      | _, _ => NaN
      end
  end.

(** The quotient before it is rounded: NaN if either is NaN, or both are
    infinite, or both are zero; a nonzero number over zero is infinite, a
    finite number over an infinite one is zero. *)
Definition quotient (x y : t) : t :=
  match x, y with
  | NaN, _ | _, NaN => NaN
  | Fin a, Fin b =>
      match Qccompare b (Q2Qc 0) with
      | Eq =>
          match Qccompare a (Q2Qc 0) with
          | Eq => NaN
          | c => signed_inf c
          end
      | _ => Fin (a / b)%Qc
      end
  | Fin _, _ => zero
  | _, Fin b =>
      match sign x, Qccompare b (Q2Qc 0) with
      | Some a, Lt => signed_inf (sign_mul a Lt)
      | Some a, _ => signed_inf a
      | None, _ => NaN
      end
  | _, _ => NaN
  end.

(** [DECIMAL_PLACES], left at its default: the decimal places a quotient
    of [div] is rounded to. *)
Definition DECIMAL_PLACES : Z := 20.

Definition scale : Z := Eval cbv in 10 ^ DECIMAL_PLACES.

(** [ROUNDING_MODE], left at its default [ROUND_HALF_UP]: to the nearest
    multiple of [1 / scale], a tie going away from zero. *)
Definition roundHalfUp (q : Q) : Q :=
  match Qcompare q 0 with
  | Lt => - (inject_Z (Qfloor (- q * inject_Z scale + (1 # 2))) / inject_Z scale)
  | _ => inject_Z (Qfloor (q * inject_Z scale + (1 # 2))) / inject_Z scale
  end.

Definition roundQc (q : Qc) : Qc := Q2Qc (roundHalfUp q).

(** Half a unit of the last place kept: the most the rounding moves a
    quotient by. *)
Definition halfUlp : Q := 1 / (2 * inject_Z scale).

(** [x.div(y)]: the quotient rounded to [DECIMAL_PLACES] places by
    [ROUNDING_MODE]. *)
Definition div (x y : t) : t :=
  match quotient x y with
  | Fin q => Fin (roundQc q)
  | r => r
  end.

(** [x.dp(0, ROUND_CEIL)], which is also [x.integerValue(ROUND_CEIL)]:
    the infinities and NaN are returned as they are. *)
Definition dp0_ceil (x : t) : t :=
  match x with
  | Fin q => Fin (ceilQc q)
  | _ => x
  end.

(** [x.dividedToIntegerBy(y)]: the quotient rounded towards zero, with
    no rounding to [DECIMAL_PLACES] in between. *)
Definition dividedToIntegerBy (x y : t) : t :=
  match quotient x y with
  | Fin q => Fin (truncQc q)
  | r => r
  end.

(** [compare] answers [null] as soon as one side is NaN. *)
Definition compare (x y : t) : option comparison :=
  match x, y with
  | NaN, _ | _, NaN => None
  | Fin a, Fin b => Some (Qccompare a b)
  | PInf, PInf | NInf, NInf => Some Eq
  | PInf, _ | _, NInf => Some Gt
  | NInf, _ | _, PInf => Some Lt
  end.

Definition lt (x y : t) : bool :=
  match compare x y with Some Lt => true | _ => false end.
Definition gt (x y : t) : bool :=
  match compare x y with Some Gt => true | _ => false end.
Definition lte (x y : t) : bool :=
  match compare x y with Some Lt | Some Eq => true | _ => false end.
Definition gte (x y : t) : bool :=
  match compare x y with Some Gt | Some Eq => true | _ => false end.

Definition isZero (x : t) : bool :=
  match x with
  | Fin q => match Qccompare q (Q2Qc 0) with Eq => true | _ => false end
  | _ => false
  end.

(** [BigNumber.min(a, ...rest)]: the loop of [maxOrMin] stops with NaN at
    the first NaN argument and otherwise keeps the smaller number. *)
Fixpoint minLoop (m : t) (args : list t) : t :=
  match args with
  | [] => m
  | n :: rest =>
      if isNaN n then n
      else if gt m n then minLoop n rest
      else minLoop m rest
  end.

Definition min (a : t) (rest : list t) : t := minLoop a rest.

(** [isFinite]: neither an infinity nor NaN. *)
Definition isFinite (x : t) : bool :=
  match x with Fin _ => true | _ => false end.

(** [isInteger]: a finite number without a fractional part. *)
Definition isInteger (x : t) : bool :=
  match x with
  | Fin q => Qc_eq_bool (ceilQc q) q
  | _ => false
  end.

End BigNumber.

Abbreviation BigNumber := BigNumber.t.

(** ** oer-utils: the reader of a reject's data *)

Module Reader.

Inductive Error : Set :=
| UnderreadError.

Definition bigEndian (bs : list byte) : N :=
  fold_left (fun acc b => (acc * 256 + Byte.to_N b)%N) bs 0%N.

(** [readUInt64BigNum]: eight bytes, most significant first; the cursor
    moves on.  Fewer than eight bytes left raise [UnderreadError]. *)
Definition readUInt64BigNum (buf : list byte) : Error + (BigNumber * list byte) :=
  if (List.length buf <? 8)%nat then inl UnderreadError
  else inr (BigNumber.ofN (bigEndian (firstn 8 buf)), skipn 8 buf).

End Reader.

(** ** ilp-packet: the packets the loop sends and receives *)

Module Ilp.

Record IlpPrepare : Type := {
  destination : string;
  amount : BigNumber;
  executionCondition : list byte;
  data : list byte;
  expiresAt : Z
}.

Record IlpFulfill : Type := {
  fulfillment : list byte;
  fulfillData : list byte
}.

Record IlpReject : Type := {
  code : string;
  rejectData : list byte
}.

Inductive IlpReply : Type :=
| Fulfill (f : IlpFulfill)
| Reject (r : IlpReject).

End Ilp.
Import Ilp.

(** [Buffer.equals] *)
Definition bufferEquals (a b : list byte) : bool :=
  if list_eq_dec Byte.byte_eq_dec a b then true else false.

(** ** What [switch.ts] imports and does not define *)

Class Collaborators : Type := {
  (** the snapshot [state.rateBackend] holds when it is asked *)
  RateBackend : Type;
  (** [convert(sourceSettler.exchangeUnit(x), sourceSettler.baseUnit())] *)
  sourceExchangeToBase : BigNumber -> BigNumber;
  (** [convert(sourceSettler.baseUnit(x), sourceSettler.exchangeUnit())] *)
  sourceBaseToExchange : BigNumber -> BigNumber;
  (** [convert(sourceSettler.baseUnit(x), destSettler.exchangeUnit(), state.rateBackend)] *)
  sourceBaseToDestExchange : RateBackend -> BigNumber -> BigNumber;
  (** [convert(sourceSettler.baseUnit(x), destSettler.baseUnit(), state.rateBackend)] *)
  sourceBaseToDestBase : RateBackend -> BigNumber -> BigNumber;
  (** [sha256] of [../utils/crypto] *)
  sha256 : list byte -> list byte;
  (** [APPLICATION_ERROR] of [../utils/packet] *)
  APPLICATION_ERROR : IlpReject;
  (** [dest.clientAddress] *)
  clientAddress : string
}.

(** ** The session *)

(** End stream if no packets are successfully fulfilled within this interval *)
Definition IDLE_TIMEOUT : Z := 10000.

(** Amount of time in the future when packets should expire *)
Definition EXPIRATION_WINDOW : Z := 5000.

Record StreamMoneyOpts : Type := {
  (** amount of money to be sent over stream, in units of exchange *)
  optAmount : BigNumber;
  (** maximum slippage allowed; 0.01 when left out *)
  optSlippage : option BigNumber
}.

Definition slippageOf (o : StreamMoneyOpts) : BigNumber :=
  match optSlippage o with
  | Some s => s
  | None => BigNumber.ofQ (1 # 100)
  end.

(** The lines the logger is given, by the place that writes them. *)
Inductive Message : Type :=
| StartingExchange
| StreamTimedOut
| StreamSucceeded (amountToSend : BigNumber)
| StreamSentTooMuch (excess amountToSend : BigNumber)
| InsufficientOutgoing (remainingAmount : BigNumber)
| InsufficientIncoming (remainingAmount : BigNumber)
| SendingPacket (packetNum : nat) (packetAmount : BigNumber)
| PacketRejected (packetNum : nat) (code : string)
| UnexpectedAmountTooLarge
| ReducingPacketAmount (packetAmount maxPacketAmount : BigNumber)
| PacketFulfilled (packetNum : nat) (packetAmount : BigNumber)
| StreamEnded (fulfillCount prepareCount : nat).

Inductive Level : Set := LevelDebug | LevelInfo | LevelError.

Definition level (m : Message) : Level :=
  match m with
  | StreamTimedOut | InsufficientOutgoing _ | InsufficientIncoming _
  | UnexpectedAmountTooLarge => LevelError
  | StreamSucceeded _ | StreamSentTooMuch _ _ => LevelInfo
  | _ => LevelDebug
  end.

(** What one iteration reads from its surroundings. *)
Record Event `{Collaborators} : Type := {
  (** [Date.now()] when the iteration starts *)
  now : Z;
  (** [source.availableToSend$.getValue()] *)
  availableToSend : BigNumber;
  (** [dest.availableToReceive$.getValue()] *)
  availableToReceive : BigNumber;
  (** [source.availableToDebit$.getValue()] *)
  availableToDebit : BigNumber;
  (** [state.rateBackend] as it stands during the iteration *)
  rates : RateBackend;
  (** [generateSecret()] *)
  secret : list byte;
  (** [Date.now()] when the packet is handed to [sendPacket] *)
  sentAt : Z;
  (** what [sendPacket] answers *)
  response : IlpReply;
  (** [Date.now()] when a fulfill is taken in *)
  fulfilledAt : Z
}.

(** The accept predicate registered on the destination uplink. *)
Definition PacketHandler `{Collaborators} : Type :=
  RateBackend -> IlpPrepare -> IlpReply.

(** The variables of one call of [streamMoney], the handler slot of
    [dest], the packets given to [sendPacket] and the lines logged, the
    latest first. *)
Record State `{Collaborators} : Type := {
  timeout : Z;
  prepareCount : nat;
  fulfillCount : nat;
  totalFulfilled : BigNumber;
  maxPacketAmount : BigNumber;
  packetHandler : option PacketHandler;
  outbox : list IlpPrepare;
  journal : list Message
}.

(** How the promise of [trySendPacket] is settled. *)
Inductive Settlement : Set :=
| Resolved
| Rejected (reason : option Reader.Error).

(** What the lookup of a settler throws. *)
Inductive SettlerError : Set :=
| UnknownSettlerError.

(** How the promise of a call of [streamMoney] is settled: as the promise
    of the loop is, or rejected with the exception of lines 47-48. *)
Inductive Outcome : Set :=
| Settled (how : Settlement)
| Failed (e : SettlerError).

(** [source] and [dest]: of an uplink the call reads the type of its
    settler; the rest is read through the events. *)
Record ReadyUplink : Type := {
  settlerType : string
}.

(** The places where the loop is left. *)
Inductive Exit : Set :=
| TimedOut            (* line 100 *)
| Succeeded           (* line 105 *)
| SentTooMuch         (* line 111 *)
| NoOutgoingCapacity  (* line 131 *)
| NoIncomingCapacity  (* line 146 *)
| Threw (e : Reader.Error). (* lines 224, 225 *)

(** [return Promise.reject()] carries no value; [return log.info(...)]
    resolves; an exception rejects with what was thrown. *)
Definition settle (x : Exit) : Settlement :=
  match x with
  | Succeeded | SentTooMuch => Resolved
  | TimedOut | NoOutgoingCapacity | NoIncomingCapacity => Rejected None
  | Threw e => Rejected (Some e)
  end.

Inductive Step `{Collaborators} : Type :=
| Return (x : Exit) (s : State)
| Recurse (s : State).

Section Session.

Context `{C : Collaborators}.

Definition log (m : Message) (s : State) : State :=
  {| timeout := timeout s;
     prepareCount := prepareCount s;
     fulfillCount := fulfillCount s;
     totalFulfilled := totalFulfilled s;
     maxPacketAmount := maxPacketAmount s;
     packetHandler := packetHandler s;
     outbox := outbox s;
     journal := m :: journal s |}.

(** Modelled from the spec: [registerPacketHandler] of [../uplink], which
    is not in [switch.ts]; an uplink holds a single incoming-packet accept
    predicate, and registering puts the given one in its place. *)
Definition registerPacketHandler (h : PacketHandler) (s : State) : State :=
  {| timeout := timeout s;
     prepareCount := prepareCount s;
     fulfillCount := fulfillCount s;
     totalFulfilled := totalFulfilled s;
     maxPacketAmount := maxPacketAmount s;
     packetHandler := Some h;
     outbox := outbox s;
     journal := journal s |}.

(** Modelled from the spec: [deregisterPacketHandler] of [../uplink],
    which is not in [switch.ts]; it empties the single slot of the uplink. *)
Definition deregisterPacketHandler (s : State) : State :=
  {| timeout := timeout s;
     prepareCount := prepareCount s;
     fulfillCount := fulfillCount s;
     totalFulfilled := totalFulfilled s;
     maxPacketAmount := maxPacketAmount s;
     packetHandler := None;
     outbox := outbox s;
     journal := journal s |}.

(** The request side of [sendPacket]: the packet leaves through the
    source uplink.  Its answer is the [response] of the event. *)
Definition sendPacket (p : IlpPrepare) (s : State) : State :=
  {| timeout := timeout s;
     prepareCount := prepareCount s;
     fulfillCount := fulfillCount s;
     totalFulfilled := totalFulfilled s;
     maxPacketAmount := maxPacketAmount s;
     packetHandler := packetHandler s;
     outbox := p :: outbox s;
     journal := journal s |}.

(** [timeout = Date.now() + IDLE_TIMEOUT] *)
Definition bumpIdle (dateNow : Z) (s : State) : State :=
  {| timeout := dateNow + IDLE_TIMEOUT;
     prepareCount := prepareCount s;
     fulfillCount := fulfillCount s;
     totalFulfilled := totalFulfilled s;
     maxPacketAmount := maxPacketAmount s;
     packetHandler := packetHandler s;
     outbox := outbox s;
     journal := journal s |}.

(** [prepareCount += 1] *)
Definition countPrepare (s : State) : State :=
  {| timeout := timeout s;
     prepareCount := S (prepareCount s);
     fulfillCount := fulfillCount s;
     totalFulfilled := totalFulfilled s;
     maxPacketAmount := maxPacketAmount s;
     packetHandler := packetHandler s;
     outbox := outbox s;
     journal := journal s |}.

(** [totalFulfilled = totalFulfilled.plus(packetAmount); fulfillCount += 1] *)
Definition countFulfill (packetAmount : BigNumber) (s : State) : State :=
  {| timeout := timeout s;
     prepareCount := prepareCount s;
     fulfillCount := S (fulfillCount s);
     totalFulfilled := BigNumber.plus (totalFulfilled s) packetAmount;
     maxPacketAmount := maxPacketAmount s;
     packetHandler := packetHandler s;
     outbox := outbox s;
     journal := journal s |}.

(** [maxPacketAmount = newMaxPacketAmount] *)
Definition setMaxPacketAmount (newMaxPacketAmount : BigNumber) (s : State) : State :=
  {| timeout := timeout s;
     prepareCount := prepareCount s;
     fulfillCount := fulfillCount s;
     totalFulfilled := totalFulfilled s;
     maxPacketAmount := newMaxPacketAmount;
     packetHandler := packetHandler s;
     outbox := outbox s;
     journal := journal s |}.

(** Lines 158-170: the smallest of the three bounds, then the remaining
    amount spread over the packets that bound asks for. *)
Definition packetSizing (availableToDebit remainingAmount maxPacketAmount : BigNumber)
  : BigNumber :=
  let packetAmount :=
    BigNumber.min availableToDebit [remainingAmount; maxPacketAmount] in
  let remainingNumPackets :=
    BigNumber.dp0_ceil (BigNumber.div remainingAmount packetAmount) in
  BigNumber.dp0_ceil (BigNumber.div remainingAmount remainingNumPackets).

(** Lines 182-194 *)
Definition acceptExchangeRate (slippage : BigNumber) (r : RateBackend)
    (sourceAmount destAmount : BigNumber) : bool :=
  BigNumber.gte destAmount
    (BigNumber.dp0_ceil
       (BigNumber.times (sourceBaseToDestBase r sourceAmount)
          (BigNumber.minus BigNumber.one slippage))).

(** Lines 196-197 *)
Definition correctCondition (condition someCondition : list byte) : bool :=
  bufferEquals condition someCondition.

(** Lines 200-204: the predicate given to [registerPacketHandler]. *)
Definition acceptPredicate (slippage packetAmount : BigNumber)
    (condition : list byte) (fulfillPacket : IlpFulfill) : PacketHandler :=
  fun r incoming =>
    if acceptExchangeRate slippage r packetAmount (amount incoming)
       && correctCondition condition (executionCondition incoming)
    then Fulfill fulfillPacket
    else Reject APPLICATION_ERROR.

(** Lines 232-234 *)
Definition newMaxPacketAmount
    (packetAmount foreignMaxPacketAmount foreignReceivedAmount : BigNumber)
  : BigNumber :=
  BigNumber.dividedToIntegerBy
    (BigNumber.times packetAmount foreignMaxPacketAmount)
    foreignReceivedAmount.

(** Lines 222-246: the body of [if (code === 'F08')]. *)
Definition amountTooLarge (packetAmount : BigNumber) (rejectData : list byte)
    (s : State) : Reader.Error + State :=
  match Reader.readUInt64BigNum rejectData with
  | inl e => inl e
  | inr (foreignReceivedAmount, reader) =>
      match Reader.readUInt64BigNum reader with
      | inl e => inl e
      | inr (foreignMaxPacketAmount, _) =>
          let newMax :=
            newMaxPacketAmount packetAmount foreignMaxPacketAmount
              foreignReceivedAmount in
          if BigNumber.gte newMax packetAmount then
            inr (log UnexpectedAmountTooLarge s)
          else if BigNumber.lt newMax packetAmount then
            inr (setMaxPacketAmount newMax
                   (log (ReducingPacketAmount packetAmount (maxPacketAmount s)) s))
          else inr s
      end
  end.

(** Lines 216-261: what is done with the answer of [sendPacket]. *)
Definition react (e : Event) (packetNum : nat) (packetAmount : BigNumber)
    (s : State) : Step :=
  match response e with
  | Reject r =>
      let s := log (PacketRejected packetNum (code r)) s in
      if String.eqb (code r) "F08" then
        match amountTooLarge packetAmount (rejectData r) s with
        | inl err => Return (Threw err) s
        | inr s => Recurse (deregisterPacketHandler s)
        end
      else Recurse (deregisterPacketHandler s)
  | Fulfill _ =>
      let s := log (PacketFulfilled packetNum packetAmount) s in
      let s := bumpIdle (fulfilledAt e) s in
      let s := countFulfill packetAmount s in
      Recurse (deregisterPacketHandler s)
  end.

(** Lines 172-214: the packet is numbered, its condition is made, the
    predicate is registered and the packet is sent. *)
Definition prepare (slippage : BigNumber) (e : Event) (packetAmount : BigNumber)
    (s : State) : State :=
  let s := countPrepare s in
  let packetNum := prepareCount s in
  let fulfillment := secret e in
  let condition := sha256 fulfillment in
  let fulfillPacket := {| fulfillment := fulfillment; fulfillData := [] |} in
  let s :=
    registerPacketHandler
      (acceptPredicate slippage packetAmount condition fulfillPacket) s in
  let s := log (SendingPacket packetNum packetAmount) s in
  sendPacket
    {| destination := clientAddress;
       amount := packetAmount;
       executionCondition := condition;
       data := [];
       expiresAt := sentAt e + EXPIRATION_WINDOW |} s.

(** One call of [trySendPacket] up to its recursive call. *)
Definition iteration (amountToSend slippage : BigNumber) (e : Event) (s : State)
  : Step :=
  let isFailing := now e >? timeout s in
  if isFailing then Return TimedOut (log StreamTimedOut s)
  else
    let remainingAmount := BigNumber.minus amountToSend (totalFulfilled s) in
    if BigNumber.isZero remainingAmount then
      Return Succeeded (log (StreamSucceeded amountToSend) s)
    else if BigNumber.lte remainingAmount BigNumber.zero then
      Return SentTooMuch
        (log (StreamSentTooMuch (BigNumber.negated remainingAmount) amountToSend) s)
    else
      let remainingToSend := sourceBaseToExchange remainingAmount in
      if BigNumber.gt remainingToSend (availableToSend e) then
        Return NoOutgoingCapacity (log (InsufficientOutgoing remainingAmount) s)
      else
        let remainingToReceive :=
          sourceBaseToDestExchange (rates e) remainingAmount in
        if BigNumber.gt remainingToReceive (availableToReceive e) then
          Return NoIncomingCapacity (log (InsufficientIncoming remainingAmount) s)
        else
          let availableToDebit := sourceExchangeToBase (availableToDebit e) in
          if BigNumber.lte availableToDebit BigNumber.zero then
            (* wait 5 ms, then try again *)
            Recurse s
          else
            let packetAmount :=
              packetSizing availableToDebit remainingAmount (maxPacketAmount s) in
            let s := prepare slippage e packetAmount s in
            react e (prepareCount s) packetAmount s.

(** [trySendPacket]: one event for each call; [None] says that the
    events given did not bring the loop to an end. *)
Fixpoint trySendPacket (amountToSend slippage : BigNumber) (events : list Event)
    (s : State) : option Exit * State :=
  match events with
  | [] => (None, s)
  | e :: events =>
      match iteration amountToSend slippage e s with
      | Return x s => (Some x, s)
      | Recurse s => trySendPacket amountToSend slippage events s
      end
  end.

(** The variables of [streamMoney] before the first call of the loop;
    [startedAt] is [Date.now()] of the first [bumpIdle], [registered] is
    what the slot of [dest] holds at that time. *)
Definition initialState (startedAt : Z) (registered : option PacketHandler)
  : State :=
  {| timeout := startedAt + IDLE_TIMEOUT;
     prepareCount := 0;
     fulfillCount := 0;
     totalFulfilled := BigNumber.ofZ 0;
     maxPacketAmount := BigNumber.PInf;
     packetHandler := registered;
     outbox := [];
     journal := [StartingExchange] |}.

(** Lines 264-269: the callback of [finally]. *)
Definition cleanup (s : State) : State :=
  let s := deregisterPacketHandler s in
  log (StreamEnded (fulfillCount s) (prepareCount s)) s.

(** Lines 50-53 *)
Definition amountToSendOf (opts : StreamMoneyOpts) : BigNumber :=
  sourceExchangeToBase (optAmount opts).

(** The call [trySendPacket()] of line 264, from the first state. *)
Definition session (opts : StreamMoneyOpts) (startedAt : Z)
    (registered : option PacketHandler) (events : list Event)
  : option Exit * State :=
  trySendPacket (amountToSendOf opts) (slippageOf opts) events
    (initialState startedAt registered).

(** [streamMoney] from line 50 on, with the settlers of the source and
    of the destination found (their conversions are the fields of
    [Collaborators]): how its promise settles, if the events bring the
    loop to an end, and the state it leaves.  The lookups of lines 47-48,
    which come first, are in [streamMoneyCall] below. *)
Definition streamMoney (opts : StreamMoneyOpts) (startedAt : Z)
    (registered : option PacketHandler) (events : list Event)
  : option Settlement * State :=
  match session opts startedAt registered events with
  | (Some x, s) => (Some (settle x), cleanup s)
  | (None, s) => (None, s)
  end.

(** Modelled from the spec: [getSettler] of [../api], which is not in
    [switch.ts]; a settler is looked up by the key of its asset type, and
    the lookup fails with [UnknownSettlerError] when no settler is
    registered for the type.  [settlers] are the keys the state holds a
    settler for. *)
Definition getSettler (settlers : list string) (settlerType : string)
  : SettlerError + string :=
  if existsb (String.eqb settlerType) settlers then inr settlerType
  else inl UnknownSettlerError.

(** The whole of [streamMoney].  Lines 47-48 look the two settlers up
    before anything else; an exception there rejects the promise of the
    async function before the loop is started and before the callback of
    [finally] is attached (line 264), so that the slot of [dest] is left
    as it was.  With both settlers found the call goes on as [streamMoney]
    above.  The second component is the slot of [dest]. *)
Definition streamMoneyCall (settlers : list string) (source dest : ReadyUplink)
    (opts : StreamMoneyOpts) (startedAt : Z)
    (registered : option PacketHandler) (events : list Event)
  : option Outcome * option PacketHandler :=
  match getSettler settlers (settlerType source) with
  | inl err => (Some (Failed err), registered)
  | inr _ =>
      match getSettler settlers (settlerType dest) with
      | inl err => (Some (Failed err), registered)
      | inr _ =>
          let (settlement, s) := streamMoney opts startedAt registered events in
          (option_map Settled settlement, packetHandler s)
      end
  end.

End Session.

(** ** Notions the statements are written with *)

Section Notions.

Context `{C : Collaborators}.

Definition stateOf (st : Step) : State :=
  match st with
  | Return _ s => s
  | Recurse s => s
  end.

(** [amountToSend.minus(totalFulfilled)] *)
Definition remainingOf (amountToSend : BigNumber) (s : State) : BigNumber :=
  BigNumber.minus amountToSend (totalFulfilled s).

(** [availableToDebit] of lines 149-152 *)
Definition debitOf (e : Event) : BigNumber :=
  sourceExchangeToBase (availableToDebit e).

(** The iteration passes every check of lines 97-156 and comes to size
    a packet. *)
Definition sends (amountToSend : BigNumber) (e : Event) (s : State) : bool :=
  negb (now e >? timeout s)
  && negb (BigNumber.isZero (remainingOf amountToSend s))
  && negb (BigNumber.lte (remainingOf amountToSend s) BigNumber.zero)
  && negb (BigNumber.gt (sourceBaseToExchange (remainingOf amountToSend s))
             (availableToSend e))
  && negb (BigNumber.gt
             (sourceBaseToDestExchange (rates e) (remainingOf amountToSend s))
             (availableToReceive e))
  && negb (BigNumber.lte (debitOf e) BigNumber.zero).

(** The number [b] is the minimum of the debit capacity in base units,
    the remaining amount and the maximum packet amount: it is one of the
    three and none of them is below it. *)
Definition leastBound (b : Qc) (availableToDebit : BigNumber) (remaining : Qc)
    (maxPacketAmount : BigNumber) : Prop :=
  (BigNumber.Fin b = availableToDebit \/ b = remaining \/
   BigNumber.Fin b = maxPacketAmount) /\
  BigNumber.lte (BigNumber.Fin b) availableToDebit = true /\
  BigNumber.lte (BigNumber.Fin b) (BigNumber.Fin remaining) = true /\
  BigNumber.lte (BigNumber.Fin b) maxPacketAmount = true.

(** Rounding to a whole number towards the ceiling. *)
Definition ceiling (x : BigNumber) : BigNumber := BigNumber.dp0_ceil x.

(** The least destination amount the design lets a packet be fulfilled
    for: the source amount through the oracle into destination base
    units, times one minus the slippage, to the ceiling. *)
Definition designThreshold (slippage : BigNumber) (r : RateBackend)
    (sourceAmount : BigNumber) : BigNumber :=
  ceiling
    (BigNumber.times (sourceBaseToDestBase r sourceAmount)
       (BigNumber.minus BigNumber.one slippage)).

(** An amount of packets is bounded: it is unlimited or a whole number
    that is not negative. *)
Definition wholeOrUnlimited (M : BigNumber) : Prop :=
  M = BigNumber.PInf \/ exists m : Z, 0 <= m /\ M = BigNumber.ofZ m.

(** The total fulfilled is within the amount [a] to send, or less than
    one base unit above it with a packet of at least one base unit sent. *)
Definition boundedOvershoot (a : Qc) (s : State) : Prop :=
  exists t : Qc,
    totalFulfilled s = BigNumber.Fin t /\
    ((this t <= this a)%Q \/
     ((this t - this a < 1)%Q /\
      exists (p : IlpPrepare) (c : Z),
        In p (outbox s) /\ amount p = BigNumber.ofZ c /\ 1 <= c)).

(** The exit a logged line tells of. *)
Definition announces (m : Message) : option Exit :=
  match m with
  | StreamTimedOut => Some TimedOut
  | StreamSucceeded _ => Some Succeeded
  | StreamSentTooMuch _ _ => Some SentTooMuch
  | InsufficientOutgoing _ => Some NoOutgoingCapacity
  | InsufficientIncoming _ => Some NoIncomingCapacity
  | _ => None
  end.

(** The three fatal conditions of the design. *)
Definition fatal (x : Exit) : bool :=
  match x with
  | TimedOut | NoOutgoingCapacity | NoIncomingCapacity => true
  | _ => false
  end.

Definition isFulfill (r : IlpReply) : bool :=
  match r with Fulfill _ => true | Reject _ => false end.

(** A reject that is not "amount too large". *)
Definition otherReject (r : IlpReply) : bool :=
  match r with
  | Reject j => negb (String.eqb (code j) "F08")
  | Fulfill _ => false
  end.

(** Every iteration of the list starts within the idle deadline, when
    each of them ends with a fulfill that sets the next deadline. *)
Fixpoint timely (deadline : Z) (events : list Event) : bool :=
  match events with
  | [] => true
  | e :: rest =>
      (now e <=? deadline) && timely (fulfilledAt e + IDLE_TIMEOUT) rest
  end.

Definition isUnlimited (x : BigNumber) : bool :=
  match x with BigNumber.PInf => true | _ => false end.

(** Nothing but the amount bounds the iteration: the source can send
    and the destination receive without limit, there is at least one
    base unit of debit to draw on, and the packet is fulfilled. *)
Definition permissive (e : Event) : bool :=
  isUnlimited (availableToSend e)
  && isUnlimited (availableToReceive e)
  && BigNumber.gte (debitOf e) BigNumber.one
  && isFulfill (response e).

(** A packet as line 208 builds it, with a whole amount that is not
    negative. *)
Definition wellFormedPacket (p : IlpPrepare) : Prop :=
  destination p = clientAddress /\ data p = [] /\
  exists c : Z, 0 <= c /\ amount p = BigNumber.ofZ c.

End Notions.

(** ** A ledger to run the loop on

    One exchange unit of the source is a thousand of its base units, one
    exchange unit of the destination a hundred of its base units, and the
    rate snapshot is the number of destination base units for one source
    base unit.  As [convert] of crypto-rate-utils does, each conversion
    ends by rounding down to the precision of the unit converted to: no
    decimal place for a base unit, three and two for the exchange
    units. *)

Module Demo.

(** [x.decimalPlaces(places, ROUND_DOWN)] *)
Definition roundDown (places : Z) (x : BigNumber) : BigNumber :=
  let shift := BigNumber.ofZ (10 ^ places) in
  BigNumber.div
    (BigNumber.dividedToIntegerBy (BigNumber.times x shift) BigNumber.one) shift.

#[export] Instance ledger : Collaborators := {|
  RateBackend := BigNumber;
  sourceExchangeToBase :=
    fun x => roundDown 0 (BigNumber.times x (BigNumber.ofZ 1000));
  sourceBaseToExchange :=
    fun x => roundDown 3 (BigNumber.div x (BigNumber.ofZ 1000));
  sourceBaseToDestExchange :=
    fun r x => roundDown 2 (BigNumber.div (BigNumber.times x r) (BigNumber.ofZ 100));
  sourceBaseToDestBase := fun r x => roundDown 0 (BigNumber.times x r);
  sha256 := fun secret => rev secret;
  APPLICATION_ERROR := {| code := "F99"; rejectData := [] |};
  clientAddress := "test.dest"
|}.

Definition fulfilled : IlpReply :=
  Fulfill {| fulfillment := [x01; x02]; fulfillData := [] |}.

Definition rejected (code : string) (data : list byte) : IlpReply :=
  Reject {| code := code; rejectData := data |}.

(** Eight bytes that read as the given byte. *)
Definition uint64 (b : byte) : list byte :=
  [x00; x00; x00; x00; x00; x00; x00; b].

(** An event at time [t] with unlimited capacities. *)
Definition unlimited (t : Z) (r : IlpReply) : Event :=
  {| now := t;
     availableToSend := BigNumber.PInf;
     availableToReceive := BigNumber.PInf;
     availableToDebit := BigNumber.PInf;
     rates := BigNumber.ofZ 2;
     secret := [x01; x02];
     sentAt := t;
     response := r;
     fulfilledAt := t + 1 |}.

(** An event at time [t] with the given capacities, in exchange units. *)
Definition limited (t : Z) (toSend toDebit : BigNumber) (r : IlpReply) : Event :=
  {| now := t;
     availableToSend := toSend;
     availableToReceive := BigNumber.PInf;
     availableToDebit := toDebit;
     rates := BigNumber.ofZ 2;
     secret := [x01; x02];
     sentAt := t;
     response := r;
     fulfilledAt := t + 1 |}.

(** A request for [q] exchange units with the default slippage. *)
Definition request (q : Q) : StreamMoneyOpts :=
  {| optAmount := BigNumber.ofQ q; optSlippage := None |}.

(** A packet rejected as too large: 100 received, at most 50 taken. *)
Definition tooLarge : Event :=
  unlimited 1 (rejected "F08" (uint64 x64 ++ uint64 x32)).

(** An F08 that reports nothing received and a maximum of nothing. *)
Definition zeroReceived : Event :=
  unlimited 1 (rejected "F08" (uint64 x00 ++ uint64 x00)).

(** An F08 without data. *)
Definition malformed : Event :=
  unlimited 1 (rejected "F08" []).

(** A reject of the destination's own. *)
Definition refused : Event :=
  unlimited 1 (rejected "F99" []).

(** An iteration that starts twenty seconds after the session. *)
Definition late : Event :=
  unlimited 20000 fulfilled.

(** Half an exchange unit can be sent. *)
Definition scarce : Event :=
  limited 1 (BigNumber.ofQ (1 # 2)) BigNumber.PInf fulfilled.

(** A packet arriving at the destination. *)
Definition incoming (claimed : Z) (condition : list byte) : IlpPrepare :=
  {| destination := "test.dest";
     amount := BigNumber.ofZ claimed;
     executionCondition := condition;
     data := [];
     expiresAt := 5001 |}.

(** The destination can take in half an exchange unit. *)
Definition crowded : Event :=
  {| now := 1;
     availableToSend := BigNumber.PInf;
     availableToReceive := BigNumber.ofQ (1 # 2);
     availableToDebit := BigNumber.PInf;
     rates := BigNumber.ofZ 2;
     secret := [x01; x02];
     sentAt := 1;
     response := fulfilled;
     fulfilledAt := 2 |}.

(** No debit to draw on at time [t]. *)
Definition indebted (t : Z) : Event :=
  limited t BigNumber.PInf (BigNumber.ofZ 0) fulfilled.

(** Two base units of debit at time [t], and the packet fulfilled. *)
Definition funded (t : Z) : Event :=
  limited t BigNumber.PInf (BigNumber.ofQ (2 # 1000)) fulfilled.

(** An F08 for two received where one is the most. *)
Definition halved : Event :=
  unlimited 1 (rejected "F08" (uint64 x02 ++ uint64 x01)).

(** Forty base units of debit, and the packet fulfilled. *)
Definition forty : Event :=
  limited 1 BigNumber.PInf (BigNumber.ofQ (40 # 1000)) fulfilled.

(** [10^21] base units of debit, and the packet fulfilled. *)
Definition ample : Event :=
  limited 1 BigNumber.PInf (BigNumber.ofQ (1000000000000000000000 # 1000)) fulfilled.

(** A predicate registered on the destination before the call. *)
Definition keeper : PacketHandler :=
  fun _ _ => Reject APPLICATION_ERROR.

Definition uplink (settlerType : string) : ReadyUplink :=
  {| settlerType := settlerType |}.

End Demo.

(** * Facts *)

(** ** Rationals *)

Section Rationals.

Local Open Scope Q_scope.

Lemma this_Q2Qc (q : Q) : this (Q2Qc q) == q.
Proof. apply Qred_correct. Qed.

Lemma this_Qcdiv (a b : Qc) : this (a / b)%Qc == this a / this b.
Proof.
  unfold Qcdiv, Qcmult, Qcinv. rewrite !this_Q2Qc. reflexivity.
Qed.

Lemma this_Qcplus (a b : Qc) : this (a + b)%Qc == this a + this b.
Proof. unfold Qcplus. apply this_Q2Qc. Qed.

Lemma this_Qcopp (a : Qc) : this (- a)%Qc == - this a.
Proof. unfold Qcopp. apply this_Q2Qc. Qed.

Lemma this_Qcmult (a b : Qc) : this (a * b)%Qc == this a * this b.
Proof. unfold Qcmult. apply this_Q2Qc. Qed.

Lemma Qccompare_Lt (a b : Qc) : Qccompare a b = Lt <-> this a < this b.
Proof. unfold Qccompare. symmetry. apply Qlt_alt. Qed.

Lemma Qccompare_Gt (a b : Qc) : Qccompare a b = Gt <-> this b < this a.
Proof. unfold Qccompare. symmetry. apply Qgt_alt. Qed.

Lemma Qccompare_Eq (a b : Qc) : Qccompare a b = Eq <-> this a == this b.
Proof. unfold Qccompare. symmetry. apply Qeq_alt. Qed.

Lemma inject_Z_pos_ge1 (n : Z) : 0 < inject_Z n -> (1 <= n)%Z.
Proof. unfold Qlt. simpl. lia. Qed.

Lemma inject_Z_ge1 (n : Z) : (1 <= n)%Z -> 1 <= inject_Z n.
Proof. unfold Qle. simpl. lia. Qed.

Lemma inject_Z_nonneg (n : Z) : (0 <= n)%Z -> 0 <= inject_Z n.
Proof. unfold Qle. simpl. lia. Qed.

Lemma inject_Z_pred (c : Z) : inject_Z (c - 1) == inject_Z c - 1.
Proof. unfold Z.sub. rewrite inject_Z_plus. reflexivity. Qed.

End Rationals.

(** ** Rounding a quotient to twenty places *)

Section Rounding.

Local Open Scope Q_scope.

Lemma scale_pos : 0 < inject_Z BigNumber.scale.
Proof. reflexivity. Qed.

Lemma roundHalfUp_nonneg (x : Q) :
  0 <= x ->
  BigNumber.roundHalfUp x =
  inject_Z (Qfloor (x * inject_Z BigNumber.scale + (1 # 2))) /
  inject_Z BigNumber.scale.
Proof.
  intros H. unfold BigNumber.roundHalfUp.
  destruct (Qcompare x 0) eqn:E; try reflexivity.
  apply Qlt_alt in E. exfalso. lra.
Qed.

Lemma Qfloor_ge (m : Z) (y : Q) : inject_Z m <= y -> (m <= Qfloor y)%Z.
Proof. intros H. rewrite <- (Qfloor_Z m). apply Qfloor_resp_le. exact H. Qed.

Lemma Qfloor_lt (m : Z) (y : Q) : y < inject_Z m -> (Qfloor y < m)%Z.
Proof.
  intros H. rewrite Zlt_Qlt. eapply Qle_lt_trans; [apply Qfloor_le | exact H].
Qed.

Lemma roundHalfUp_above (x : Q) (k : Z) :
  0 <= x -> inject_Z k <= x -> inject_Z k <= BigNumber.roundHalfUp x.
Proof.
  intros H0 H. rewrite (roundHalfUp_nonneg x H0).
  apply Qle_shift_div_l; [apply scale_pos |].
  rewrite <- inject_Z_mult, <- Zle_Qle. apply Qfloor_ge.
  rewrite inject_Z_mult. pose proof scale_pos. nra.
Qed.

Lemma roundHalfUp_below (x : Q) (k : Z) :
  0 <= x -> x <= inject_Z k -> BigNumber.roundHalfUp x <= inject_Z k.
Proof.
  intros H0 H. rewrite (roundHalfUp_nonneg x H0).
  apply Qle_shift_div_r; [apply scale_pos |].
  rewrite <- inject_Z_mult, <- Zle_Qle.
  apply Z.lt_succ_r. apply Qfloor_lt.
  unfold Z.succ. rewrite inject_Z_plus, inject_Z_mult. pose proof scale_pos.
  change (inject_Z 1) with 1. nra.
Qed.

Lemma roundHalfUp_whole (k : Z) : (0 <= k)%Z -> BigNumber.roundHalfUp (inject_Z k) == inject_Z k.
Proof.
  intros Hk. assert (H0 : 0 <= inject_Z k) by (rewrite Zle_Qle in Hk; exact Hk).
  apply Qle_antisym.
  - apply roundHalfUp_below; [exact H0 | apply Qle_refl].
  - apply roundHalfUp_above; [exact H0 | apply Qle_refl].
Qed.

Lemma roundHalfUp_le (x : Q) : 0 <= x -> BigNumber.roundHalfUp x <= x + BigNumber.halfUlp.
Proof.
  intros H0. rewrite (roundHalfUp_nonneg x H0).
  apply Qle_shift_div_r; [apply scale_pos |].
  pose proof (Qfloor_le (x * inject_Z BigNumber.scale + (1 # 2))) as H.
  unfold BigNumber.halfUlp. pose proof scale_pos as Hs.
  assert (E : (x + 1 / (2 * inject_Z BigNumber.scale)) * inject_Z BigNumber.scale ==
              x * inject_Z BigNumber.scale + (1 # 2)).
  { field. lra. }
  rewrite E. exact H.
Qed.

Lemma roundHalfUp_gt (x : Q) : 0 <= x -> x - BigNumber.halfUlp < BigNumber.roundHalfUp x.
Proof.
  intros H0. rewrite (roundHalfUp_nonneg x H0).
  apply Qlt_shift_div_l; [apply scale_pos |].
  pose proof (Qlt_floor (x * inject_Z BigNumber.scale + (1 # 2))) as H.
  rewrite inject_Z_plus in H. change (inject_Z 1) with 1 in H.
  unfold BigNumber.halfUlp. pose proof scale_pos as Hs.
  assert (E : (x - 1 / (2 * inject_Z BigNumber.scale)) * inject_Z BigNumber.scale ==
              x * inject_Z BigNumber.scale - (1 # 2)).
  { field. lra. }
  rewrite E. lra.
Qed.

Lemma roundHalfUp_comp (x y : Q) : x == y -> BigNumber.roundHalfUp x == BigNumber.roundHalfUp y.
Proof.
  intros H. unfold BigNumber.roundHalfUp.
  assert (E : (x ?= 0) = (y ?= 0)) by (rewrite H; reflexivity).
  rewrite E. destruct (y ?= 0); rewrite H; reflexivity.
Qed.

Lemma halfUlp_pos : 0 < BigNumber.halfUlp.
Proof. reflexivity. Qed.

Lemma Qceiling_rounded_le (x : Q) :
  0 <= x -> (Qceiling (BigNumber.roundHalfUp x) <= Qceiling x)%Z.
Proof.
  intros H0. rewrite <- (Qceiling_Z (Qceiling x)). apply Qceiling_resp_le.
  apply roundHalfUp_below; [exact H0 | apply Qle_ceiling].
Qed.

Lemma Qceiling_upper (x : Q) : inject_Z (Qceiling x) < x + 1.
Proof.
  pose proof (Qceiling_lt x) as H.
  assert (E : inject_Z (Qceiling x - 1) == inject_Z (Qceiling x) - 1).
  { unfold Z.sub. rewrite inject_Z_plus. reflexivity. }
  rewrite E in H. lra.
Qed.

Lemma Qceiling_ge (m : Z) (y : Q) : inject_Z m <= y -> (m <= Qceiling y)%Z.
Proof. intros H. rewrite <- (Qceiling_Z m). apply Qceiling_resp_le. exact H. Qed.

Lemma Qceiling_le (m : Z) (y : Q) : y <= inject_Z m -> (Qceiling y <= m)%Z.
Proof. intros H. rewrite <- (Qceiling_Z m). apply Qceiling_resp_le. exact H. Qed.

(** The equal split of lines 165-170 on positive rationals: [n] packets
    are asked for by the bound [p], and each carries [c]. *)
Lemma Q_equal_split (r p : Q) :
  0 < r -> 0 < p -> p <= r ->
  let n := Qceiling (BigNumber.roundHalfUp (r / p)) in
  let c := Qceiling (BigNumber.roundHalfUp (r / inject_Z n)) in
  (1 <= n)%Z /\ (0 <= c)%Z /\ inject_Z c < r + 1 /\
  (forall m : Z, p <= inject_Z m -> inject_Z c < (inject_Z m + 1) * (1 + BigNumber.halfUlp)) /\
  (forall k : Z, r == inject_Z k -> (c <= k)%Z) /\
  (forall k : Z, r == inject_Z k -> 1 <= p -> (1 <= c)%Z).
Proof.
  intros Hr Hp Hpr n c.
  pose proof halfUlp_pos as Hh.
  assert (Hq1 : 1 <= r / p) by (apply Qle_shift_div_l; [exact Hp | lra]).
  assert (Hq0 : 0 <= r / p) by lra.
  assert (Hqp : r / p * p == r) by (field; lra).
  assert (Hn : (1 <= n)%Z).
  { apply Qceiling_ge. apply (roundHalfUp_above _ 1%Z); assumption. }
  assert (Hn' : 1 <= inject_Z n) by (rewrite Zle_Qle in Hn; exact Hn).
  assert (Hn0 : 0 < inject_Z n) by lra.
  set (y := r / inject_Z n) in *.
  assert (Hyn : y * inject_Z n == r) by (unfold y; field; lra).
  assert (Hy0 : 0 <= y) by (apply Qle_shift_div_l; [exact Hn0 | lra]).
  assert (Hyr : y <= r) by (apply Qle_shift_div_r; [exact Hn0 | nra]).
  assert (Hcy : (c <= Qceiling y)%Z) by (apply Qceiling_rounded_le; exact Hy0).
  repeat split.
  - exact Hn.
  - apply Qceiling_ge. apply (roundHalfUp_above _ 0%Z); assumption.
  - pose proof (Qceiling_upper y) as H. rewrite Zle_Qle in Hcy. lra.
  - intros m Hm.
    destruct (Qlt_le_dec (inject_Z n) (r / p)) as [Hlt | Hge].
    + assert (Hrd : BigNumber.roundHalfUp (r / p) <= inject_Z n) by apply Qle_ceiling.
      pose proof (roundHalfUp_gt (r / p) Hq0) as Hgt.
      assert (Hy : y <= p * (1 + BigNumber.halfUlp)).
      { apply Qle_shift_div_r; [exact Hn0 |].
        assert (H1 : r / p * p <= (inject_Z n + BigNumber.halfUlp) * p)
          by (apply Qmult_le_compat_r; lra).
        assert (H2 : BigNumber.halfUlp * p * 1 <= BigNumber.halfUlp * p * inject_Z n)
          by (apply Qmult_le_l; [nra | exact Hn']).
        lra. }
      pose proof (Qceiling_upper (BigNumber.roundHalfUp y)) as Hc. fold c in Hc.
      pose proof (roundHalfUp_le y Hy0) as Hle.
      assert (H3 : p * (1 + BigNumber.halfUlp) <= inject_Z m * (1 + BigNumber.halfUlp))
        by (apply Qmult_le_compat_r; lra).
      lra.
    + assert (Hy : y <= inject_Z m).
      { apply Qle_trans with p; [| exact Hm].
        apply Qle_shift_div_r; [exact Hn0 |]. nra. }
      assert (Hcm : (c <= m)%Z).
      { apply Qceiling_le. apply roundHalfUp_below; assumption. }
      rewrite Zle_Qle in Hcm. nra.
  - intros k Hk. apply Qceiling_le. apply roundHalfUp_below; [exact Hy0 | lra].
  - intros k Hk Hp1.
    assert (Hnk : (n <= k)%Z).
    { apply Qceiling_le. apply roundHalfUp_below; [exact Hq0 |].
      rewrite <- Hk. apply Qle_shift_div_r; [exact Hp | nra]. }
    rewrite Zle_Qle in Hnk.
    apply Qceiling_ge. apply (roundHalfUp_above _ 1%Z); [exact Hy0 |].
    apply Qle_shift_div_l; [exact Hn0 |]. change (inject_Z 1) with 1. lra.
Qed.

(** Rounding to twenty places does not change the ceiling of a quotient
    of whole numbers whose divisor is at most [2 * 10^20]. *)
Lemma Qceiling_rounded_whole (k b : Z) :
  (0 <= k)%Z -> (0 < b <= 2 * BigNumber.scale)%Z ->
  Qceiling (BigNumber.roundHalfUp (inject_Z k / inject_Z b)) = Qceiling (inject_Z k / inject_Z b).
Proof.
  intros Hk Hb.
  assert (Hb0 : 0 < inject_Z b) by (rewrite Zlt_Qlt in Hb; apply Hb).
  assert (Hk0 : 0 <= inject_Z k) by (rewrite Zle_Qle in Hk; exact Hk).
  set (x := inject_Z k / inject_Z b).
  assert (Hxb : x * inject_Z b == inject_Z k) by (unfold x; field; lra).
  assert (Hx0 : 0 <= x) by (apply Qle_shift_div_l; [exact Hb0 | lra]).
  apply Z.le_antisymm; [apply Qceiling_rounded_le; exact Hx0 |].
  set (f := (Qceiling x - 1)%Z).
  assert (Hf : inject_Z f < x) by apply Qceiling_lt.
  assert (Hfb : (f * b + 1 <= k)%Z).
  { assert (H : inject_Z (f * b) < inject_Z k).
    { rewrite inject_Z_mult, <- Hxb. apply Qmult_lt_compat_r; assumption. }
    rewrite <- Zlt_Qlt in H. lia. }
  rewrite Zle_Qle, inject_Z_plus, inject_Z_mult in Hfb.
  change (inject_Z 1) with 1 in Hfb.
  assert (Hb2 : inject_Z b <= 2 * inject_Z BigNumber.scale).
  { destruct Hb as [_ Hb]. rewrite Zle_Qle, inject_Z_mult in Hb. exact Hb. }
  assert (Hgap : inject_Z f + BigNumber.halfUlp <= x).
  { unfold BigNumber.halfUlp. pose proof scale_pos as Hs.
    apply Qle_trans with (inject_Z f + 1 / inject_Z b).
    - apply Qplus_le_r. apply Qle_shift_div_l; [exact Hb0 |].
      assert (E : 1 / (2 * inject_Z BigNumber.scale) * inject_Z b ==
                  inject_Z b / (2 * inject_Z BigNumber.scale))
        by (field; lra).
      rewrite E. apply Qle_shift_div_r; lra.
    - assert (E : inject_Z f + 1 / inject_Z b == (inject_Z f * inject_Z b + 1) / inject_Z b)
        by (field; lra).
      rewrite E. apply Qle_shift_div_r; [exact Hb0 | lra]. }
  pose proof (roundHalfUp_gt x Hx0) as Hgt.
  assert (Hlt : inject_Z f < inject_Z (Qceiling (BigNumber.roundHalfUp x))).
  { eapply Qlt_le_trans; [| apply Qle_ceiling]. lra. }
  rewrite <- Zlt_Qlt in Hlt. unfold f in Hlt. lia.
Qed.

Lemma halfUlp_scale : 2 * inject_Z BigNumber.scale * BigNumber.halfUlp == 1.
Proof. reflexivity. Qed.

(** On whole numbers up to [2 * 10^20] the two roundings of lines 165-170
    are the plain ceilings. *)
Lemma Q_equal_split_exact (k m : Z) :
  (0 < m <= k)%Z -> (k <= 2 * BigNumber.scale)%Z ->
  let n := Qceiling (inject_Z k / inject_Z m) in
  Qceiling (BigNumber.roundHalfUp (inject_Z k / inject_Z m)) = n /\
  Qceiling (BigNumber.roundHalfUp (inject_Z k / inject_Z n)) =
    Qceiling (inject_Z k / inject_Z n).
Proof.
  intros Hm Hk n.
  assert (Hm0 : 0 < inject_Z m) by (rewrite Zlt_Qlt in Hm; apply Hm).
  assert (Hmk : inject_Z m <= inject_Z k) by (rewrite <- Zle_Qle; lia).
  assert (Hm1 : 1 <= inject_Z m) by (apply inject_Z_ge1; lia).
  assert (Hn1 : (1 <= n)%Z).
  { apply Qceiling_ge. apply Qle_shift_div_l; [exact Hm0 |].
    change (inject_Z 1) with 1. lra. }
  assert (Hnk : (n <= k)%Z).
  { apply Qceiling_le. apply Qle_shift_div_r; [exact Hm0 |]. nra. }
  split.
  - apply Qceiling_rounded_whole; lia.
  - apply Qceiling_rounded_whole; lia.
Qed.

End Rounding.

#[export] Instance roundHalfUp_proper : Proper (Qeq ==> Qeq) BigNumber.roundHalfUp.
Proof. intros x y H. apply roundHalfUp_comp. exact H. Qed.

(** ** bignumber.js *)

Module BigNumberFacts.

Import BigNumber.

Lemma ofZ_inj (a b : Z) : ofZ a = ofZ b -> a = b.
Proof.
  unfold ofZ, ofQ. intros H.
  apply (f_equal (fun x => match x with Fin q => q | _ => Q2Qc 0 end)) in H.
  apply Q2Qc_eq_iff in H. unfold Qeq in H. simpl in H. lia.
Qed.

Lemma ofN_inj (a b : N) : ofN a = ofN b -> a = b.
Proof. unfold ofN. intros H. apply ofZ_inj in H. lia. Qed.

Lemma this_ofZ (z : Z) : (this (Q2Qc (inject_Z z)) == inject_Z z)%Q.
Proof. apply this_Q2Qc. Qed.

Lemma ceilQc_Z (z : Z) : ceilQc (Q2Qc (inject_Z z)) = Q2Qc (inject_Z z).
Proof.
  unfold ceilQc. apply Q2Qc_eq_iff.
  rewrite this_ofZ, Qceiling_Z. reflexivity.
Qed.

Lemma compare_Z (a b : Z) :
  Qccompare (Q2Qc (inject_Z a)) (Q2Qc (inject_Z b)) = Z.compare a b.
Proof.
  unfold Qccompare. rewrite !this_ofZ.
  unfold Qcompare. simpl. rewrite !Z.mul_1_r. reflexivity.
Qed.

Lemma minus_zero_r (x : t) : minus x (ofZ 0) = x.
Proof.
  destruct x; simpl; try reflexivity.
  f_equal. apply Qc_is_canon.
  rewrite this_Qcplus, this_Qcopp, this_Q2Qc. simpl. ring.
Qed.

Lemma gt_PInf (x : t) : gt x PInf = false.
Proof. destruct x; reflexivity. Qed.

Lemma lte_refl_ofZ (z : Z) : lte (ofZ z) (ofZ z) = true.
Proof. unfold lte, ofZ, ofQ. simpl. rewrite compare_Z, Z.compare_refl. reflexivity. Qed.

Lemma lte_ofZ (a b : Z) : lte (ofZ a) (ofZ b) = (a <=? b)%Z.
Proof.
  unfold lte, ofZ, ofQ. simpl. rewrite compare_Z.
  unfold Z.leb. destruct (a ?= b)%Z; reflexivity.
Qed.

Lemma lt_ofZ (a b : Z) : lt (ofZ a) (ofZ b) = (a <? b)%Z.
Proof.
  unfold lt, ofZ, ofQ. simpl. rewrite compare_Z.
  unfold Z.ltb. destruct (a ?= b)%Z; reflexivity.
Qed.

Lemma gt_Fin_true (a b : Qc) : gt (Fin a) (Fin b) = true -> (this b < this a)%Q.
Proof.
  unfold gt. simpl. destruct (Qccompare a b) eqn:E; try discriminate.
  intros _. apply Qccompare_Gt. exact E.
Qed.

Lemma gt_Fin_false (a b : Qc) : gt (Fin a) (Fin b) = false -> (this a <= this b)%Q.
Proof.
  unfold gt. simpl. destruct (Qccompare a b) eqn:E; try discriminate; intros _.
  - apply (proj1 (Qccompare_Eq _ _)) in E. rewrite E. apply Qle_refl.
  - apply (proj1 (Qccompare_Lt _ _)) in E. apply Qlt_le_weak. exact E.
Qed.

Lemma lte_zero_false (x : t) :
  lte x zero = false -> x <> NaN ->
  x = PInf \/ exists q : Qc, x = Fin q /\ (0 < this q)%Q.
Proof.
  destruct x as [q | | |]; intros H Hn.
  - right. exists q. split; [reflexivity |].
    unfold lte, zero, ofZ, ofQ in H. simpl in H.
    destruct (Qccompare q (Q2Qc (inject_Z 0))) eqn:E; try discriminate.
    apply (proj1 (Qccompare_Gt _ _)) in E. rewrite this_Q2Qc in E. exact E.
  - left. reflexivity.
  - discriminate H.
  - contradiction Hn. reflexivity.
Qed.

(** The smallest of the three bounds of line 158, when the remaining
    amount is a positive number. *)
Lemma min_bounds (d M : t) (r : Qc) :
  (0 < this r)%Q -> lte d zero = false -> d <> NaN -> wholeOrUnlimited M ->
  exists p : Qc,
    min d [Fin r; M] = Fin p /\ (0 <= this p)%Q /\ (this p <= this r)%Q /\
    (forall m : Z, M = ofZ m -> (this p <= inject_Z m)%Q) /\
    ((this p == 0)%Q -> M = ofZ 0).
Proof.
  intros Hr Hd Hn HM.
  assert (Hfirst : exists p1 : Qc,
             (if gt d (Fin r) then Fin r else d) = Fin p1 /\
             (0 < this p1)%Q /\ (this p1 <= this r)%Q \/
             (d = PInf /\ gt d (Fin r) = true)).
  { destruct (lte_zero_false d Hd Hn) as [-> | (q & -> & Hq)].
    - exists r. right. split; reflexivity.
    - destruct (gt (Fin q) (Fin r)) eqn:E.
      + exists r. left. repeat split; [exact Hr | apply Qle_refl].
      + exists q. left. repeat split; [exact Hq | apply gt_Fin_false; exact E]. }
  assert (Hm1 : exists p1 : Qc,
             (if gt d (Fin r) then Fin r else d) = Fin p1 /\
             (0 < this p1)%Q /\ (this p1 <= this r)%Q).
  { destruct Hfirst as (p1 & [H | (-> & _)]).
    - exists p1. exact H.
    - exists r. simpl. repeat split; [exact Hr | apply Qle_refl]. }
  destruct Hm1 as (p1 & Hp1 & Hp1pos & Hp1r).
  unfold min. simpl.
  assert (Hstep : minLoop d [Fin r; M] = minLoop (Fin p1) [M]).
  { simpl. destruct (gt d (Fin r)); rewrite <- Hp1; reflexivity. }
  simpl in Hstep. rewrite Hstep. clear Hstep.
  destruct HM as [-> | (m & Hm & ->)].
  - simpl. exists p1. repeat split; try assumption.
    + apply Qlt_le_weak; exact Hp1pos.
    + intros m Hm. discriminate Hm.
    + intros H0. rewrite H0 in Hp1pos. exfalso. revert Hp1pos. apply Qlt_irrefl.
  - change (ofZ m) with (Fin (Q2Qc (inject_Z m))). simpl isNaN. cbv iota.
    destruct (gt (Fin p1) (Fin (Q2Qc (inject_Z m)))) eqn:E.
    + apply gt_Fin_true in E. rewrite this_Q2Qc in E.
      exists (Q2Qc (inject_Z m)). repeat split.
      * rewrite this_Q2Qc. apply inject_Z_nonneg. exact Hm.
      * rewrite this_Q2Qc. apply Qlt_le_weak. eapply Qlt_le_trans; eassumption.
      * intros m' Hm'. apply ofZ_inj in Hm'. subst m'.
        rewrite this_Q2Qc. apply Qle_refl.
      * intros H0. rewrite this_Q2Qc in H0. unfold Qeq in H0. simpl in H0.
        replace m with 0%Z by lia. reflexivity.
    + apply gt_Fin_false in E. rewrite this_Q2Qc in E.
      exists p1. repeat split; try assumption.
      * apply Qlt_le_weak; exact Hp1pos.
      * intros m' Hm'. apply ofZ_inj in Hm'. subst m'. exact E.
      * intros H0. rewrite H0 in Hp1pos. exfalso. revert Hp1pos. apply Qlt_irrefl.
Qed.

Lemma this_roundQc (q : Qc) : (this (roundQc q) == roundHalfUp (this q))%Q.
Proof. apply this_Q2Qc. Qed.

Lemma quotient_positive (a b : Qc) :
  (0 < this b)%Q -> quotient (Fin a) (Fin b) = Fin (a / b)%Qc.
Proof.
  intros Hb. unfold quotient.
  assert (E : Qccompare b (Q2Qc 0) = Gt)
    by (apply Qccompare_Gt; rewrite this_Q2Qc; exact Hb).
  rewrite E. reflexivity.
Qed.

Lemma div_positive (a b : Qc) :
  (0 < this b)%Q -> div (Fin a) (Fin b) = Fin (roundQc (a / b)).
Proof. intros Hb. unfold div. rewrite (quotient_positive a b Hb). reflexivity. Qed.

(** Lines 165-170 for a positive remaining amount [r] and a positive
    bound [p] that is not above it. *)
Lemma sizing_positive (r p : Qc) :
  (0 < this r)%Q -> (0 < this p)%Q -> (this p <= this r)%Q ->
  exists c : Z,
    dp0_ceil (div (Fin r) (dp0_ceil (div (Fin r) (Fin p)))) = ofZ c /\
    c = Qceiling
          (roundHalfUp
             (this r / inject_Z (Qceiling (roundHalfUp (this r / this p))))) /\
    0 <= c /\ (inject_Z c < this r + 1)%Q /\
    (forall m : Z, (this p <= inject_Z m)%Q ->
                   (inject_Z c < (inject_Z m + 1) * (1 + halfUlp))%Q) /\
    (forall k : Z, (this r == inject_Z k)%Q -> c <= k) /\
    (forall k : Z, (this r == inject_Z k)%Q -> (1 <= this p)%Q -> 1 <= c).
Proof.
  intros Hr Hp Hpr.
  destruct (Q_equal_split (this r) (this p) Hr Hp Hpr)
    as (Hn & Hc & Hlt & Hm & Hk & H1).
  set (n := Qceiling (roundHalfUp (this r / this p))) in *.
  set (c := Qceiling (roundHalfUp (this r / inject_Z n))) in *.
  exists c.
  assert (HN : (this (ceilQc (roundQc (r / p))) == inject_Z n)%Q).
  { unfold ceilQc. rewrite this_Q2Qc, this_roundQc, this_Qcdiv. reflexivity. }
  assert (HN0 : (0 < this (ceilQc (roundQc (r / p))))%Q).
  { rewrite HN. pose proof (inject_Z_ge1 n Hn). lra. }
  split; [| repeat split; assumption].
  rewrite (div_positive r p Hp). unfold dp0_ceil at 2.
  rewrite (div_positive r _ HN0). unfold dp0_ceil, ofZ, ofQ. f_equal.
  unfold ceilQc. apply Q2Qc_eq_iff.
  rewrite this_roundQc, this_Qcdiv, HN. reflexivity.
Qed.

(** *** The order of [lte] and the minimum of line 158 *)

Lemma Qccompare_cases (a b : Qc) :
  (Qccompare a b = Lt /\ (this a < this b)%Q) \/
  (Qccompare a b = Eq /\ a = b) \/
  (Qccompare a b = Gt /\ (this b < this a)%Q).
Proof.
  destruct (Qccompare a b) eqn:E.
  - right. left. split; [reflexivity |]. apply Qc_is_canon.
    apply (proj1 (Qccompare_Eq _ _)). exact E.
  - left. split; [reflexivity |]. apply (proj1 (Qccompare_Lt _ _)). exact E.
  - right. right. split; [reflexivity |]. apply (proj1 (Qccompare_Gt _ _)). exact E.
Qed.

Ltac order_cases :=
  repeat match goal with
         | H : context [Qccompare ?a ?b] |- _ =>
             let E := fresh "E" in
             let L := fresh "L" in
             destruct (Qccompare_cases a b) as [[E L] | [[E L] | [E L]]];
             rewrite E in *; clear E; try discriminate
         | |- context [Qccompare ?a ?b] =>
             let E := fresh "E" in
             let L := fresh "L" in
             destruct (Qccompare_cases a b) as [[E L] | [[E L] | [E L]]];
             rewrite E in *; clear E; try discriminate
         end.

Lemma lte_number (x y : t) : lte x y = true -> x <> NaN /\ y <> NaN.
Proof. destruct x, y; try discriminate; intros _; split; discriminate. Qed.

Lemma lte_refl (x : t) : x <> NaN -> lte x x = true.
Proof.
  destruct x as [q | | |]; intros H; try reflexivity; [| contradiction H; reflexivity].
  unfold lte. simpl. order_cases; try reflexivity. exfalso. lra.
Qed.

Lemma lte_antisym (x y : t) : lte x y = true -> lte y x = true -> x = y.
Proof.
  destruct x as [a | | |], y as [b | | |]; try discriminate; try reflexivity.
  unfold lte. simpl. intros H1 H2. order_cases; subst; try reflexivity; exfalso; lra.
Qed.

Lemma lte_trans (x y z : t) : lte x y = true -> lte y z = true -> lte x z = true.
Proof.
  destruct x as [a | | |], y as [b | | |], z as [c | | |];
    try discriminate; try reflexivity.
  unfold lte. simpl. intros H1 H2.
  order_cases; subst; try reflexivity; exfalso; lra.
Qed.

Lemma gt_true_lte (m n : t) : gt m n = true -> lte n m = true.
Proof.
  destruct m as [a | | |], n as [b | | |]; try discriminate; try reflexivity.
  unfold gt, lte. simpl. intros H. order_cases; try reflexivity; exfalso; lra.
Qed.

Lemma gt_false_lte (m n : t) :
  m <> NaN -> n <> NaN -> gt m n = false -> lte m n = true.
Proof.
  destruct m as [a | | |], n as [b | | |]; intros Hm Hn; try discriminate;
    try reflexivity; try (contradiction Hm; reflexivity);
    try (contradiction Hn; reflexivity).
  unfold gt, lte. simpl. intros H. order_cases; reflexivity.
Qed.

Lemma isNaN_false (x : t) : x <> NaN -> isNaN x = false.
Proof. destruct x; intros H; try reflexivity. contradiction H. reflexivity. Qed.

Lemma minLoop_cons (m n : t) (rest : list t) :
  n <> NaN ->
  minLoop m (n :: rest) = if gt m n then minLoop n rest else minLoop m rest.
Proof. intros H. cbn [minLoop]. rewrite (isNaN_false n H). reflexivity. Qed.

(** What [BigNumber.min] gives for three numbers is one of them, and is
    below none of them. *)
Lemma min_lower (d r M : t) :
  d <> NaN -> r <> NaN -> M <> NaN ->
  (min d [r; M] = d \/ min d [r; M] = r \/ min d [r; M] = M) /\
  lte (min d [r; M]) d = true /\ lte (min d [r; M]) r = true /\
  lte (min d [r; M]) M = true.
Proof.
  intros Hd Hr HM. unfold min. rewrite (minLoop_cons d r [M] Hr).
  destruct (gt d r) eqn:E1; rewrite (minLoop_cons _ M [] HM).
  - pose proof (gt_true_lte _ _ E1) as H1.
    destruct (gt r M) eqn:E2; cbn [minLoop].
    + pose proof (gt_true_lte _ _ E2) as H2.
      split; [right; right; reflexivity |].
      split; [apply (lte_trans _ r); assumption |].
      split; [exact H2 | apply lte_refl; exact HM].
    + pose proof (gt_false_lte _ _ Hr HM E2) as H2.
      split; [right; left; reflexivity |].
      split; [exact H1 |]. split; [apply lte_refl; exact Hr | exact H2].
  - pose proof (gt_false_lte _ _ Hd Hr E1) as H1.
    destruct (gt d M) eqn:E2; cbn [minLoop].
    + pose proof (gt_true_lte _ _ E2) as H2.
      split; [right; right; reflexivity |].
      split; [exact H2 |].
      split; [apply (lte_trans _ d); assumption | apply lte_refl; exact HM].
    + pose proof (gt_false_lte _ _ Hd HM E2) as H2.
      split; [left; reflexivity |].
      split; [apply lte_refl; exact Hd |]. split; assumption.
Qed.

(** [BigNumber.min] gives the minimum of the three bounds. *)
Lemma min_least (d M : t) (r b : Qc) :
  leastBound b d r M -> min d [Fin r; M] = Fin b.
Proof.
  intros (Hin & Hd & Hr & HM).
  destruct (lte_number _ _ Hd) as [_ Hnd].
  destruct (lte_number _ _ HM) as [_ HnM].
  assert (Hnr : Fin r <> NaN) by discriminate.
  destruct (min_lower d (Fin r) M Hnd Hnr HnM) as (Hw & Hwd & Hwr & HwM).
  apply lte_antisym.
  - destruct Hin as [<- | [-> | <-]]; assumption.
  - destruct Hw as [-> | [-> | ->]]; assumption.
Qed.

Lemma sizing_zero (r p : Qc) :
  (0 < this r)%Q -> (this p == 0)%Q ->
  dp0_ceil (div (Fin r) (dp0_ceil (div (Fin r) (Fin p)))) = ofZ 0.
Proof.
  intros Hr Hp.
  assert (Ep : Qccompare p (Q2Qc 0) = Eq).
  { apply Qccompare_Eq. rewrite this_Q2Qc. exact Hp. }
  assert (Er : Qccompare r (Q2Qc 0) = Gt).
  { apply Qccompare_Gt. rewrite this_Q2Qc. exact Hr. }
  unfold div at 2. unfold quotient. rewrite Ep, Er. simpl dp0_ceil.
  unfold div, quotient. simpl. unfold ofZ, ofQ. f_equal.
Qed.

End BigNumberFacts.

(** More on [packetSizing] and on the new maximum of an F08. *)

Module SizingFacts.

Import BigNumber BigNumberFacts.

Lemma nonzero_positive (r : Qc) :
  isZero (Fin r) = false -> lte (Fin r) zero = false -> (0 < this r)%Q.
Proof.
  intros _ H. unfold lte, zero, ofZ, ofQ in H. simpl in H.
  destruct (Qccompare r (Q2Qc (inject_Z 0))) eqn:E; try discriminate.
  apply (proj1 (Qccompare_Gt _ _)) in E. rewrite this_Q2Qc in E. exact E.
Qed.

Lemma split_of_infinite (p : t) :
  dp0_ceil (div PInf (dp0_ceil (div PInf p))) = NaN.
Proof.
  destruct p as [q | | |]; unfold div, quotient; simpl; try reflexivity.
  destruct (Qccompare q (Q2Qc 0)); reflexivity.
Qed.

Lemma min_of_NaN (r : Qc) (M : t) : min NaN [Fin r; M] = NaN.
Proof. unfold min. simpl. destruct M; reflexivity. Qed.

Lemma lte_whole (M : t) : wholeOrUnlimited M -> lte M M = true.
Proof.
  intros [-> | (m & _ & ->)]; [reflexivity | apply lte_refl_ofZ].
Qed.

Lemma Fin_ofZ (r : Qc) (k : Z) : Fin r = ofZ k -> (this r == inject_Z k)%Q.
Proof.
  intros H.
  apply (f_equal (fun x => match x with Fin q => q | _ => Q2Qc 0 end)) in H.
  rewrite H. apply this_Q2Qc.
Qed.

(** The bound of the rounded split, on whole numbers. *)
Lemma split_bound_Z (c m : Z) :
  (inject_Z c < (inject_Z m + 1) * (1 + halfUlp))%Q ->
  2 * scale * c < (m + 1) * (2 * scale + 1).
Proof.
  intros H. rewrite Zlt_Qlt.
  rewrite !inject_Z_mult, !inject_Z_plus, !inject_Z_mult.
  change (inject_Z 1) with 1%Q. change (inject_Z 2) with 2%Q.
  pose proof halfUlp_scale as E. pose proof scale_pos as Hs.
  assert (H2 : (inject_Z c * (2 * inject_Z scale) <
                (inject_Z m + 1) * (1 + halfUlp) * (2 * inject_Z scale))%Q)
    by (apply Qmult_lt_compat_r; [lra | exact H]).
  assert (E2 : ((inject_Z m + 1) * (1 + halfUlp) * (2 * inject_Z scale) ==
                (inject_Z m + 1) * (2 * inject_Z scale + 2 * inject_Z scale * halfUlp))%Q)
    by ring.
  rewrite E2, E in H2. lra.
Qed.

(** The packet sized for a positive remaining amount and a debit
    capacity that is a number: a whole number that is not negative and
    less than one above the remaining amount; the rounding of the two
    quotients can take it above the maximum [m], by less than
    [(m + 1) / (2 * 10^20)]. *)
Lemma packetSizing_fin (D M : t) (r : Qc) :
  (0 < this r)%Q -> lte D zero = false -> D <> NaN -> wholeOrUnlimited M ->
  exists c : Z,
    packetSizing D (Fin r) M = ofZ c /\ 0 <= c /\
    (inject_Z c < this r + 1)%Q /\
    (forall m : Z, M = ofZ m -> 2 * scale * c < (m + 1) * (2 * scale + 1)) /\
    (M = ofZ 0 -> c = 0) /\
    (forall k : Z, Fin r = ofZ k -> c <= k).
Proof.
  intros Hr Hd Hn HM. unfold packetSizing.
  destruct (min_bounds D M r Hr Hd Hn HM) as (p & Hp & Hp0 & Hpr & Hpm & Hpz).
  rewrite Hp.
  destruct (Qccompare p (Q2Qc 0)) eqn:Ec.
  - apply (proj1 (Qccompare_Eq _ _)) in Ec. rewrite this_Q2Qc in Ec.
    exists 0. rewrite (sizing_zero r p Hr Ec).
    split; [reflexivity |]. split; [lia |].
    split; [change (inject_Z 0) with 0%Q; lra |].
    split.
    { intros m Hm. destruct HM as [-> | (m' & Hm' & HMm)]; [discriminate Hm |].
      rewrite HMm in Hm. apply ofZ_inj in Hm. subst m'. unfold scale. lia. }
    split; [intros _; reflexivity |].
    intros k Hk. apply Fin_ofZ in Hk. rewrite Hk in Hr.
    apply inject_Z_pos_ge1 in Hr. lia.
  - apply (proj1 (Qccompare_Lt _ _)) in Ec. rewrite this_Q2Qc in Ec. exfalso. lra.
  - apply (proj1 (Qccompare_Gt _ _)) in Ec. rewrite this_Q2Qc in Ec.
    destruct (sizing_positive r p Hr Ec Hpr) as (c & Hc & _ & Hc0 & Hlt & Hm & Hk & _).
    exists c. rewrite Hc.
    split; [reflexivity |]. split; [exact Hc0 |].
    split; [exact Hlt |].
    split; [intros m HMm; apply split_bound_Z; apply Hm; apply Hpm; exact HMm |].
    split.
    { intros HM0. pose proof (Hpm 0 HM0) as H. change (inject_Z 0) with 0%Q in H.
      exfalso. lra. }
    intros k Hk'. apply Hk. apply Fin_ofZ. exact Hk'.
Qed.

(** The packet of an iteration that passed the checks of lines 104, 110
    and 153: it is NaN, or a whole number that is not negative and less
    than one above the remaining amount. *)
Lemma packetSizing_guarded (D R M : t) :
  isZero R = false -> lte R zero = false -> lte D zero = false ->
  wholeOrUnlimited M ->
  packetSizing D R M = NaN \/
  exists (r : Qc) (c : Z),
    R = Fin r /\ (0 < this r)%Q /\ D <> NaN /\
    packetSizing D R M = ofZ c /\ 0 <= c /\
    (inject_Z c < this r + 1)%Q /\
    (forall m : Z, M = ofZ m -> 2 * scale * c < (m + 1) * (2 * scale + 1)) /\
    (M = ofZ 0 -> c = 0) /\
    (forall k : Z, R = ofZ k -> c <= k).
Proof.
  intros Hz Hl Hd HM.
  destruct R as [r | | |].
  - pose proof (nonzero_positive r Hz Hl) as Hr.
    destruct (isNaN D) eqn:ED.
    + left. destruct D; try discriminate ED.
      unfold packetSizing. rewrite min_of_NaN. reflexivity.
    + right. assert (Hn : D <> NaN) by (intros ->; discriminate ED).
      destruct (packetSizing_fin D M r Hr Hd Hn HM) as (c & H).
      exists r, c. split; [reflexivity |]. split; [exact Hr |].
      split; [exact Hn | exact H].
  - left. apply split_of_infinite.
  - discriminate Hl.
  - left. reflexivity.
Qed.

Lemma times_ofZ (a b : Z) : times (ofZ a) (ofZ b) = ofZ (a * b).
Proof.
  unfold ofZ, ofQ. simpl. f_equal. apply Qc_is_canon.
  rewrite this_Qcmult, !this_Q2Qc, inject_Z_mult. reflexivity.
Qed.

(** The cross-multiplication of lines 232-234 on whole numbers that are
    not negative. *)
Lemma newMax_whole (c : Z) (a b : N) :
  0 <= c ->
  (b = 0%N /\ c * Z.of_N a = 0 /\ newMaxPacketAmount (ofZ c) (ofN a) (ofN b) = NaN) \/
  (b = 0%N /\ 0 < c * Z.of_N a /\ newMaxPacketAmount (ofZ c) (ofN a) (ofN b) = PInf) \/
  (b <> 0%N /\
   newMaxPacketAmount (ofZ c) (ofN a) (ofN b) = ofZ (c * Z.of_N a / Z.of_N b)).
Proof.
  intros Hc. unfold newMaxPacketAmount, ofN. rewrite times_ofZ.
  set (x := c * Z.of_N a). assert (Hx : 0 <= x) by (unfold x; lia).
  unfold dividedToIntegerBy, quotient, ofZ, ofQ.
  change (Q2Qc 0) with (Q2Qc (inject_Z 0)). rewrite !compare_Z.
  destruct (Z.compare_spec (Z.of_N b) 0) as [Eb | Eb | Eb].
  - destruct (Z.compare_spec x 0) as [Ex | Ex | Ex].
    + left. repeat split; [lia | exact Ex].
    + lia.
    + right. left. repeat split; [lia | exact Ex].
  - lia.
  - right. right. split; [lia |]. f_equal. unfold truncQc.
    assert (Hq : (this (Q2Qc (inject_Z x) / Q2Qc (inject_Z (Z.of_N b)))%Qc
                  == inject_Z x / inject_Z (Z.of_N b))%Q).
    { rewrite this_Qcdiv, !this_Q2Qc. reflexivity. }
    assert (Hnn : (0 <= inject_Z x / inject_Z (Z.of_N b))%Q).
    { apply Qle_shift_div_l.
      - unfold Qlt. simpl. lia.
      - rewrite Qmult_0_l. apply inject_Z_nonneg. exact Hx. }
    destruct (Qccompare _ (Q2Qc 0)) eqn:E.
    2: { apply (proj1 (Qccompare_Lt _ _)) in E. rewrite Hq, this_Q2Qc in E. exfalso. lra. }
    all: apply Q2Qc_eq_iff; rewrite Hq, <- Zdiv_Qdiv; reflexivity.
Qed.

Lemma newMax_of_NaN (a b : t) : newMaxPacketAmount NaN a b = NaN.
Proof. reflexivity. Qed.

(** A new maximum below the packet is not above the old maximum [m],
    whatever the rounding added to the packet, when the amount received
    is at most [T]: [c * a / b < c] takes at least [c / b] off, which is
    more than [(m + 1) / T]. *)
Lemma newMax_within (T c m a b : Z) :
  0 <= c -> 0 <= m -> 0 <= a -> 0 < b <= T ->
  T * c < (m + 1) * (T + 1) ->
  c * a / b < c -> c * a / b <= m.
Proof.
  intros Hc Hm Ha Hb Hbound Hlt.
  assert (Hab : a <= b - 1).
  { destruct (Z_lt_le_dec a b) as [H | H]; [lia |]. exfalso.
    assert (H0 : c * b / b <= c * a / b) by (apply Z.div_le_mono; nia).
    rewrite Z.div_mul in H0 by lia. lia. }
  set (k := c * a / b) in *.
  assert (Hk : b * k <= c * a) by (apply Z.mul_div_le; lia).
  destruct (Z_le_gt_dec k m) as [H | H]; [exact H | exfalso].
  assert (H1 : (m + 1) * b <= c * (b - 1)) by nia.
  assert (H2 : T * c * (b - 1) <= (m + 1) * (T + 1) * (b - 1)) by nia.
  assert (H3 : (m + 1) * (T * b) <= (m + 1) * ((T + 1) * (b - 1))) by nia.
  apply Z.mul_le_mono_pos_l in H3; [| lia].
  lia.
Qed.

End SizingFacts.

(** ** The reader *)

Module ReaderFacts.

Import BigNumberFacts.

Lemma bigEndian_from (bs : list byte) (acc : N) :
  (fold_left (fun acc b => acc * 256 + Byte.to_N b) bs acc <
   (acc + 1) * 256 ^ N.of_nat (List.length bs))%N.
Proof.
  revert acc. induction bs as [| b bs IH]; intros acc.
  - simpl. lia.
  - cbn [fold_left List.length]. specialize (IH (acc * 256 + Byte.to_N b)%N).
    pose proof (Byte.to_N_bounded b) as Hb.
    rewrite Nat2N.inj_succ, N.pow_succ_r'.
    eapply N.lt_le_trans; [exact IH |].
    replace ((acc + 1) * (256 * 256 ^ N.of_nat (List.length bs)))%N
      with (((acc + 1) * 256) * 256 ^ N.of_nat (List.length bs))%N by lia.
    apply N.mul_le_mono_r. lia.
Qed.

(** What [readUInt64BigNum] reads is below [2^64]. *)
Lemma uint64_bound (bytes rest : list byte) (b : N) :
  Reader.readUInt64BigNum bytes = inr (BigNumber.ofN b, rest) ->
  (b < 2 ^ 64)%N.
Proof.
  unfold Reader.readUInt64BigNum.
  destruct (List.length bytes <? 8)%nat; [intros H; discriminate H |].
  intros H.
  assert (E : BigNumber.ofN (Reader.bigEndian (firstn 8 bytes)) = BigNumber.ofN b)
    by congruence.
  apply ofN_inj in E. subst b.
  unfold Reader.bigEndian.
  eapply N.lt_le_trans; [apply bigEndian_from |].
  change ((0 + 1) * 256 ^ N.of_nat (List.length (firstn 8 bytes)) <= 256 ^ 8)%N.
  rewrite N.mul_1_l. apply N.pow_le_mono_r; [lia |].
  pose proof (firstn_le_length 8 bytes). lia.
Qed.

End ReaderFacts.

(** ** The loop *)

Section SessionFacts.

Context `{C : Collaborators}.

Import BigNumberFacts SizingFacts ReaderFacts.

(** The packet line 208 gives to [sendPacket]. *)
Lemma outbox_prepare (sl : BigNumber) (e : Event) (p : BigNumber) (s : State) :
  outbox (prepare sl e p s) =
  {| destination := clientAddress;
     amount := p;
     executionCondition := sha256 (secret e);
     data := [];
     expiresAt := sentAt e + EXPIRATION_WINDOW |} :: outbox s.
Proof. reflexivity. Qed.

(** An iteration that passes the checks is the reaction to the answer
    of the packet it sized and sent. *)
Lemma iteration_sends (A sl : BigNumber) (e : Event) (s : State) :
  sends A e s = true ->
  iteration A sl e s =
  react e (S (prepareCount s))
    (packetSizing (debitOf e) (remainingOf A s) (maxPacketAmount s))
    (prepare sl e
       (packetSizing (debitOf e) (remainingOf A s) (maxPacketAmount s)) s).
Proof.
  unfold sends, iteration, remainingOf, debitOf. intros H.
  repeat (apply andb_prop in H; destruct H as [H ?]).
  repeat match goal with
         | H : negb _ = true |- _ => apply negb_true_iff in H; rewrite H
         end.
  reflexivity.
Qed.

(** An iteration that fails a check waits, or leaves the loop with a
    line of the log that tells how. *)
Lemma iteration_stays (A sl : BigNumber) (e : Event) (s : State) :
  sends A e s = false ->
  iteration A sl e s = Recurse s \/
  exists (x : Exit) (m : Message),
    iteration A sl e s = Return x (log m s) /\ announces m = Some x.
Proof.
  unfold sends, iteration, remainingOf, debitOf. intros H.
  destruct (now e >? timeout s).
  { right. exists TimedOut, StreamTimedOut. split; reflexivity. }
  destruct (BigNumber.isZero _).
  { right. eexists Succeeded, _. split; reflexivity. }
  destruct (BigNumber.lte (BigNumber.minus A (totalFulfilled s)) _).
  { right. eexists SentTooMuch, _. split; reflexivity. }
  destruct (BigNumber.gt (sourceBaseToExchange _) _).
  { right. eexists NoOutgoingCapacity, _. split; reflexivity. }
  destruct (BigNumber.gt (sourceBaseToDestExchange _ _) _).
  { right. eexists NoIncomingCapacity, _. split; reflexivity. }
  destruct (BigNumber.lte (sourceExchangeToBase _) _).
  { left. reflexivity. }
  discriminate H.
Qed.

(** The two reads of lines 224-225 succeed on sixteen bytes or more. *)
Lemma amountTooLarge_spec (p : BigNumber) (bytes : list byte) (s : State) :
  (exists err, amountTooLarge p bytes s = inl err /\ (List.length bytes < 16)%nat) \/
  (exists a b : N,
     (16 <= List.length bytes)%nat /\
     Reader.readUInt64BigNum bytes = inr (BigNumber.ofN b, skipn 8 bytes) /\
     Reader.readUInt64BigNum (skipn 8 bytes) =
       inr (BigNumber.ofN a, skipn 8 (skipn 8 bytes)) /\
     amountTooLarge p bytes s =
     inr (let newMax := newMaxPacketAmount p (BigNumber.ofN a) (BigNumber.ofN b) in
          if BigNumber.gte newMax p then log UnexpectedAmountTooLarge s
          else if BigNumber.lt newMax p then
            setMaxPacketAmount newMax
              (log (ReducingPacketAmount p (maxPacketAmount s)) s)
          else s)).
Proof.
  unfold amountTooLarge, Reader.readUInt64BigNum.
  destruct (List.length bytes <? 8)%nat eqn:E1.
  { left. exists Reader.UnderreadError. apply Nat.ltb_lt in E1. split; [reflexivity | lia]. }
  apply Nat.ltb_ge in E1.
  destruct (List.length (skipn 8 bytes) <? 8)%nat eqn:E2.
  { left. exists Reader.UnderreadError. apply Nat.ltb_lt in E2.
    rewrite length_skipn in E2. split; [reflexivity | lia]. }
  apply Nat.ltb_ge in E2. rewrite length_skipn in E2.
  right.
  exists (Reader.bigEndian (firstn 8 (skipn 8 bytes))), (Reader.bigEndian (firstn 8 bytes)).
  split; [lia |]. split; [reflexivity |]. split; [reflexivity |].
  cbv zeta. destruct (BigNumber.gte _ _); [reflexivity |].
  destruct (BigNumber.lt _ _); reflexivity.
Qed.

(** An F08 changes nothing but the maximum and the log. *)
Lemma amountTooLarge_frame (p : BigNumber) (bytes : list byte) (s s1 : State) :
  amountTooLarge p bytes s = inr s1 ->
  timeout s1 = timeout s /\ prepareCount s1 = prepareCount s /\
  fulfillCount s1 = fulfillCount s /\ totalFulfilled s1 = totalFulfilled s /\
  outbox s1 = outbox s.
Proof.
  destruct (amountTooLarge_spec p bytes s) as [(err & H & _) | (a & b & _ & _ & _ & H)];
    rewrite H; intros E; [discriminate E |].
  injection E as <-. cbv zeta.
  destruct (BigNumber.gte _ _); [repeat split |].
  destruct (BigNumber.lt _ _); repeat split.
Qed.

Lemma sends_true (A : BigNumber) (e : Event) (s : State) :
  sends A e s = true ->
  now e <= timeout s /\
  BigNumber.isZero (remainingOf A s) = false /\
  BigNumber.lte (remainingOf A s) BigNumber.zero = false /\
  BigNumber.gt (sourceBaseToExchange (remainingOf A s)) (availableToSend e) = false /\
  BigNumber.gt (sourceBaseToDestExchange (rates e) (remainingOf A s))
    (availableToReceive e) = false /\
  BigNumber.lte (debitOf e) BigNumber.zero = false.
Proof.
  unfold sends. intros H.
  repeat (apply andb_prop in H; destruct H as [H ?]).
  repeat match goal with
         | H : negb _ = true |- _ => apply negb_true_iff in H
         end.
  repeat split; try assumption.
  rewrite Z.gtb_ltb in H. apply Z.ltb_ge in H. exact H.
Qed.

(** The cases of one iteration: the checks fail (the loop waits or is
    left), or the packet is sent and the answer is a fulfill, a reject
    that is not an F08, or an F08 whose data can or cannot be read. *)
Ltac iteration_paths A sl e s :=
  let Hs := fresh "Hsends" in
  destruct (sends A e s) eqn:Hs;
  [ rewrite (iteration_sends A sl e s Hs); unfold react;
    let f := fresh "f" in
    let r := fresh "r" in
    let E := fresh "Ecode" in
    let s1 := fresh "s1" in
    let H1 := fresh "Hf08" in
    destruct (response e) as [f | r];
    [ | cbv zeta; destruct (String.eqb (code r) "F08") eqn:E;
        [ match goal with
          | |- context [amountTooLarge ?p ?b ?s0] =>
              destruct (amountTooLarge p b s0) as [? | s1] eqn:H1
          end | ] ]
  | let m := fresh "m" in
    let x := fresh "x" in
    let Hm := fresh "Hm" in
    destruct (iteration_stays A sl e s Hs) as [-> | (x & m & -> & Hm)] ].

(** What one iteration does to the packets sent, to the counts, to the
    idle deadline and to the total. *)
Lemma iteration_summary (A sl : BigNumber) (e : Event) (s : State) :
  let s' := stateOf (iteration A sl e s) in
  let p := packetSizing (debitOf e) (remainingOf A s) (maxPacketAmount s) in
  outbox s' =
    (if sends A e s then
       {| destination := clientAddress;
          amount := p;
          executionCondition := sha256 (secret e);
          data := [];
          expiresAt := sentAt e + EXPIRATION_WINDOW |} :: outbox s
     else outbox s) /\
  prepareCount s' =
    (if sends A e s then S (prepareCount s) else prepareCount s) /\
  timeout s' =
    (if sends A e s && isFulfill (response e)
     then fulfilledAt e + IDLE_TIMEOUT else timeout s) /\
  fulfillCount s' =
    (if sends A e s && isFulfill (response e)
     then S (fulfillCount s) else fulfillCount s) /\
  totalFulfilled s' =
    (if sends A e s && isFulfill (response e)
     then BigNumber.plus (totalFulfilled s) p else totalFulfilled s).
Proof.
  cbv zeta. iteration_paths A sl e s; simpl; try (repeat split; reflexivity).
  apply amountTooLarge_frame in Hf08. simpl in Hf08.
  destruct Hf08 as (Ht & Hp & Hf & Htot & Ho).
  repeat split; assumption.
Qed.

Lemma whole_nonneg_div (c : Z) (a b : N) :
  0 <= c -> b <> 0%N -> 0 <= c * Z.of_N a / Z.of_N b.
Proof.
  intros Hc Hb. apply Z.div_pos; [apply Z.mul_nonneg_nonneg | ]; lia.
Qed.

(** Lines 237-246 never raise the maximum of a session whose maximum is
    unlimited or a whole number: the amount received of an F08 is read
    as a UInt64, and a new maximum below the packet is then not above
    the old one, by [newMax_within]. *)
Lemma iteration_max (A sl : BigNumber) (e : Event) (s : State) :
  wholeOrUnlimited (maxPacketAmount s) ->
  wholeOrUnlimited (maxPacketAmount (stateOf (iteration A sl e s))) /\
  BigNumber.lte (maxPacketAmount (stateOf (iteration A sl e s)))
    (maxPacketAmount s) = true.
Proof.
  intros HM. pose proof (lte_whole _ HM) as Hrefl.
  iteration_paths A sl e s; simpl; try (split; assumption).
  destruct (amountTooLarge_spec
              (packetSizing (debitOf e) (remainingOf A s) (maxPacketAmount s))
              (rejectData r)
              (log (PacketRejected (S (prepareCount s)) (code r))
                 (prepare sl e
                    (packetSizing (debitOf e) (remainingOf A s) (maxPacketAmount s)) s)))
    as [(err & H & _) | (a & b & _ & Hread & _ & H)];
    rewrite H in Hf08; [discriminate Hf08 |].
  apply uint64_bound in Hread.
  injection Hf08 as <-. cbv zeta.
  destruct (BigNumber.gte _ _); [simpl; split; assumption |].
  destruct (BigNumber.lt _ _) eqn:Elt; [| simpl; split; assumption].
  simpl.
  destruct (sends_true A e s Hsends) as (_ & Hz & Hl & _ & _ & Hd).
  destruct (packetSizing_guarded _ _ _ Hz Hl Hd HM)
    as [Hp | (q & c & _ & _ & _ & Hp & Hc & _ & Hle & _)];
    rewrite Hp in Elt |- *.
  { rewrite newMax_of_NaN in Elt. discriminate Elt. }
  destruct (newMax_whole c a b Hc) as [(_ & _ & Hn) | [(_ & _ & Hn) | (Hb & Hn)]];
    rewrite Hn in Elt |- *; try discriminate Elt.
  rewrite lt_ofZ in Elt. apply Z.ltb_lt in Elt.
  pose proof (whole_nonneg_div c a b Hc Hb) as Hk.
  split.
  - right. eexists. split; [exact Hk | reflexivity].
  - destruct HM as [-> | (m & Hm & HMm)]; [reflexivity |].
    rewrite HMm. rewrite lte_ofZ. apply Z.leb_le.
    apply (newMax_within (2 * BigNumber.scale) c m (Z.of_N a) (Z.of_N b));
      try lia.
    + unfold BigNumber.scale. change (2 ^ 64)%N with 18446744073709551616%N in Hread. lia.
    + apply Hle. exact HMm.
Qed.

Lemma lte_trans_whole (a b c : BigNumber) :
  wholeOrUnlimited a -> wholeOrUnlimited b -> wholeOrUnlimited c ->
  BigNumber.lte a b = true -> BigNumber.lte b c = true -> BigNumber.lte a c = true.
Proof.
  intros [-> | (x & _ & ->)] [-> | (y & _ & ->)] [-> | (z & _ & ->)];
    rewrite ?lte_ofZ; try reflexivity; try discriminate; intros H1 H2.
  apply Z.leb_le in H1. apply Z.leb_le in H2. apply Z.leb_le. lia.
Qed.

(** ** Runs of the loop *)

Lemma trySendPacket_app (A sl : BigNumber) (pre post : list Event) (s : State) :
  trySendPacket A sl (pre ++ post) s =
  match trySendPacket A sl pre s with
  | (Some x, s') => (Some x, s')
  | (None, s') => trySendPacket A sl post s'
  end.
Proof.
  revert s. induction pre as [| e pre IH]; intros s; simpl.
  - reflexivity.
  - destruct (iteration A sl e s); [reflexivity | apply IH].
Qed.

(** A run that is still going after [pre] goes on with the next event. *)
Lemma trySendPacket_next (A sl : BigNumber) (pre : list Event) (e : Event)
    (rest : list Event) (s : State) :
  fst (trySendPacket A sl pre s) = None ->
  trySendPacket A sl (pre ++ e :: rest) s =
  match iteration A sl e (snd (trySendPacket A sl pre s)) with
  | Return x s' => (Some x, s')
  | Recurse s' => trySendPacket A sl rest s'
  end.
Proof.
  intros H. rewrite trySendPacket_app.
  destruct (trySendPacket A sl pre s) as [[x |] s']; [discriminate H | reflexivity].
Qed.

(** What every iteration keeps, every run keeps. *)
Lemma trySendPacket_invariant (P : State -> Prop) (Q : Event -> Prop)
    (A sl : BigNumber) :
  (forall e s, Q e -> P s -> P (stateOf (iteration A sl e s))) ->
  forall (events : list Event) (s : State),
    Forall Q events -> P s -> P (snd (trySendPacket A sl events s)).
Proof.
  intros Hstep events. induction events as [| e events IH]; intros s HQ HP; simpl.
  - exact HP.
  - inversion HQ as [| ? ? He Hes]; subst.
    pose proof (Hstep e s He HP) as H.
    destruct (iteration A sl e s) as [x s' | s']; simpl in H |- *.
    + exact H.
    + apply IH; assumption.
Qed.

Lemma Forall_True (events : list Event) : Forall (fun _ => True) events.
Proof. induction events; constructor; trivial. Qed.

Lemma whole_initial (startedAt : Z) (registered : option PacketHandler) :
  wholeOrUnlimited (maxPacketAmount (initialState startedAt registered)).
Proof. left. reflexivity. Qed.

(** The maximum of a session is unlimited or a whole number. *)
Lemma session_whole (A sl : BigNumber) (events : list Event) (s : State) :
  wholeOrUnlimited (maxPacketAmount s) ->
  wholeOrUnlimited (maxPacketAmount (snd (trySendPacket A sl events s))).
Proof.
  intros H.
  apply (trySendPacket_invariant
           (fun s => wholeOrUnlimited (maxPacketAmount s)) (fun _ => True)).
  - intros e s0 _ H0. apply iteration_max. exact H0.
  - apply Forall_True.
  - exact H.
Qed.

(** The maximum after a run is not above the maximum before it. *)
Lemma run_max (A sl : BigNumber) (events : list Event) (s : State) :
  wholeOrUnlimited (maxPacketAmount s) ->
  BigNumber.lte (maxPacketAmount (snd (trySendPacket A sl events s)))
    (maxPacketAmount s) = true.
Proof.
  intros H.
  apply (trySendPacket_invariant
           (fun s' => wholeOrUnlimited (maxPacketAmount s') /\
                      BigNumber.lte (maxPacketAmount s') (maxPacketAmount s) = true)
           (fun _ => True)).
  - intros e s0 _ [H0 H1].
    destruct (iteration_max A sl e s0 H0) as [H2 H3].
    split; [exact H2 |].
    exact (lte_trans_whole _ (maxPacketAmount s0) _ H2 H0 H H3 H1).
  - apply Forall_True.
  - split; [exact H | apply lte_whole; exact H].
Qed.

(** ** Packet sizing *)

Lemma lte_Fin_le (a b : Qc) : BigNumber.lte (BigNumber.Fin a) (BigNumber.Fin b) = true ->
  (this a <= this b)%Q.
Proof.
  unfold BigNumber.lte. simpl. intros H.
  destruct (Qccompare a b) eqn:E; try discriminate H.
  - apply (proj1 (Qccompare_Eq _ _)) in E. rewrite E. apply Qle_refl.
  - apply (proj1 (Qccompare_Lt _ _)) in E. apply Qlt_le_weak. exact E.
Qed.

(** C1, as the code has it.  In every iteration that sends a packet,
    with [r] the remaining amount and [b] the minimum of the debit
    capacity in base units, the remaining amount and the maximum packet
    amount, [b] positive: the number of packets is the quotient [r / b]
    rounded to twenty decimal places and then up to a whole number, and
    the amount of the packet sent is the quotient of [r] by that number
    of packets, rounded in the same two steps.  The rounding to twenty
    places takes a quotient that is not negative to the multiple of
    [10^-20] nearest to it, the upper one when two are as near.  When [r]
    and [b] are whole numbers and [r] is at most [2 * 10^20], that
    rounding changes nothing: the number of packets is the ceiling of
    [r / b] and the packet amount the ceiling of [r] over it. *)
Theorem packet_amount_is_rounded_equal_split :
  forall (amountToSend slippage : BigNumber) (e : Event) (s : State) (r b : Qc),
    sends amountToSend e s = true ->
    remainingOf amountToSend s = BigNumber.Fin r ->
    leastBound b (debitOf e) r (maxPacketAmount s) ->
    (0 < this b)%Q ->
    let rounded := BigNumber.roundHalfUp in
    let numPackets := Qceiling (rounded (this r / this b)%Q) in
    let packetAmount := Qceiling (rounded (this r / inject_Z numPackets)%Q) in
    (exists p : IlpPrepare,
        outbox (stateOf (iteration amountToSend slippage e s)) = p :: outbox s /\
        amount p = BigNumber.ofZ packetAmount) /\
    (forall x : Q,
        (0 <= x)%Q ->
        (exists z : Z, rounded x == inject_Z z / inject_Z (10 ^ 20))%Q /\
        (x - (1 # 2) / inject_Z (10 ^ 20) < rounded x)%Q /\
        (rounded x <= x + (1 # 2) / inject_Z (10 ^ 20))%Q) /\
    (forall k m : Z,
        (this r == inject_Z k)%Q -> (this b == inject_Z m)%Q ->
        k <= 2 * 10 ^ 20 ->
        numPackets = Qceiling (this r / this b) /\
        packetAmount =
          Qceiling (this r / inject_Z (Qceiling (this r / this b)))).
Proof.
  intros A sl e s r b Hs Hrem Hleast Hb. cbv zeta.
  destruct (sends_true A e s Hs) as (_ & Hz & Hl & _).
  rewrite Hrem in Hz, Hl. pose proof (nonzero_positive r Hz Hl) as Hr.
  assert (Hbr : (this b <= this r)%Q).
  { destruct Hleast as (_ & _ & H & _). apply lte_Fin_le. exact H. }
  split; [| split].
  - destruct (iteration_summary A sl e s) as (Hout & _). cbv zeta in Hout.
    rewrite Hs in Hout. eexists. split; [exact Hout |]. cbn [amount].
    unfold packetSizing. rewrite Hrem, (min_least _ _ _ _ Hleast).
    destruct (sizing_positive r b Hr Hb Hbr) as (c & Hc & Hceil & _).
    rewrite Hc, Hceil. reflexivity.
  - intros x Hx. change (10 ^ 20) with BigNumber.scale.
    assert (Eh : ((1 # 2) / inject_Z BigNumber.scale == BigNumber.halfUlp)%Q)
      by reflexivity.
    rewrite Eh. split; [| split].
    + rewrite (roundHalfUp_nonneg x Hx). eexists. reflexivity.
    + apply roundHalfUp_gt. exact Hx.
    + apply roundHalfUp_le. exact Hx.
  - intros k m Hk Hm Hk2. change (10 ^ 20) with BigNumber.scale in Hk2.
    assert (Hm0 : 0 < m).
    { rewrite Hm in Hb. apply inject_Z_pos_ge1 in Hb. lia. }
    assert (Hmk : m <= k).
    { rewrite Hk, Hm in Hbr. rewrite <- Zle_Qle in Hbr. exact Hbr. }
    destruct (Q_equal_split_exact k m (conj Hm0 Hmk) Hk2) as [H1 H2].
    cbv zeta in H1, H2.
    set (n := Qceiling (inject_Z k / inject_Z m)) in *.
    assert (En : Qceiling (BigNumber.roundHalfUp (this r / this b)) = n).
    { rewrite <- H1. apply Qceiling_comp, roundHalfUp_comp.
      rewrite Hk, Hm. reflexivity. }
    assert (En' : Qceiling (this r / this b) = n)
      by (apply Qceiling_comp; rewrite Hk, Hm; reflexivity).
    rewrite En, En'. split; [reflexivity |].
    transitivity (Qceiling (BigNumber.roundHalfUp (inject_Z k / inject_Z n))).
    + apply Qceiling_comp, roundHalfUp_comp. rewrite Hk. reflexivity.
    + rewrite H2. apply Qceiling_comp. rewrite Hk. reflexivity.
Qed.

(** ** Amount-too-large rejections *)

Lemma gte_false_lt (x y : BigNumber) :
  x <> BigNumber.NaN -> y <> BigNumber.NaN ->
  BigNumber.gte x y = false -> BigNumber.lt x y = true.
Proof.
  unfold BigNumber.gte, BigNumber.lt.
  destruct x as [a | | |], y as [b | | |]; simpl; intros Hx Hy H;
    try reflexivity; try discriminate H;
    try (contradiction Hx; reflexivity); try (contradiction Hy; reflexivity).
  destruct (Qccompare a b); try reflexivity; discriminate H.
Qed.

Lemma newMax_number (p a b : BigNumber) :
  newMaxPacketAmount p a b <> BigNumber.NaN -> p <> BigNumber.NaN.
Proof. intros H ->. apply H. reflexivity. Qed.

(** What an F08 with readable data does to the state of the loop. *)
Lemma iteration_f08 (A sl : BigNumber) (e : Event) (s : State) (r : IlpReject)
    (received foreignMax : BigNumber) (rest rest' : list byte) :
  sends A e s = true ->
  response e = Reject r ->
  code r = "F08"%string ->
  Reader.readUInt64BigNum (rejectData r) = inr (received, rest) ->
  Reader.readUInt64BigNum rest = inr (foreignMax, rest') ->
  let p := packetSizing (debitOf e) (remainingOf A s) (maxPacketAmount s) in
  let newMax := newMaxPacketAmount p foreignMax received in
  let s0 := log (PacketRejected (S (prepareCount s)) "F08") (prepare sl e p s) in
  iteration A sl e s =
  Recurse
    (deregisterPacketHandler
       (if BigNumber.gte newMax p then log UnexpectedAmountTooLarge s0
        else if BigNumber.lt newMax p then
          setMaxPacketAmount newMax
            (log (ReducingPacketAmount p (maxPacketAmount s)) s0)
        else s0)).
Proof.
  intros Hs Hr Hc H1 H2. cbv zeta.
  rewrite (iteration_sends A sl e s Hs). unfold react. rewrite Hr. cbv zeta.
  rewrite Hc. simpl String.eqb. cbv iota.
  unfold amountTooLarge. rewrite H1, H2. cbv zeta.
  destruct (BigNumber.gte _ _); [reflexivity |].
  destruct (BigNumber.lt _ _); reflexivity.
Qed.

(** C2.  Over any run of a session the maximum packet amount never goes
    up: after more events it is at most what it was before them.  On a
    rejection with code F08 whose data hold the received amount and the
    foreign maximum, the new maximum is the packet amount times the
    foreign maximum, divided by the received amount and rounded down
    (the quotient of the integer division, on whole numbers that are not
    negative); when that quotient is a number, the maximum is left as it
    is, with the anomaly logged, if the new maximum is at least the
    packet amount, and is set to the new maximum otherwise. *)
Theorem max_packet_amount_never_raised :
  forall (opts : StreamMoneyOpts) (startedAt : Z)
         (registered : option PacketHandler) (pre post : list Event),
    BigNumber.lte
      (maxPacketAmount (snd (session opts startedAt registered (pre ++ post))))
      (maxPacketAmount (snd (session opts startedAt registered pre))) = true /\
    (forall (amountToSend slippage : BigNumber) (e : Event) (s : State)
            (r : IlpReject) (received foreignMax : BigNumber)
            (rest rest' : list byte),
        sends amountToSend e s = true ->
        response e = Reject r ->
        code r = "F08"%string ->
        Reader.readUInt64BigNum (rejectData r) = inr (received, rest) ->
        Reader.readUInt64BigNum rest = inr (foreignMax, rest') ->
        let packetAmount :=
          packetSizing (debitOf e) (remainingOf amountToSend s) (maxPacketAmount s) in
        let newMax :=
          BigNumber.dividedToIntegerBy
            (BigNumber.times packetAmount foreignMax) received in
        let s' := stateOf (iteration amountToSend slippage e s) in
        newMax <> BigNumber.NaN ->
        maxPacketAmount s' =
          (if BigNumber.gte newMax packetAmount then maxPacketAmount s else newMax) /\
        (BigNumber.gte newMax packetAmount = true ->
         hd_error (journal s') = Some UnexpectedAmountTooLarge)) /\
    (forall (c : Z) (a b : N),
        0 <= c -> b <> 0%N ->
        BigNumber.dividedToIntegerBy
          (BigNumber.times (BigNumber.ofZ c) (BigNumber.ofN a)) (BigNumber.ofN b) =
        BigNumber.ofZ (c * Z.of_N a / Z.of_N b)).
Proof.
  intros opts startedAt registered pre post. split; [| split].
  3: { intros c a b Hc Hb.
       destruct (newMax_whole c a b Hc) as [(H & _) | [(H & _) | (_ & H)]];
         [contradiction Hb | contradiction Hb | exact H]. }
  - unfold session. rewrite trySendPacket_app.
    destruct (trySendPacket _ _ pre _) as [[x |] s1] eqn:E.
    + simpl. apply lte_whole.
      replace s1 with (snd (trySendPacket (amountToSendOf opts) (slippageOf opts) pre
                              (initialState startedAt registered)))
        by (rewrite E; reflexivity).
      apply session_whole, whole_initial.
    + simpl. apply run_max.
      replace s1 with (snd (trySendPacket (amountToSendOf opts) (slippageOf opts) pre
                              (initialState startedAt registered)))
        by (rewrite E; reflexivity).
      apply session_whole, whole_initial.
  - intros A sl e s r received foreignMax rest rest' Hs Hr Hc H1 H2.
    cbv zeta. intros Hn.
    rewrite (iteration_f08 A sl e s r received foreignMax rest rest' Hs Hr Hc H1 H2).
    cbv zeta. fold (newMaxPacketAmount
                      (packetSizing (debitOf e) (remainingOf A s) (maxPacketAmount s))
                      foreignMax received) in Hn |- *.
    destruct (BigNumber.gte _ _) eqn:Eg.
    + split; [reflexivity | intros _; reflexivity].
    + rewrite (gte_false_lt _ _ Hn (newMax_number _ _ _ Hn) Eg).
      split; [reflexivity | intros H; discriminate H].
Qed.

(** ** The accept predicate *)

(** C3.  The predicate an iteration registers on the destination uplink
    answers an incoming packet with the fulfill if and only if the
    condition of the packet is the hash committed for the packet sent
    and the amount it claims is at least the source packet amount taken
    through the price oracle into destination base units, times one
    minus the slippage, rounded up; any other packet, also one with the
    right condition and an amount below that threshold, is answered with
    the generic application error. *)
Theorem accept_predicate_enforces_slippage :
  forall (slippage : BigNumber) (e : Event) (packetAmount : BigNumber) (s : State),
  exists (h : PacketHandler) (sent : IlpPrepare),
    packetHandler (prepare slippage e packetAmount s) = Some h /\
    hd_error (outbox (prepare slippage e packetAmount s)) = Some sent /\
    amount sent = packetAmount /\
    executionCondition sent = sha256 (secret e) /\
    forall (r : RateBackend) (incoming : IlpPrepare),
      let fulfillPacket := {| fulfillment := secret e; fulfillData := [] |} in
      let threshold := designThreshold slippage r packetAmount in
      (h r incoming = Fulfill fulfillPacket <->
       executionCondition incoming = executionCondition sent /\
       BigNumber.gte (amount incoming) threshold = true) /\
      (h r incoming = Fulfill fulfillPacket \/
       h r incoming = Reject APPLICATION_ERROR) /\
      (BigNumber.gte (amount incoming) threshold = false ->
       h r incoming = Reject APPLICATION_ERROR).
Proof.
  intros sl e p s. eexists. eexists. split; [reflexivity |].
  split; [reflexivity |]. split; [reflexivity |]. split; [reflexivity |].
  intros r incoming. cbv zeta. cbn [executionCondition].
  unfold acceptPredicate, acceptExchangeRate, correctCondition, bufferEquals,
    designThreshold, ceiling.
  destruct (BigNumber.gte _ _) eqn:Eg; simpl;
    destruct (list_eq_dec Byte.byte_eq_dec (sha256 (secret e))
                (executionCondition incoming)) as [Heq | Hne].
  - split; [| split].
    + split; [intros _; split; [symmetry; exact Heq | reflexivity] | reflexivity].
    + left. reflexivity.
    + intros H. discriminate H.
  - split; [| split].
    + split; [intros H; discriminate H |].
      intros [H _]. contradiction Hne. symmetry. exact H.
    + right. reflexivity.
    + intros H. discriminate H.
  - split; [| split].
    + split; [intros H; discriminate H | intros [_ H]; discriminate H].
    + right. reflexivity.
    + reflexivity.
  - split; [| split].
    + split; [intros H; discriminate H | intros [_ H]; discriminate H].
    + right. reflexivity.
    + reflexivity.
Qed.

(** ** The total fulfilled *)

Lemma lte_Fin_intro (a b : Qc) :
  (this a <= this b)%Q -> BigNumber.lte (BigNumber.Fin a) (BigNumber.Fin b) = true.
Proof.
  intros H. unfold BigNumber.lte. simpl.
  destruct (Qccompare a b) eqn:E; try reflexivity.
  apply (proj1 (Qccompare_Gt _ _)) in E. exfalso. lra.
Qed.

Lemma lt_Fin_intro (a b : Qc) :
  (this a < this b)%Q -> BigNumber.lt (BigNumber.Fin a) (BigNumber.Fin b) = true.
Proof.
  intros H. unfold BigNumber.lt. simpl.
  apply (proj2 (Qccompare_Lt _ _)) in H. rewrite H. reflexivity.
Qed.

Lemma finite_not_negative (A : BigNumber) :
  BigNumber.isFinite A = true -> BigNumber.lt A BigNumber.zero = false ->
  exists a : Qc, A = BigNumber.Fin a /\ (0 <= this a)%Q.
Proof.
  destruct A as [a | | |]; try discriminate. intros _ H.
  exists a. split; [reflexivity |].
  unfold BigNumber.lt, BigNumber.zero, BigNumber.ofZ, BigNumber.ofQ in H.
  simpl in H. destruct (Qccompare a (Q2Qc (inject_Z 0))) eqn:E; try discriminate H.
  - apply (proj1 (Qccompare_Eq _ _)) in E. rewrite this_Q2Qc in E. rewrite E.
    apply Qle_refl.
  - apply (proj1 (Qccompare_Gt _ _)) in E. rewrite this_Q2Qc in E.
    apply Qlt_le_weak. exact E.
Qed.

(** A fulfilled packet takes the total at most to less than one base
    unit above the amount to send. *)
Lemma iteration_overshoot (a : Qc) (sl : BigNumber) (e : Event) (s : State) :
  debitOf e <> BigNumber.NaN ->
  wholeOrUnlimited (maxPacketAmount s) /\ boundedOvershoot a s ->
  wholeOrUnlimited (maxPacketAmount (stateOf (iteration (BigNumber.Fin a) sl e s))) /\
  boundedOvershoot a (stateOf (iteration (BigNumber.Fin a) sl e s)).
Proof.
  intros Hd [HM (t & Ht & Hb)].
  split; [apply iteration_max; exact HM |].
  destruct (iteration_summary (BigNumber.Fin a) sl e s) as (Hout & _ & _ & _ & Htot).
  cbv zeta in Hout, Htot. unfold boundedOvershoot.
  destruct (sends (BigNumber.Fin a) e s) eqn:Hs.
  2: { cbn [andb] in Htot. rewrite Htot, Hout. exists t. split; assumption. }
  destruct (isFulfill (response e)); cbn [andb] in Htot.
  2: { rewrite Htot, Hout. exists t. split; [exact Ht |].
       destruct Hb as [Hb | (Hb & p & c & Hin & Hp & Hc)]; [left; exact Hb |].
       right. split; [exact Hb |]. exists p, c. repeat split; try assumption.
       right. exact Hin. }
  destruct (sends_true _ e s Hs) as (_ & Hz & Hl & _ & _ & Hdz).
  assert (Hrem : remainingOf (BigNumber.Fin a) s = BigNumber.Fin (a + - t)%Qc)
    by (unfold remainingOf; rewrite Ht; reflexivity).
  rewrite Hrem in *.
  pose proof (nonzero_positive _ Hz Hl) as Hr.
  destruct (packetSizing_fin (debitOf e) (maxPacketAmount s) (a + - t)%Qc)
    as (c & Hp & Hc & Hlt & _); try assumption.
  rewrite this_Qcplus, this_Qcopp in Hr, Hlt.
  rewrite Htot, Hout, Hp, Ht.
  exists (t + Q2Qc (inject_Z c))%Qc. split; [reflexivity |].
  rewrite this_Qcplus, this_Q2Qc.
  destruct (Z.eq_dec c 0) as [-> | Hc0].
  - left. change (inject_Z 0) with 0%Q. lra.
  - right. split; [lra |].
    eexists _, c. split; [left; reflexivity |]. split; [reflexivity | lia].
Qed.

(** C5.  For an amount to send that is a number and not negative, and
    debit capacities that are numbers: at every point of a session the
    total fulfilled is at most the amount to send, or at most the amount
    to send plus the amount of one of the packets sent; and whenever the
    total is above the amount to send, as it may be at the end, the excess
    is strictly less than the amount of one of the packets sent, hence
    than the largest of them. *)
Theorem total_fulfilled_within_one_packet :
  forall (opts : StreamMoneyOpts) (startedAt : Z)
         (registered : option PacketHandler) (events : list Event),
    BigNumber.isFinite (amountToSendOf opts) = true ->
    BigNumber.lt (amountToSendOf opts) BigNumber.zero = false ->
    forallb (fun e => negb (BigNumber.isNaN (debitOf e))) events = true ->
    let s := snd (session opts startedAt registered events) in
    let overshoot := BigNumber.minus (totalFulfilled s) (amountToSendOf opts) in
    (BigNumber.lte (totalFulfilled s) (amountToSendOf opts) = true \/
     exists p : IlpPrepare,
       In p (outbox s) /\
       BigNumber.lte (totalFulfilled s)
         (BigNumber.plus (amountToSendOf opts) (amount p)) = true) /\
    (BigNumber.gt overshoot BigNumber.zero = true ->
     exists p : IlpPrepare,
       In p (outbox s) /\ BigNumber.lt overshoot (amount p) = true).
Proof.
  intros opts startedAt registered events Hfin Hneg Hev. cbv zeta.
  destruct (finite_not_negative _ Hfin Hneg) as (a & Ha & Ha0).
  assert (Hinv : wholeOrUnlimited
                   (maxPacketAmount (snd (session opts startedAt registered events))) /\
                 boundedOvershoot a (snd (session opts startedAt registered events))).
  { unfold session. rewrite Ha.
    apply (trySendPacket_invariant
             (fun s => wholeOrUnlimited (maxPacketAmount s) /\ boundedOvershoot a s)
             (fun e => debitOf e <> BigNumber.NaN)).
    - intros e s He Hs. apply iteration_overshoot; assumption.
    - apply Forall_forall. intros e He.
      rewrite forallb_forall in Hev. specialize (Hev e He).
      intros Hn. rewrite Hn in Hev. discriminate Hev.
    - split; [apply whole_initial |].
      exists (Q2Qc (inject_Z 0)). split; [reflexivity |].
      left. rewrite this_Q2Qc. exact Ha0. }
  destruct Hinv as [_ (t & Ht & Hb)]. rewrite Ht, Ha.
  destruct Hb as [Hb | (Hb & p & c & Hin & Hp & Hc)].
  - split; [left; apply lte_Fin_intro; exact Hb |].
    intros H. simpl in H. apply gt_Fin_true in H.
    rewrite this_Q2Qc, this_Qcplus, this_Qcopp in H.
    change (inject_Z 0) with 0%Q in H. exfalso. lra.
  - pose proof (inject_Z_ge1 c Hc) as Hc'.
    split.
    + right. exists p. split; [exact Hin |]. rewrite Hp.
      unfold BigNumber.ofZ, BigNumber.ofQ. simpl BigNumber.plus.
      apply lte_Fin_intro. rewrite this_Qcplus, this_Q2Qc. lra.
    + intros _. exists p. split; [exact Hin |]. rewrite Hp.
      unfold BigNumber.ofZ, BigNumber.ofQ. simpl BigNumber.minus.
      apply lt_Fin_intro. rewrite this_Qcplus, this_Qcopp, this_Q2Qc. lra.
Qed.

(** ** Whole numbers in the loop *)

Lemma plus_ofZ (a b : Z) :
  BigNumber.plus (BigNumber.ofZ a) (BigNumber.ofZ b) = BigNumber.ofZ (a + b).
Proof.
  unfold BigNumber.ofZ, BigNumber.ofQ. simpl. f_equal. apply Qc_is_canon.
  rewrite this_Qcplus, !this_Q2Qc, inject_Z_plus. reflexivity.
Qed.

Lemma minus_ofZ (a b : Z) :
  BigNumber.minus (BigNumber.ofZ a) (BigNumber.ofZ b) = BigNumber.ofZ (a - b).
Proof.
  unfold BigNumber.minus, BigNumber.ofZ, BigNumber.ofQ. simpl. f_equal.
  apply Qc_is_canon.
  rewrite this_Qcplus, this_Qcopp, !this_Q2Qc.
  unfold Z.sub. rewrite inject_Z_plus, inject_Z_opp. reflexivity.
Qed.

Lemma isZero_ofZ (k : Z) : BigNumber.isZero (BigNumber.ofZ k) = (k =? 0).
Proof.
  unfold BigNumber.isZero, BigNumber.ofZ, BigNumber.ofQ.
  change (Q2Qc 0) with (Q2Qc (inject_Z 0)). rewrite compare_Z.
  unfold Z.eqb. destruct k; reflexivity.
Qed.

Lemma isInteger_whole (A : BigNumber) :
  BigNumber.isInteger A = true -> exists k : Z, A = BigNumber.ofZ k.
Proof.
  destruct A as [q | | |]; try discriminate. simpl. intros H.
  apply Qc_eq_bool_correct in H. exists (Qceiling q).
  rewrite <- H at 1. reflexivity.
Qed.

(** The step of a fulfilled packet, written out. *)
Lemma iteration_fulfill (A sl : BigNumber) (e : Event) (s : State) (f : IlpFulfill) :
  sends A e s = true ->
  response e = Fulfill f ->
  let p := packetSizing (debitOf e) (remainingOf A s) (maxPacketAmount s) in
  iteration A sl e s =
  Recurse
    (deregisterPacketHandler
       (countFulfill p
          (bumpIdle (fulfilledAt e)
             (log (PacketFulfilled (S (prepareCount s)) p) (prepare sl e p s))))).
Proof.
  intros Hs Hr. cbv zeta. rewrite (iteration_sends A sl e s Hs).
  unfold react. rewrite Hr. reflexivity.
Qed.

Lemma remaining_whole (a t : Z) (s : State) :
  totalFulfilled s = BigNumber.ofZ t ->
  remainingOf (BigNumber.ofZ a) s = BigNumber.ofZ (a - t).
Proof. intros H. unfold remainingOf. rewrite H. apply minus_ofZ. Qed.

(** ** Completion *)

Lemma positive_guards (a : Qc) :
  (0 < this a)%Q ->
  BigNumber.isZero (BigNumber.Fin a) = false /\
  BigNumber.lte (BigNumber.Fin a) BigNumber.zero = false.
Proof.
  intros Ha.
  assert (E : Qccompare a (Q2Qc 0) = Gt)
    by (apply Qccompare_Gt; rewrite this_Q2Qc; exact Ha).
  unfold BigNumber.isZero, BigNumber.lte, BigNumber.zero, BigNumber.ofZ, BigNumber.ofQ.
  simpl. change (Q2Qc (inject_Z 0)) with (Q2Qc 0). rewrite E. split; reflexivity.
Qed.

(** With nothing to bound it but a whole remaining amount, the packet is
    the remaining amount: the amount over itself is one packet, and the
    amount over one is a whole number, which the rounding to twenty
    places leaves as it is. *)
Lemma sizing_unlimited (a : Z) :
  0 < a ->
  packetSizing BigNumber.PInf (BigNumber.ofZ a) BigNumber.PInf = BigNumber.ofZ a.
Proof.
  intros Ha. unfold packetSizing, BigNumber.min, BigNumber.ofZ, BigNumber.ofQ.
  simpl BigNumber.minLoop.
  set (q := Q2Qc (inject_Z a)).
  assert (Hq : (this q == inject_Z a)%Q) by apply this_Q2Qc.
  assert (Ha' : (0 < inject_Z a)%Q) by (rewrite Zlt_Qlt in Ha; exact Ha).
  assert (Hq0 : (0 < this q)%Q) by (rewrite Hq; exact Ha').
  destruct (sizing_positive q q Hq0 Hq0 (Qle_refl _)) as (c & Hc & Hceil & _).
  assert (E1 : Qceiling (BigNumber.roundHalfUp (this q / this q)) = 1).
  { transitivity (Qceiling (BigNumber.roundHalfUp (inject_Z 1))).
    - apply Qceiling_comp, roundHalfUp_comp. change (inject_Z 1) with 1%Q. field. lra.
    - rewrite <- (Qceiling_Z 1) at 2. apply Qceiling_comp.
      apply roundHalfUp_whole. lia. }
  rewrite E1 in Hceil.
  assert (E2 : c = a).
  { rewrite Hceil.
    transitivity (Qceiling (BigNumber.roundHalfUp (inject_Z a))).
    - apply Qceiling_comp, roundHalfUp_comp. rewrite Hq.
      change (inject_Z 1) with 1%Q. field.
    - rewrite <- (Qceiling_Z a) at 2. apply Qceiling_comp.
      apply roundHalfUp_whole. lia. }
  rewrite Hc, E2. reflexivity.
Qed.

(** The first packet of a session for a whole amount with unlimited
    capacities, fulfilled. *)
Lemma first_packet_unlimited (a : Z) (sl : BigNumber) (e : Event) (s : State)
    (f : IlpFulfill) :
  0 < a ->
  totalFulfilled s = BigNumber.ofZ 0 ->
  maxPacketAmount s = BigNumber.PInf ->
  now e <= timeout s ->
  availableToSend e = BigNumber.PInf ->
  availableToReceive e = BigNumber.PInf ->
  debitOf e = BigNumber.PInf ->
  response e = Fulfill f ->
  iteration (BigNumber.ofZ a) sl e s =
  Recurse
    (deregisterPacketHandler
       (countFulfill (BigNumber.ofZ a)
          (bumpIdle (fulfilledAt e)
             (log (PacketFulfilled (S (prepareCount s)) (BigNumber.ofZ a))
                (prepare sl e (BigNumber.ofZ a) s))))).
Proof.
  intros Ha Htot Hmax Hnow Hsend Hrecv Hdebit Hful.
  pose proof (remaining_whole a 0 s Htot) as Hrem. rewrite Z.sub_0_r in Hrem.
  assert (Hs : sends (BigNumber.ofZ a) e s = true).
  { unfold sends. rewrite Hrem, isZero_ofZ, Hsend, Hrecv, Hdebit, !gt_PInf.
    change BigNumber.zero with (BigNumber.ofZ 0). rewrite lte_ofZ.
    rewrite Z.gtb_ltb.
    replace (timeout s <? now e) with false by (symmetry; apply Z.ltb_ge; exact Hnow).
    replace (a =? 0) with false by (symmetry; apply Z.eqb_neq; lia).
    replace (a <=? 0) with false by (symmetry; apply Z.leb_gt; lia).
    reflexivity. }
  rewrite (iteration_fulfill _ sl e s f Hs Hful). cbv zeta.
  rewrite Hrem, Hdebit, Hmax, (sizing_unlimited a Ha). reflexivity.
Qed.

(** The iteration that finds the whole amount fulfilled. *)
Lemma closing_iteration (a : Z) (sl : BigNumber) (e : Event) (s : State) :
  totalFulfilled s = BigNumber.ofZ a ->
  now e <= timeout s ->
  iteration (BigNumber.ofZ a) sl e s =
  Return Succeeded (log (StreamSucceeded (BigNumber.ofZ a)) s).
Proof.
  intros Htot Hnow. unfold iteration.
  rewrite Z.gtb_ltb. apply Z.ltb_ge in Hnow. rewrite Hnow. cbv zeta.
  pose proof (remaining_whole a a s Htot) as Hrem. unfold remainingOf in Hrem.
  rewrite Hrem, Z.sub_diag. reflexivity.
Qed.

(** C4.  The amount to send is the amount asked for converted into
    base units of the source, hence a whole number of base units that is
    not negative.  For such an amount, a first iteration with unlimited
    outgoing, incoming and debit capacity whose packet is fulfilled, and
    a clock that stays within the idle window, the session ends as
    succeeded: the total fulfilled is exactly the amount to send, as many
    packets were fulfilled as prepared (one, or none when there is
    nothing to send), and the promise resolves. *)
Theorem unlimited_capacity_completion :
  forall (opts : StreamMoneyOpts) (startedAt : Z)
         (registered : option PacketHandler) (e1 e2 : Event) (rest : list Event),
    BigNumber.isInteger (amountToSendOf opts) = true ->
    BigNumber.lt (amountToSendOf opts) BigNumber.zero = false ->
    availableToSend e1 = BigNumber.PInf ->
    availableToReceive e1 = BigNumber.PInf ->
    debitOf e1 = BigNumber.PInf ->
    isFulfill (response e1) = true ->
    now e1 <= startedAt + IDLE_TIMEOUT ->
    now e2 <= fulfilledAt e1 + IDLE_TIMEOUT ->
    let events := e1 :: e2 :: rest in
    let s := snd (session opts startedAt registered events) in
    fst (session opts startedAt registered events) = Some Succeeded /\
    totalFulfilled s = amountToSendOf opts /\
    fulfillCount s = prepareCount s /\
    (prepareCount s <= 1)%nat /\
    fst (streamMoney opts startedAt registered events) = Some Resolved.
Proof.
  intros opts startedAt registered e1 e2 rest Hint Hneg Hsend Hrecv Hdebit Hful
    Hnow1 Hnow2. cbv zeta.
  destruct (isInteger_whole _ Hint) as (a & Ha).
  rewrite Ha in Hneg. change BigNumber.zero with (BigNumber.ofZ 0) in Hneg.
  rewrite lt_ofZ in Hneg. apply Z.ltb_ge in Hneg.
  unfold streamMoney, session. rewrite Ha.
  destruct (Z.eq_dec a 0) as [-> | Hne].
  - simpl trySendPacket.
    rewrite (closing_iteration 0 (slippageOf opts) e1
               (initialState startedAt registered) eq_refl Hnow1).
    simpl. repeat split. lia.
  - destruct (response e1) as [f |] eqn:Hf; [| discriminate Hful].
    simpl trySendPacket.
    rewrite (first_packet_unlimited a (slippageOf opts) e1
               (initialState startedAt registered) f);
      try assumption; try reflexivity; try lia.
    rewrite closing_iteration.
    + cbn -[BigNumber.plus BigNumber.ofZ].
      split; [reflexivity |]. split; [apply (plus_ofZ 0 a) |].
      split; [reflexivity |]. split; [lia | reflexivity].
    + cbn -[BigNumber.plus BigNumber.ofZ]. apply (plus_ofZ 0 a).
    + simpl. exact Hnow2.
Qed.

(** ** The idle deadline *)

(** Events without a fulfill leave the deadline and the count of
    fulfills as they are. *)
Lemma run_without_fulfill (A sl : BigNumber) (events : list Event) (s : State) :
  forallb (fun e => negb (isFulfill (response e))) events = true ->
  timeout (snd (trySendPacket A sl events s)) = timeout s /\
  fulfillCount (snd (trySendPacket A sl events s)) = fulfillCount s.
Proof.
  intros H.
  apply (trySendPacket_invariant
           (fun s' => timeout s' = timeout s /\ fulfillCount s' = fulfillCount s)
           (fun e => isFulfill (response e) = false)).
  - intros e s0 He [Ht Hf].
    destruct (iteration_summary A sl e s0) as (_ & _ & Ht' & Hf' & _).
    rewrite He, andb_false_r in Ht', Hf'. rewrite Ht', Hf'. split; assumption.
  - apply Forall_forall. intros e He. rewrite forallb_forall in H.
    apply negb_true_iff. apply H. exact He.
  - split; reflexivity.
Qed.

(** The deadline of a run is the one it started with, or the one set at
    a fulfill of one of its events. *)
Lemma timeout_origin (A sl : BigNumber) (events : list Event) (s : State) :
  timeout (snd (trySendPacket A sl events s)) = timeout s \/
  exists e : Event,
    In e events /\ isFulfill (response e) = true /\
    timeout (snd (trySendPacket A sl events s)) = fulfilledAt e + IDLE_TIMEOUT.
Proof.
  revert s. induction events as [| e events IH]; intros s; simpl.
  - left. reflexivity.
  - destruct (iteration_summary A sl e s) as (_ & _ & Ht & _).
    assert (Hstep : timeout (stateOf (iteration A sl e s)) = timeout s \/
                    (isFulfill (response e) = true /\
                     timeout (stateOf (iteration A sl e s)) =
                     fulfilledAt e + IDLE_TIMEOUT)).
    { destruct (sends A e s); [| left; exact Ht].
      destruct (isFulfill (response e)); [right; split; [reflexivity | exact Ht] |].
      left. exact Ht. }
    clear Ht.
    destruct (iteration A sl e s) as [x s1 | s1]; simpl in Hstep |- *.
    + destruct Hstep as [H | [Hf H]]; [left; exact H |].
      right. exists e. split; [left; reflexivity | split; assumption].
    + destruct (IH s1) as [H | (e' & Hin & Hf & H)].
      * rewrite H. destruct Hstep as [H1 | [Hf H1]]; [left; exact H1 |].
        right. exists e. split; [left; reflexivity | split; assumption].
      * right. exists e'. split; [right; exact Hin | split; assumption].
Qed.

Lemma iteration_timed_out (A sl : BigNumber) (e : Event) (s : State) :
  timeout s < now e ->
  iteration A sl e s = Return TimedOut (log StreamTimedOut s).
Proof.
  intros H. unfold iteration. rewrite Z.gtb_ltb.
  apply Z.ltb_lt in H. rewrite H. reflexivity.
Qed.

Lemma otherReject_not_fulfill (events : list Event) :
  forallb (fun e => otherReject (response e)) events = true ->
  forallb (fun e => negb (isFulfill (response e))) events = true.
Proof.
  intros H. apply forallb_forall. intros e He.
  rewrite forallb_forall in H. specialize (H e He).
  destruct (response e); [discriminate H | reflexivity].
Qed.

(** C6.  While a session is running, its idle deadline is the one set
    at its start or the one set when one of its packets was fulfilled:
    an iteration moves it when its packet is fulfilled and leaves it alone
    otherwise.  An iteration that starts after the
    deadline ends the session as timed out, with a rejected promise: the
    session never goes on past it.  So when every packet so far was
    rejected with a code other than F08 and the next iteration starts
    more than the idle window after the start, the session fails as timed
    out with no packet fulfilled. *)
Theorem idle_deadline_refresh_and_failure :
  forall (opts : StreamMoneyOpts) (startedAt : Z)
         (registered : option PacketHandler) (pre : list Event) (e : Event)
         (rest : list Event),
    fst (session opts startedAt registered pre) = None ->
    let s := snd (session opts startedAt registered pre) in
    let outcome := session opts startedAt registered (pre ++ e :: rest) in
    (timeout s = startedAt + IDLE_TIMEOUT \/
     exists e' : Event,
       In e' pre /\ isFulfill (response e') = true /\
       timeout s = fulfilledAt e' + IDLE_TIMEOUT) /\
    timeout
      (stateOf (iteration (amountToSendOf opts) (slippageOf opts) e s)) =
      (if sends (amountToSendOf opts) e s && isFulfill (response e)
       then fulfilledAt e + IDLE_TIMEOUT else timeout s) /\
    (timeout s < now e ->
     fst outcome = Some TimedOut /\
     snd outcome = log StreamTimedOut s /\
     fst (streamMoney opts startedAt registered (pre ++ e :: rest)) =
       Some (Rejected None)) /\
    (forallb (fun e' => otherReject (response e')) pre = true ->
     startedAt + IDLE_TIMEOUT < now e ->
     fst outcome = Some TimedOut /\
     fulfillCount (snd outcome) = 0%nat /\
     hd_error (journal (snd outcome)) = Some StreamTimedOut).
Proof.
  intros opts startedAt registered pre e rest Hrun. cbv zeta.
  assert (Hout : timeout (snd (session opts startedAt registered pre)) < now e ->
                 session opts startedAt registered (pre ++ e :: rest) =
                 (Some TimedOut,
                  log StreamTimedOut (snd (session opts startedAt registered pre)))).
  { intros H. unfold session in *.
    rewrite (trySendPacket_next _ _ pre e rest _ Hrun).
    rewrite (iteration_timed_out _ _ e _ H). reflexivity. }
  split; [| split; [| split]].
  - unfold session. apply timeout_origin.
  - apply (iteration_summary (amountToSendOf opts) (slippageOf opts) e).
  - intros H. unfold streamMoney. rewrite (Hout H). repeat split.
  - intros Hrej Hlate.
    destruct (run_without_fulfill (amountToSendOf opts) (slippageOf opts) pre
                (initialState startedAt registered)
                (otherReject_not_fulfill pre Hrej)) as [Ht Hf].
    fold (session opts startedAt registered pre) in Ht, Hf.
    rewrite Hout by (rewrite Ht; exact Hlate).
    simpl. rewrite Hf. repeat split.
Qed.

(** ** Capacity *)

(** C7.  In an iteration that starts within the idle window with a
    positive amount remaining, if the remaining amount in exchange units
    of the source is above what the source uplink can send, the session
    ends in that iteration for want of outgoing capacity, with the
    promise rejected, and no packet is prepared or sent in it; when this
    happens in the first iteration no packet was ever prepared. *)
Theorem outgoing_capacity_refusal :
  forall (opts : StreamMoneyOpts) (startedAt : Z)
         (registered : option PacketHandler) (pre : list Event) (e : Event)
         (rest : list Event),
    fst (session opts startedAt registered pre) = None ->
    let s := snd (session opts startedAt registered pre) in
    let remaining := remainingOf (amountToSendOf opts) s in
    let outcome := session opts startedAt registered (pre ++ e :: rest) in
    now e <= timeout s ->
    BigNumber.isZero remaining = false ->
    BigNumber.lte remaining BigNumber.zero = false ->
    BigNumber.gt (sourceBaseToExchange remaining) (availableToSend e) = true ->
    fst outcome = Some NoOutgoingCapacity /\
    snd outcome = log (InsufficientOutgoing remaining) s /\
    outbox (snd outcome) = outbox s /\
    prepareCount (snd outcome) = prepareCount s /\
    fst (streamMoney opts startedAt registered (pre ++ e :: rest)) =
      Some (Rejected None) /\
    (pre = [] -> prepareCount (snd outcome) = 0%nat /\ outbox (snd outcome) = []).
Proof.
  intros opts startedAt registered pre e rest Hrun. cbv zeta.
  intros Hnow Hz Hl Hgt.
  assert (Hout : session opts startedAt registered (pre ++ e :: rest) =
                 (Some NoOutgoingCapacity,
                  log (InsufficientOutgoing
                         (remainingOf (amountToSendOf opts)
                            (snd (session opts startedAt registered pre))))
                    (snd (session opts startedAt registered pre)))).
  { unfold session in *.
    rewrite (trySendPacket_next _ _ pre e rest _ Hrun).
    unfold iteration. rewrite Z.gtb_ltb. apply Z.ltb_ge in Hnow. rewrite Hnow.
    cbv zeta. unfold remainingOf in Hz, Hl, Hgt. rewrite Hz, Hl, Hgt. reflexivity. }
  unfold streamMoney. rewrite Hout. simpl.
  repeat split; try reflexivity; subst pre; reflexivity.
Qed.

(** ** Cleanup *)

(** C8, as the code has it.  Once both settlers are found, whenever the
    promise of [streamMoney] is settled, resolved or rejected, by a return
    of the loop or by an exception thrown in it, no accept predicate is
    left registered on the destination uplink.  When the lookup of a
    settler fails, the promise is rejected before the loop and its
    cleanup exist, and the destination uplink keeps what was registered
    on it before the call. *)
Theorem handler_deregistered_once_settlers_are_found :
  forall (settlers : list string) (source dest : ReadyUplink)
         (opts : StreamMoneyOpts) (startedAt : Z)
         (registered : option PacketHandler) (events : list Event)
         (outcome : Outcome),
    fst (streamMoneyCall settlers source dest opts startedAt registered events) =
      Some outcome ->
    match outcome with
    | Settled how =>
        fst (streamMoney opts startedAt registered events) = Some how /\
        snd (streamMoneyCall settlers source dest opts startedAt registered events) =
          None
    | Failed err =>
        (getSettler settlers (settlerType source) = inl err \/
         getSettler settlers (settlerType dest) = inl err) /\
        snd (streamMoneyCall settlers source dest opts startedAt registered events) =
          registered
    end.
Proof.
  intros settlers source dest opts startedAt registered events outcome.
  unfold streamMoneyCall.
  destruct (getSettler settlers (settlerType source)) as [err1 | k1] eqn:E1.
  { simpl. intros H. injection H as <-. split; [left; reflexivity | reflexivity]. }
  destruct (getSettler settlers (settlerType dest)) as [err2 | k2] eqn:E2.
  { simpl. intros H. injection H as <-. split; [right; reflexivity | reflexivity]. }
  unfold streamMoney.
  destruct (session opts startedAt registered events) as [[x |] s]; simpl.
  - intros H. injection H as <-. split; reflexivity.
  - intros H. discriminate H.
Qed.

(** ** Failures and rejections *)

(** How an iteration leaves the loop: by an exception while the data of
    an F08 are read, or at one of the returns, which logs its line. *)
Lemma iteration_exit (A sl : BigNumber) (e : Event) (s : State) (x : Exit)
    (s' : State) :
  iteration A sl e s = Return x s' ->
  (exists err, x = Threw err /\ sends A e s = true) \/
  (exists m, s' = log m s /\ announces m = Some x).
Proof.
  iteration_paths A sl e s; intros H; try discriminate H.
  - left. injection H as <- <-. eexists. split; reflexivity.
  - right. injection H as <- <-. exists m. split; [reflexivity | exact Hm].
Qed.

Lemma run_exit (A sl : BigNumber) (events : list Event) (s : State) (x : Exit) :
  fst (trySendPacket A sl events s) = Some x ->
  (exists err, x = Threw err) \/
  (exists m, hd_error (journal (snd (trySendPacket A sl events s))) = Some m /\
             announces m = Some x).
Proof.
  revert s. induction events as [| e events IH]; intros s; simpl.
  - intros H. discriminate H.
  - destruct (iteration A sl e s) as [y s1 | s1] eqn:E; simpl.
    + intros H. injection H as ->.
      destruct (iteration_exit A sl e s x s1 E) as [(err & -> & _) | (m & -> & Hm)].
      * left. eexists. reflexivity.
      * right. exists m. split; [reflexivity | exact Hm].
    + apply IH.
Qed.

Lemma fatal_line (m : Message) (x : Exit) :
  announces m = Some x -> fatal x = true -> level m = LevelError.
Proof.
  destruct m; simpl; intros H; try discriminate H; injection H as <-;
    intros F; try discriminate F; reflexivity.
Qed.

(** A reject other than an F08, or an F08 with its sixteen bytes, keeps
    the loop going. *)
Lemma reject_absorbed (A sl : BigNumber) (e : Event) (s : State) (r : IlpReject) :
  sends A e s = true ->
  response e = Reject r ->
  String.eqb (code r) "F08" = false \/ (16 <= List.length (rejectData r))%nat ->
  exists s' : State, iteration A sl e s = Recurse s'.
Proof.
  intros Hs Hr Hok. rewrite (iteration_sends A sl e s Hs). unfold react.
  rewrite Hr. cbv zeta.
  destruct (String.eqb (code r) "F08") eqn:Ec; [| eexists; reflexivity].
  destruct Hok as [H | Hlen]; [discriminate H |].
  match goal with
  | |- context [amountTooLarge ?p ?b ?s0] =>
      destruct (amountTooLarge_spec p b s0) as [(err & _ & Hlt) | (a & b' & _ & _ & _ & H)]
  end.
  - exfalso. lia.
  - rewrite H. eexists. reflexivity.
Qed.

(** C9, as the code has it.  Each of the three fatal conditions (idle
    timeout, insufficient outgoing capacity, insufficient incoming
    capacity) ends the loop and rejects the promise of [streamMoney]; the
    rejection carries no value, and the condition is told only by the
    error line logged last in the loop.  A packet rejected with a code
    other than F08, or with F08 and at least sixteen bytes of data, never
    ends the loop: the iteration goes on to the next one. *)
Theorem fatal_conditions_reject_without_reason :
  (forall (opts : StreamMoneyOpts) (startedAt : Z)
          (registered : option PacketHandler) (events : list Event) (x : Exit),
      fst (session opts startedAt registered events) = Some x ->
      fatal x = true ->
      fst (streamMoney opts startedAt registered events) = Some (Rejected None) /\
      exists m : Message,
        hd_error (journal (snd (session opts startedAt registered events))) = Some m /\
        announces m = Some x /\ level m = LevelError) /\
  (forall (amountToSend slippage : BigNumber) (e : Event) (s : State)
          (r : IlpReject),
      sends amountToSend e s = true ->
      response e = Reject r ->
      String.eqb (code r) "F08" = false \/ (16 <= List.length (rejectData r))%nat ->
      exists s' : State, iteration amountToSend slippage e s = Recurse s').
Proof.
  split.
  - intros opts startedAt registered events x Hx Hfatal. split.
    + unfold streamMoney.
      destruct (session opts startedAt registered events) as [[y |] s]; simpl in Hx.
      * injection Hx as ->. destruct x; try discriminate Hfatal; reflexivity.
      * discriminate Hx.
    + unfold session in *.
      destruct (run_exit _ _ _ _ x Hx) as [(err & ->) | (m & Hm & Ha)].
      * discriminate Hfatal.
      * exists m. split; [exact Hm |]. split; [exact Ha |].
        apply (fatal_line m x Ha Hfatal).
  - apply reject_absorbed.
Qed.

(** ** A received amount of zero *)

Lemma gt_ofZ (a b : Z) : BigNumber.gt (BigNumber.ofZ a) (BigNumber.ofZ b) = (b <? a).
Proof.
  unfold BigNumber.gt, BigNumber.ofZ, BigNumber.ofQ. simpl. rewrite compare_Z.
  unfold Z.ltb. rewrite (Z.compare_antisym a b).
  destruct (a ?= b); reflexivity.
Qed.

(** C10, as the code has it.  When the data of an F08 report a received
    amount of zero, the division does not fault, the loop goes on and the
    maximum packet amount is left as it is.  The new maximum is infinite,
    and the anomaly is logged, when the packet amount times the foreign
    maximum is positive; when that product is zero or not a number the
    new maximum is NaN, neither comparison of lines 237 and 241 holds and
    nothing more is logged. *)
Theorem zero_received_amount_keeps_maximum :
  forall (opts : StreamMoneyOpts) (startedAt : Z)
         (registered : option PacketHandler) (pre : list Event) (e : Event)
         (r : IlpReject) (foreignMax : BigNumber) (rest rest' : list byte),
    let amountToSend := amountToSendOf opts in
    let s := snd (session opts startedAt registered pre) in
    sends amountToSend e s = true ->
    response e = Reject r ->
    code r = "F08"%string ->
    Reader.readUInt64BigNum (rejectData r) = inr (BigNumber.ofN 0, rest) ->
    Reader.readUInt64BigNum rest = inr (foreignMax, rest') ->
    let packetAmount :=
      packetSizing (debitOf e) (remainingOf amountToSend s) (maxPacketAmount s) in
    let newMax := newMaxPacketAmount packetAmount foreignMax (BigNumber.ofN 0) in
    let step := iteration amountToSend (slippageOf opts) e s in
    (exists s' : State, step = Recurse s') /\
    maxPacketAmount (stateOf step) = maxPacketAmount s /\
    ((BigNumber.gt (BigNumber.times packetAmount foreignMax) BigNumber.zero = true /\
      newMax = BigNumber.PInf /\
      hd_error (journal (stateOf step)) = Some UnexpectedAmountTooLarge) \/
     (BigNumber.gt (BigNumber.times packetAmount foreignMax) BigNumber.zero = false /\
      newMax = BigNumber.NaN /\
      hd_error (journal (stateOf step)) =
        Some (PacketRejected (S (prepareCount s)) "F08"))).
Proof.
  intros opts startedAt registered pre e r foreignMax rest rest'. cbv zeta.
  intros Hs Hr Hc H1 H2.
  set (A := amountToSendOf opts) in *.
  set (s := snd (session opts startedAt registered pre)) in *.
  assert (HM : wholeOrUnlimited (maxPacketAmount s))
    by (apply session_whole, whole_initial).
  rewrite (iteration_f08 A (slippageOf opts) e s r _ _ _ _ Hs Hr Hc H1 H2).
  cbv zeta. set (p := packetSizing (debitOf e) (remainingOf A s) (maxPacketAmount s)).
  assert (Hfm : exists a : N, foreignMax = BigNumber.ofN a).
  { unfold Reader.readUInt64BigNum in H2.
    destruct (List.length rest <? 8)%nat; [discriminate H2 |].
    injection H2 as <- _. eexists. reflexivity. }
  destruct Hfm as (a & ->).
  destruct (sends_true A e s Hs) as (_ & Hz & Hl & _ & _ & Hd).
  destruct (packetSizing_guarded _ _ _ Hz Hl Hd HM)
    as [Hp | (q & c & _ & _ & _ & Hp & Hc0 & _)]; fold p in Hp; rewrite Hp.
  - rewrite newMax_of_NaN. simpl.
    split; [eexists; reflexivity |]. split; [reflexivity |].
    right. repeat split.
  - assert (Ht : BigNumber.times (BigNumber.ofZ c) (BigNumber.ofN a) =
                 BigNumber.ofZ (c * Z.of_N a)) by apply times_ofZ.
    rewrite Ht. change BigNumber.zero with (BigNumber.ofZ 0). rewrite gt_ofZ.
    destruct (newMax_whole c a 0 Hc0) as [(_ & Hca & Hn) | [(_ & Hca & Hn) | (Hb & _)]].
    + rewrite Hn, Hca. simpl.
      split; [eexists; reflexivity |]. split; [reflexivity |].
      right. repeat split.
    + rewrite Hn. apply Z.ltb_lt in Hca. rewrite Hca. simpl.
      split; [eexists; reflexivity |]. split; [reflexivity |].
      left. repeat split.
    + contradiction Hb. reflexivity.
Qed.

(** ** More on the loop *)

(** The guard of each return of the loop. *)
Lemma iteration_return (A sl : BigNumber) (e : Event) (s : State) (x : Exit)
    (s' : State) :
  iteration A sl e s = Return x s' ->
  match x with
  | TimedOut => timeout s < now e /\ s' = log StreamTimedOut s
  | Succeeded =>
      BigNumber.isZero (remainingOf A s) = true /\
      s' = log (StreamSucceeded A) s
  | SentTooMuch =>
      BigNumber.isZero (remainingOf A s) = false /\
      BigNumber.lte (remainingOf A s) BigNumber.zero = true /\
      s' = log (StreamSentTooMuch (BigNumber.negated (remainingOf A s)) A) s
  | NoOutgoingCapacity =>
      BigNumber.gt (sourceBaseToExchange (remainingOf A s)) (availableToSend e) = true /\
      s' = log (InsufficientOutgoing (remainingOf A s)) s
  | NoIncomingCapacity =>
      BigNumber.gt (sourceBaseToExchange (remainingOf A s)) (availableToSend e) = false /\
      BigNumber.gt (sourceBaseToDestExchange (rates e) (remainingOf A s))
        (availableToReceive e) = true /\
      s' = log (InsufficientIncoming (remainingOf A s)) s
  | Threw _ =>
      sends A e s = true /\
      s' = log (PacketRejected (S (prepareCount s)) "F08")
             (prepare sl e
                (packetSizing (debitOf e) (remainingOf A s) (maxPacketAmount s)) s)
  end.
Proof.
  unfold iteration, remainingOf.
  destruct (now e >? timeout s) eqn:E0.
  { intros H. injection H as <- <-. split; [| reflexivity].
    rewrite Z.gtb_ltb in E0. apply Z.ltb_lt. exact E0. }
  cbv zeta. destruct (BigNumber.isZero _) eqn:E1.
  { intros H. injection H as <- <-. split; reflexivity. }
  destruct (BigNumber.lte (BigNumber.minus A (totalFulfilled s)) _) eqn:E2.
  { intros H. injection H as <- <-. repeat split. }
  destruct (BigNumber.gt (sourceBaseToExchange _) _) eqn:E3.
  { intros H. injection H as <- <-. split; reflexivity. }
  destruct (BigNumber.gt (sourceBaseToDestExchange _ _) _) eqn:E4.
  { intros H. injection H as <- <-. repeat split. }
  destruct (BigNumber.lte (sourceExchangeToBase _) _) eqn:E5.
  { intros H. discriminate H. }
  unfold react. destruct (response e) as [f | r]; [intros H; discriminate H |].
  cbv zeta. destruct (String.eqb (code r) "F08") eqn:Ec;
    [| intros H; discriminate H].
  apply String.eqb_eq in Ec. rewrite Ec.
  destruct (amountTooLarge _ _ _); intros H; [| discriminate H].
  injection H as <- <-. split; [| reflexivity].
  unfold sends, remainingOf, debitOf. rewrite E0, E1, E2, E3, E4, E5. reflexivity.
Qed.

(** A run that leaves the loop does so in one of its iterations, the
    run being still under way before it. *)
Lemma run_leaves (A sl : BigNumber) (events : list Event) (s : State) (x : Exit) :
  fst (trySendPacket A sl events s) = Some x ->
  exists (pre : list Event) (e : Event) (rest : list Event),
    events = pre ++ e :: rest /\
    fst (trySendPacket A sl pre s) = None /\
    iteration A sl e (snd (trySendPacket A sl pre s)) =
      Return x (snd (trySendPacket A sl events s)).
Proof.
  revert s. induction events as [| e events IH]; intros s; simpl.
  - intros H. discriminate H.
  - destruct (iteration A sl e s) as [y s1 | s1] eqn:E; simpl.
    + intros H. injection H as ->. exists [], e, events.
      split; [reflexivity |]. split; [reflexivity | exact E].
    + intros H. destruct (IH s1 H) as (pre & e' & rest & -> & Hpre & Hit).
      exists (e :: pre), e', rest. simpl. rewrite E.
      split; [reflexivity |]. split; assumption.
Qed.

(** ** Incoming capacity *)

(** X1.  In an iteration that starts within the idle window with a
    positive amount remaining and enough outgoing capacity, if the
    remaining amount taken through the oracle into exchange units of the
    destination is above what the destination uplink can receive, the
    session ends in that iteration for want of incoming capacity: the
    promise is rejected, and no packet is prepared or sent in it. *)
Theorem incoming_capacity_refusal :
  forall (opts : StreamMoneyOpts) (startedAt : Z)
         (registered : option PacketHandler) (pre : list Event) (e : Event)
         (rest : list Event),
    fst (session opts startedAt registered pre) = None ->
    let s := snd (session opts startedAt registered pre) in
    let remaining := remainingOf (amountToSendOf opts) s in
    let outcome := session opts startedAt registered (pre ++ e :: rest) in
    now e <= timeout s ->
    BigNumber.isZero remaining = false ->
    BigNumber.lte remaining BigNumber.zero = false ->
    BigNumber.gt (sourceBaseToExchange remaining) (availableToSend e) = false ->
    BigNumber.gt (sourceBaseToDestExchange (rates e) remaining)
      (availableToReceive e) = true ->
    fst outcome = Some NoIncomingCapacity /\
    snd outcome = log (InsufficientIncoming remaining) s /\
    outbox (snd outcome) = outbox s /\
    prepareCount (snd outcome) = prepareCount s /\
    fst (streamMoney opts startedAt registered (pre ++ e :: rest)) =
      Some (Rejected None).
Proof.
  intros opts startedAt registered pre e rest Hrun. cbv zeta.
  intros Hnow Hz Hl Hout Hin.
  assert (Hres : session opts startedAt registered (pre ++ e :: rest) =
                 (Some NoIncomingCapacity,
                  log (InsufficientIncoming
                         (remainingOf (amountToSendOf opts)
                            (snd (session opts startedAt registered pre))))
                    (snd (session opts startedAt registered pre)))).
  { unfold session in *.
    rewrite (trySendPacket_next _ _ pre e rest _ Hrun).
    unfold iteration. rewrite Z.gtb_ltb. apply Z.ltb_ge in Hnow. rewrite Hnow.
    cbv zeta. unfold remainingOf in Hz, Hl, Hout, Hin.
    rewrite Hz, Hl, Hout, Hin. reflexivity. }
  unfold streamMoney. rewrite Hres. simpl. repeat split.
Qed.

(** ** Debit that is not there *)

Lemma no_debit_stays (A : BigNumber) (e : Event) (s : State) :
  BigNumber.lte (debitOf e) BigNumber.zero = true -> sends A e s = false.
Proof.
  intros H. unfold sends. rewrite H. simpl. apply andb_false_r.
Qed.

Lemma run_without_debit (A sl : BigNumber) (events : list Event) (s : State) :
  forallb (fun e => BigNumber.lte (debitOf e) BigNumber.zero) events = true ->
  match trySendPacket A sl events s with
  | (None, s') => s' = s
  | (Some x, s') => exists m, s' = log m s /\ announces m = Some x
  end.
Proof.
  revert s. induction events as [| e events IH]; intros s H; simpl.
  - reflexivity.
  - simpl in H. apply andb_prop in H. destruct H as [He Hes].
    destruct (iteration_stays A sl e s (no_debit_stays A e s He))
      as [-> | (x & m & -> & Hm)].
    + apply IH. exact Hes.
    + exists m. split; [reflexivity | exact Hm].
Qed.

(** X2.  While the debit capacity of the source, in base units, is zero
    or less, the loop only waits: whatever the number of iterations, no
    packet is sent, no count moves, nothing is fulfilled and the idle
    deadline stays the one of the start; a session still under way is in
    the very state it started in, and one that ended did so at one of the
    returns of lines 100 to 146. *)
Theorem nothing_sent_without_debit :
  forall (opts : StreamMoneyOpts) (startedAt : Z)
         (registered : option PacketHandler) (events : list Event),
    forallb (fun e => BigNumber.lte (debitOf e) BigNumber.zero) events = true ->
    let s := snd (session opts startedAt registered events) in
    outbox s = [] /\ prepareCount s = 0%nat /\ fulfillCount s = 0%nat /\
    totalFulfilled s = BigNumber.ofZ 0 /\
    timeout s = startedAt + IDLE_TIMEOUT /\
    packetHandler s = registered /\
    match fst (session opts startedAt registered events) with
    | None => s = initialState startedAt registered
    | Some x => exists m : Message,
        hd_error (journal s) = Some m /\ announces m = Some x
    end.
Proof.
  intros opts startedAt registered events H. cbv zeta. unfold session.
  pose proof (run_without_debit (amountToSendOf opts) (slippageOf opts) events
                (initialState startedAt registered) H) as Hrun.
  destruct (trySendPacket _ _ events _) as [[x |] s']; simpl.
  - destruct Hrun as (m & -> & Hm). repeat split.
    exists m. split; [reflexivity | exact Hm].
  - subst s'. repeat split.
Qed.

(** ** Counts *)

Lemma iteration_counts (A sl : BigNumber) (e : Event) (s : State) :
  (fulfillCount s <= prepareCount s)%nat /\
  prepareCount s = List.length (outbox s) ->
  (fulfillCount (stateOf (iteration A sl e s)) <=
   prepareCount (stateOf (iteration A sl e s)))%nat /\
  prepareCount (stateOf (iteration A sl e s)) =
  List.length (outbox (stateOf (iteration A sl e s))).
Proof.
  intros [Hle Hlen].
  destruct (iteration_summary A sl e s) as (Ho & Hp & _ & Hf & _).
  cbv zeta in Ho. rewrite Ho, Hp, Hf.
  destruct (sends A e s); simpl.
  - destruct (isFulfill (response e)); split; simpl; lia.
  - split; assumption.
Qed.

Lemma run_prepares (A sl : BigNumber) (events : list Event) (s : State) :
  (prepareCount (snd (trySendPacket A sl events s)) <=
   prepareCount s + List.length events)%nat.
Proof.
  revert s. induction events as [| e events IH]; intros s; simpl.
  - lia.
  - destruct (iteration_summary A sl e s) as (_ & Hp & _).
    destruct (iteration A sl e s) as [x s1 | s1]; simpl in Hp |- *.
    + rewrite Hp. destruct (sends A e s); lia.
    + specialize (IH s1). rewrite Hp in IH. destruct (sends A e s); lia.
Qed.

(** X3.  At every point of a session the number of packets fulfilled
    is at most the number prepared, the number prepared is the number of
    packets handed to [sendPacket], and at most one packet is prepared in
    each iteration.  When the promise settles, the last line logged
    reports these two counts. *)
Theorem counts_of_a_session :
  forall (opts : StreamMoneyOpts) (startedAt : Z)
         (registered : option PacketHandler) (events : list Event),
    let s := snd (streamMoney opts startedAt registered events) in
    (fulfillCount s <= prepareCount s)%nat /\
    prepareCount s = List.length (outbox s) /\
    (prepareCount s <= List.length events)%nat /\
    match fst (streamMoney opts startedAt registered events) with
    | Some _ =>
        hd_error (journal s) = Some (StreamEnded (fulfillCount s) (prepareCount s))
    | None => True
    end.
Proof.
  intros opts startedAt registered events. cbv zeta.
  assert (H : (fulfillCount (snd (session opts startedAt registered events)) <=
               prepareCount (snd (session opts startedAt registered events)))%nat /\
              prepareCount (snd (session opts startedAt registered events)) =
              List.length (outbox (snd (session opts startedAt registered events)))).
  { unfold session.
    apply (trySendPacket_invariant
             (fun s => (fulfillCount s <= prepareCount s)%nat /\
                       prepareCount s = List.length (outbox s))
             (fun _ => True)).
    - intros e s _ Hs. apply iteration_counts. exact Hs.
    - apply Forall_True.
    - split; [apply Nat.le_refl | reflexivity]. }
  pose proof (run_prepares (amountToSendOf opts) (slippageOf opts) events
                (initialState startedAt registered)) as Hp.
  fold (session opts startedAt registered events) in Hp. simpl in Hp.
  unfold streamMoney.
  destruct (session opts startedAt registered events) as [[x |] s];
    simpl in H, Hp |- *; destruct H as [H1 H2]; repeat split; assumption.
Qed.

(** ** What a resolved promise tells *)

Lemma zero_difference (A T : BigNumber) :
  BigNumber.isZero (BigNumber.minus A T) = true -> T = A.
Proof.
  destruct A as [a | | |], T as [t | | |]; simpl; try discriminate.
  destruct (Qccompare (a + - t)%Qc (Q2Qc 0)) eqn:E; try discriminate. intros _.
  apply (proj1 (Qccompare_Eq _ _)) in E.
  rewrite this_Qcplus, this_Qcopp, this_Q2Qc in E.
  f_equal. apply Qc_is_canon. lra.
Qed.

Lemma nonpositive_difference (A T : BigNumber) :
  BigNumber.lte (BigNumber.minus A T) BigNumber.zero = true ->
  BigNumber.gte T A = true.
Proof.
  destruct A as [a | | |], T as [t | | |]; simpl; try discriminate;
    try reflexivity.
  unfold BigNumber.lte, BigNumber.gte, BigNumber.zero, BigNumber.ofZ, BigNumber.ofQ.
  simpl. intros H.
  assert (Hle : (this (a + - t)%Qc <= 0)%Q).
  { destruct (Qccompare (a + - t)%Qc (Q2Qc (inject_Z 0))) eqn:E; try discriminate H.
    - apply (proj1 (Qccompare_Eq _ _)) in E. rewrite this_Q2Qc in E. rewrite E.
      apply Qle_refl.
    - apply (proj1 (Qccompare_Lt _ _)) in E. rewrite this_Q2Qc in E.
      apply Qlt_le_weak. exact E. }
  rewrite this_Qcplus, this_Qcopp in Hle.
  destruct (Qccompare t a) eqn:E; try reflexivity.
  apply (proj1 (Qccompare_Lt _ _)) in E. exfalso. lra.
Qed.

(** X4.  When the promise of [streamMoney] resolves, the total
    fulfilled is at least the amount to send; it is exactly the amount to
    send when the loop was left as succeeded, and the journal then holds
    the line of success. *)
Theorem resolved_means_fulfilled :
  forall (opts : StreamMoneyOpts) (startedAt : Z)
         (registered : option PacketHandler) (events : list Event),
    fst (streamMoney opts startedAt registered events) = Some Resolved ->
    let s := snd (streamMoney opts startedAt registered events) in
    BigNumber.gte (totalFulfilled s) (amountToSendOf opts) = true /\
    (fst (session opts startedAt registered events) = Some Succeeded ->
     totalFulfilled s = amountToSendOf opts).
Proof.
  intros opts startedAt registered events. cbv zeta. unfold streamMoney.
  destruct (session opts startedAt registered events) as [[x |] s'] eqn:E;
    simpl; intros H; [| discriminate H].
  unfold session in E.
  assert (Hx : fst (trySendPacket (amountToSendOf opts) (slippageOf opts) events
                      (initialState startedAt registered)) = Some x)
    by (rewrite E; reflexivity).
  destruct (run_leaves _ _ _ _ x Hx) as (pre & e & rest & _ & _ & Hit).
  rewrite E in Hit. simpl in Hit.
  apply iteration_return in Hit.
  destruct x; simpl in H; try discriminate H.
  - destruct Hit as [Hz ->]. simpl. unfold remainingOf in Hz.
    pose proof (zero_difference _ _ Hz) as Heq. rewrite Heq in Hz |- *. split.
    + destruct (amountToSendOf opts) as [a | | |]; try discriminate Hz.
      unfold BigNumber.gte. simpl.
      assert (Ec : Qccompare a a = Eq) by (apply Qccompare_Eq; reflexivity).
      rewrite Ec. reflexivity.
    + intros _. reflexivity.
  - destruct Hit as (_ & Hl & ->). simpl. unfold remainingOf in Hl. split.
    + apply nonpositive_difference. exact Hl.
    + intros Hs. discriminate Hs.
Qed.

(** X5.  A request whose amount to send is zero or negative sends
    nothing: the first iteration, if it starts within the idle window,
    leaves the loop, as succeeded for zero and as having sent too much
    for a negative amount, and the promise resolves with no packet
    prepared. *)
Theorem nothing_to_send :
  forall (opts : StreamMoneyOpts) (startedAt : Z)
         (registered : option PacketHandler) (e : Event) (rest : list Event),
    now e <= startedAt + IDLE_TIMEOUT ->
    BigNumber.lte (amountToSendOf opts) BigNumber.zero = true ->
    let s := snd (session opts startedAt registered (e :: rest)) in
    fst (session opts startedAt registered (e :: rest)) =
      Some (if BigNumber.isZero (amountToSendOf opts)
            then Succeeded else SentTooMuch) /\
    fst (streamMoney opts startedAt registered (e :: rest)) = Some Resolved /\
    outbox s = [] /\ prepareCount s = 0%nat /\
    totalFulfilled s = BigNumber.ofZ 0.
Proof.
  intros opts startedAt registered e rest Hnow Hle. cbv zeta.
  unfold streamMoney, session. simpl trySendPacket. unfold iteration.
  simpl timeout. rewrite Z.gtb_ltb. apply Z.ltb_ge in Hnow. rewrite Hnow.
  cbv zeta. simpl totalFulfilled. rewrite minus_zero_r, Hle.
  destruct (BigNumber.isZero (amountToSendOf opts)); simpl; repeat split.
Qed.

(** ** Whole amounts *)

(** The packet sized for a whole remaining amount that is positive. *)
Lemma sized_for_whole (D M : BigNumber) (k : Z) :
  0 < k -> BigNumber.lte D BigNumber.zero = false -> D <> BigNumber.NaN ->
  wholeOrUnlimited M ->
  exists c : Z,
    packetSizing D (BigNumber.ofZ k) M = BigNumber.ofZ c /\ 0 <= c <= k.
Proof.
  intros Hk Hd Hn HM.
  assert (Hr : (0 < this (Q2Qc (inject_Z k)))%Q).
  { rewrite this_Q2Qc. unfold Qlt. simpl. lia. }
  destruct (packetSizing_fin D M (Q2Qc (inject_Z k)) Hr Hd Hn HM)
    as (c & Hp & Hc & _ & _ & _ & Hle).
  exists c. split; [exact Hp |].
  split; [exact Hc | apply Hle; reflexivity].
Qed.

Lemma whole_step (a : Z) (sl : BigNumber) (e : Event) (s : State) :
  debitOf e <> BigNumber.NaN ->
  wholeOrUnlimited (maxPacketAmount s) /\
  (exists t : Z, totalFulfilled s = BigNumber.ofZ t /\ 0 <= t <= a) ->
  wholeOrUnlimited
    (maxPacketAmount (stateOf (iteration (BigNumber.ofZ a) sl e s))) /\
  (exists t : Z,
     totalFulfilled (stateOf (iteration (BigNumber.ofZ a) sl e s)) =
       BigNumber.ofZ t /\ 0 <= t <= a).
Proof.
  intros Hd [HM (t & Ht & Hta)].
  split; [apply iteration_max; exact HM |].
  destruct (iteration_summary (BigNumber.ofZ a) sl e s) as (_ & _ & _ & _ & Htot).
  cbv zeta in Htot.
  destruct (sends (BigNumber.ofZ a) e s) eqn:Hs.
  2: { cbn [andb] in Htot. rewrite Htot. exists t. split; assumption. }
  destruct (isFulfill (response e)); cbn [andb] in Htot.
  2: { rewrite Htot. exists t. split; assumption. }
  destruct (sends_true _ e s Hs) as (_ & Hz & Hl & _ & _ & Hdz).
  rewrite (remaining_whole a t s Ht) in Hz, Hl, Htot.
  rewrite isZero_ofZ in Hz. change BigNumber.zero with (BigNumber.ofZ 0) in Hl.
  rewrite lte_ofZ in Hl. apply Z.eqb_neq in Hz. apply Z.leb_gt in Hl.
  destruct (sized_for_whole (debitOf e) (maxPacketAmount s) (a - t))
    as (c & Hp & Hc); try assumption.
  rewrite Htot, Hp, Ht, plus_ofZ. exists (t + c). split; [reflexivity | lia].
Qed.

Lemma forallb_numbers (events : list Event) :
  forallb (fun e => negb (BigNumber.isNaN (debitOf e))) events = true ->
  Forall (fun e => debitOf e <> BigNumber.NaN) events.
Proof.
  intros H. apply Forall_forall. intros e He.
  rewrite forallb_forall in H. specialize (H e He).
  intros Hn. rewrite Hn in H. discriminate H.
Qed.

Lemma forallb_app_l (f : Event -> bool) (pre post : list Event) :
  forallb f (pre ++ post) = true -> forallb f pre = true.
Proof. rewrite forallb_app. intros H. apply andb_prop in H. apply H. Qed.

(** X6.  When the amount to send is a whole number of base units that
    is not negative, and the debit capacities are numbers, the total
    fulfilled is a whole number that never passes the amount to send, and
    the loop is never left as having sent too much. *)
Theorem whole_amount_never_overshoots :
  forall (opts : StreamMoneyOpts) (startedAt : Z)
         (registered : option PacketHandler) (events : list Event),
    BigNumber.isInteger (amountToSendOf opts) = true ->
    BigNumber.lt (amountToSendOf opts) BigNumber.zero = false ->
    forallb (fun e => negb (BigNumber.isNaN (debitOf e))) events = true ->
    let s := snd (session opts startedAt registered events) in
    BigNumber.lte (totalFulfilled s) (amountToSendOf opts) = true /\
    BigNumber.isInteger (totalFulfilled s) = true /\
    fst (session opts startedAt registered events) <> Some SentTooMuch.
Proof.
  intros opts startedAt registered events Hint Hneg Hev. cbv zeta.
  destruct (isInteger_whole _ Hint) as (a & Ha).
  rewrite Ha in Hneg. change BigNumber.zero with (BigNumber.ofZ 0) in Hneg.
  rewrite lt_ofZ in Hneg. apply Z.ltb_ge in Hneg.
  assert (Hinv : forall evs,
             forallb (fun e => negb (BigNumber.isNaN (debitOf e))) evs = true ->
             wholeOrUnlimited
               (maxPacketAmount (snd (session opts startedAt registered evs))) /\
             exists t : Z,
               totalFulfilled (snd (session opts startedAt registered evs)) =
                 BigNumber.ofZ t /\ 0 <= t <= a).
  { intros evs Hevs. unfold session, amountToSendOf in *. rewrite Ha.
    apply (trySendPacket_invariant
             (fun s => wholeOrUnlimited (maxPacketAmount s) /\
                       exists t : Z, totalFulfilled s = BigNumber.ofZ t /\ 0 <= t <= a)
             (fun e => debitOf e <> BigNumber.NaN)).
    - intros e s He Hs. apply whole_step; assumption.
    - apply forallb_numbers. exact Hevs.
    - split; [apply whole_initial |]. exists 0. split; [reflexivity | lia]. }
  destruct (Hinv events Hev) as [_ (t & Ht & Hta)].
  rewrite Ht, Ha. split; [| split].
  - rewrite lte_ofZ. apply Z.leb_le. lia.
  - unfold BigNumber.ofZ, BigNumber.ofQ. simpl. rewrite ceilQc_Z.
    unfold Qc_eq_bool. destruct (Qc_eq_dec _ _) as [_ | Hne];
      [reflexivity | contradiction Hne; reflexivity].
  - intros Hx. unfold session in Hx.
    destruct (run_leaves _ _ _ _ _ Hx) as (pre & e & rest & Hsplit & _ & Hit).
    apply iteration_return in Hit. destruct Hit as (Hz & Hl & _).
    assert (Hpre : forallb (fun e => negb (BigNumber.isNaN (debitOf e))) pre = true).
    { rewrite Hsplit in Hev. apply (forallb_app_l _ _ _ Hev). }
    destruct (Hinv pre Hpre) as [_ (t' & Ht' & Hta')].
    unfold session in Ht'. unfold amountToSendOf in *. rewrite Ha in Hz, Hl, Ht'.
    rewrite (remaining_whole a t' _ Ht') in Hz, Hl.
    rewrite isZero_ofZ in Hz. change BigNumber.zero with (BigNumber.ofZ 0) in Hl.
    rewrite lte_ofZ in Hl. apply Z.eqb_neq in Hz. apply Z.leb_le in Hl. lia.
Qed.

(** ** Completion in several packets *)

Lemma isUnlimited_eq (x : BigNumber) : isUnlimited x = true -> x = BigNumber.PInf.
Proof. destruct x; try discriminate. reflexivity. Qed.

Lemma gte_one (D : BigNumber) :
  BigNumber.gte D BigNumber.one = true ->
  D = BigNumber.PInf \/ exists q : Qc, D = BigNumber.Fin q /\ (1 <= this q)%Q.
Proof.
  destruct D as [q | | |]; try discriminate; intros H.
  - right. exists q. split; [reflexivity |].
    unfold BigNumber.gte, BigNumber.one, BigNumber.ofZ, BigNumber.ofQ in H.
    simpl in H.
    destruct (Qccompare q (Q2Qc (inject_Z 1))) eqn:E; try discriminate H.
    + apply (proj1 (Qccompare_Eq _ _)) in E. rewrite this_Q2Qc in E. rewrite E.
      apply Qle_refl.
    + apply (proj1 (Qccompare_Gt _ _)) in E. rewrite this_Q2Qc in E.
      apply Qlt_le_weak. exact E.
  - left. reflexivity.
Qed.

Lemma permissive_true (e : Event) :
  permissive e = true ->
  availableToSend e = BigNumber.PInf /\ availableToReceive e = BigNumber.PInf /\
  BigNumber.gte (debitOf e) BigNumber.one = true /\
  BigNumber.lte (debitOf e) BigNumber.zero = false /\
  exists f, response e = Fulfill f.
Proof.
  unfold permissive. intros H.
  repeat (apply andb_prop in H; destruct H as [H ?]).
  split; [apply isUnlimited_eq; assumption |].
  split; [apply isUnlimited_eq; assumption |].
  split; [assumption |].
  split.
  { destruct (gte_one (debitOf e)) as [-> | (q & -> & Hq)];
      [assumption | reflexivity |].
    unfold BigNumber.lte, BigNumber.zero, BigNumber.ofZ, BigNumber.ofQ. simpl.
    destruct (Qccompare q (Q2Qc (inject_Z 0))) eqn:E; try reflexivity.
    - apply (proj1 (Qccompare_Eq _ _)) in E. rewrite this_Q2Qc in E.
      change (inject_Z 0) with 0%Q in E. exfalso. lra.
    - apply (proj1 (Qccompare_Lt _ _)) in E. rewrite this_Q2Qc in E.
      change (inject_Z 0) with 0%Q in E. exfalso. lra. }
  destruct (response e) as [f | r]; [exists f; reflexivity | discriminate].
Qed.

(** The packet sized for a whole remaining amount under a debit capacity
    of at least one base unit and no maximum: at least one base unit, at
    most the remaining amount. *)
Lemma sized_with_debit (D : BigNumber) (k : Z) :
  0 < k -> BigNumber.gte D BigNumber.one = true ->
  exists c : Z,
    packetSizing D (BigNumber.ofZ k) BigNumber.PInf = BigNumber.ofZ c /\
    1 <= c <= k.
Proof.
  intros Hk HD. unfold packetSizing, BigNumber.ofZ at 1 2 3, BigNumber.ofQ.
  set (r := Q2Qc (inject_Z k)).
  assert (Hrk : (this r == inject_Z k)%Q) by apply this_Q2Qc.
  assert (Hk1 : (1 <= inject_Z k)%Q) by (apply inject_Z_ge1; lia).
  assert (Hr : (0 < this r)%Q) by lra.
  assert (Hmin : exists p : Qc,
             BigNumber.min D [BigNumber.Fin r; BigNumber.PInf] = BigNumber.Fin p /\
             (1 <= this p)%Q /\ (this p <= this r)%Q).
  { destruct (gte_one D HD) as [-> | (q & -> & Hq)].
    - exists r. split; [reflexivity |]. split; [lra | apply Qle_refl].
    - destruct (min_lower (BigNumber.Fin q) (BigNumber.Fin r) BigNumber.PInf)
        as (Hw & _ & Hwr & _); try discriminate.
      destruct Hw as [Hw | [Hw | Hw]]; rewrite Hw in Hwr |- *.
      + exists q. split; [reflexivity |]. split; [exact Hq |].
        apply lte_Fin_le. exact Hwr.
      + exists r. split; [reflexivity |]. split; [lra | apply Qle_refl].
      + discriminate Hwr. }
  destruct Hmin as (p & -> & Hp1 & Hpr).
  assert (Hp0 : (0 < this p)%Q) by lra.
  destruct (sizing_positive r p Hr Hp0 Hpr) as (c & Hc & _ & _ & _ & _ & Hck & Hc1).
  exists c. split; [exact Hc |].
  split; [apply (Hc1 k Hrk Hp1) | apply (Hck k Hrk)].
Qed.

(** A run of fulfilled packets under no other bound than the amount. *)
Lemma completion_run (a : Z) (sl : BigNumber) (n : nat) :
  forall (events : list Event) (s : State) (t : Z),
    totalFulfilled s = BigNumber.ofZ t -> 0 <= t <= a ->
    (Z.to_nat (a - t) <= n)%nat -> (n < List.length events)%nat ->
    maxPacketAmount s = BigNumber.PInf ->
    fulfillCount s = prepareCount s ->
    forallb permissive events = true ->
    timely (timeout s) events = true ->
    fst (trySendPacket (BigNumber.ofZ a) sl events s) = Some Succeeded /\
    totalFulfilled (snd (trySendPacket (BigNumber.ofZ a) sl events s)) =
      BigNumber.ofZ a /\
    fulfillCount (snd (trySendPacket (BigNumber.ofZ a) sl events s)) =
    prepareCount (snd (trySendPacket (BigNumber.ofZ a) sl events s)).
Proof.
  induction n as [| n IH]; intros events s t Ht Hta Hn Hlen Hmax Hcount Hperm Htime;
    (destruct events as [| e rest]; [simpl in Hlen; lia |]);
    simpl in Hperm, Htime, Hlen;
    apply andb_prop in Hperm; destruct Hperm as [He Hrest];
    apply andb_prop in Htime; destruct Htime as [Hnow Htime];
    apply Z.leb_le in Hnow;
    pose proof (remaining_whole a t s Ht) as Hrem.
  - assert (t = a) by lia. subst t.
    simpl trySendPacket. rewrite (closing_iteration a sl e s Ht Hnow).
    simpl. repeat split; assumption.
  - destruct (Z.eq_dec t a) as [-> | Hne].
    { simpl trySendPacket. rewrite (closing_iteration a sl e s Ht Hnow).
      simpl. repeat split; assumption. }
    destruct (permissive_true e He) as (Hsend & Hrecv & Hone & Hdebit & f & Hf).
    assert (Hs : sends (BigNumber.ofZ a) e s = true).
    { unfold sends. rewrite Hrem, isZero_ofZ, Hsend, Hrecv, !gt_PInf, Hdebit.
      change BigNumber.zero with (BigNumber.ofZ 0). rewrite lte_ofZ.
      rewrite Z.gtb_ltb.
      replace (timeout s <? now e) with false by (symmetry; apply Z.ltb_ge; exact Hnow).
      replace (a - t =? 0) with false by (symmetry; apply Z.eqb_neq; lia).
      replace (a - t <=? 0) with false by (symmetry; apply Z.leb_gt; lia).
      reflexivity. }
    destruct (sized_with_debit (debitOf e) (a - t)) as (c & Hp & Hc);
      try assumption; try lia.
    simpl trySendPacket.
    rewrite (iteration_fulfill _ sl e s f Hs Hf). cbv zeta.
    rewrite Hrem, Hmax, Hp.
    apply (IH rest _ (t + c)).
    + simpl. rewrite Ht. apply plus_ofZ.
    + lia.
    + lia.
    + lia.
    + simpl. exact Hmax.
    + simpl. rewrite Hcount. reflexivity.
    + exact Hrest.
    + simpl. exact Htime.
Qed.

(** X7.  A whole amount [a] of base units that is not negative is
    streamed to the end, in however many packets the debit capacity asks
    for: when the source can send and the destination receive without
    limit, every iteration finds a debit capacity of at least one base
    unit and has its packet fulfilled, every iteration starts within the
    idle window and there are more than [a] iterations to run, the loop
    is left as succeeded with the total fulfilled equal to the amount to
    send and as many packets fulfilled as prepared, and the promise
    resolves. *)
Theorem whole_amount_completes :
  forall (opts : StreamMoneyOpts) (startedAt : Z)
         (registered : option PacketHandler) (events : list Event) (a : Z),
    amountToSendOf opts = BigNumber.ofZ a ->
    0 <= a ->
    (Z.to_nat a < List.length events)%nat ->
    forallb permissive events = true ->
    timely (startedAt + IDLE_TIMEOUT) events = true ->
    let s := snd (session opts startedAt registered events) in
    fst (session opts startedAt registered events) = Some Succeeded /\
    totalFulfilled s = amountToSendOf opts /\
    fulfillCount s = prepareCount s /\
    fst (streamMoney opts startedAt registered events) = Some Resolved.
Proof.
  intros opts startedAt registered events a Ha Ha0 Hlen Hperm Htime. cbv zeta.
  destruct (completion_run a (slippageOf opts) (Z.to_nat a) events
              (initialState startedAt registered) 0) as (H1 & H2 & H3);
    try assumption; try reflexivity; try lia.
  unfold streamMoney, session. rewrite Ha.
  destruct (trySendPacket _ _ events _) as [[x |] s']; simpl in *;
    [| discriminate H1].
  injection H1 as ->. repeat split; assumption.
Qed.

(** ** When an F08 lowers the maximum *)

Lemma gte_ofZ_alt (a b : Z) :
  BigNumber.gte (BigNumber.ofZ a) (BigNumber.ofZ b) = (b <=? a).
Proof.
  unfold BigNumber.gte, BigNumber.ofZ, BigNumber.ofQ. simpl. rewrite compare_Z.
  rewrite Z.leb_antisym. unfold Z.ltb. destruct (a ?= b); reflexivity.
Qed.

Lemma quotient_below (c a b : Z) :
  1 <= c -> 0 <= a -> 0 < b -> (c * a / b <? c) = (a <? b).
Proof.
  intros Hc Ha Hb. destruct (Z.ltb_spec a b) as [Hlt | Hge].
  - apply Z.ltb_lt. apply Z.div_lt_upper_bound; [exact Hb | nia].
  - apply Z.ltb_ge. apply Z.div_le_lower_bound; [exact Hb | nia].
Qed.

(** X8.  For a packet of a whole positive amount rejected with F08,
    whose data report a received amount that is not zero: the maximum
    packet amount is lowered exactly when the foreign maximum is below
    the received amount, and then to the packet amount times the foreign
    maximum over the received amount, rounded down, which is below the
    packet amount; otherwise the maximum stays and the anomaly is
    logged.  The loop goes on in both cases. *)
Theorem amount_too_large_lowers_iff_below :
  forall (amountToSend slippage : BigNumber) (e : Event) (s : State)
         (r : IlpReject) (c : Z) (received foreignMax : N)
         (rest rest' : list byte),
    sends amountToSend e s = true ->
    response e = Reject r ->
    code r = "F08"%string ->
    Reader.readUInt64BigNum (rejectData r) = inr (BigNumber.ofN received, rest) ->
    Reader.readUInt64BigNum rest = inr (BigNumber.ofN foreignMax, rest') ->
    packetSizing (debitOf e) (remainingOf amountToSend s) (maxPacketAmount s) =
      BigNumber.ofZ c ->
    1 <= c ->
    received <> 0%N ->
    let step := iteration amountToSend slippage e s in
    let lowered := c * Z.of_N foreignMax / Z.of_N received in
    (exists s' : State, step = Recurse s') /\
    maxPacketAmount (stateOf step) =
      (if (foreignMax <? received)%N then BigNumber.ofZ lowered
       else maxPacketAmount s) /\
    hd_error (journal (stateOf step)) =
      Some (if (foreignMax <? received)%N
            then ReducingPacketAmount (BigNumber.ofZ c) (maxPacketAmount s)
            else UnexpectedAmountTooLarge) /\
    ((foreignMax <? received)%N = true -> 0 <= lowered < c).
Proof.
  intros A sl e s r c b a rest rest' Hs Hr Hc H1 H2 Hp Hc1 Hb. cbv zeta.
  rewrite (iteration_f08 A sl e s r _ _ _ _ Hs Hr Hc H1 H2). cbv zeta.
  rewrite Hp.
  destruct (newMax_whole c a b) as [(H & _) | [(H & _) | (_ & Hn)]];
    [lia | contradiction Hb | contradiction Hb |].
  rewrite Hn, gte_ofZ_alt, lt_ofZ.
  assert (Hq : (c * Z.of_N a / Z.of_N b <? c) = (a <? b)%N).
  { rewrite quotient_below by lia.
    destruct (N.ltb_spec a b) as [Hlt | Hge];
      [apply Z.ltb_lt | apply Z.ltb_ge]; lia. }
  rewrite Hq.
  assert (Hg : (c <=? c * Z.of_N a / Z.of_N b) = negb (a <? b)%N).
  { rewrite <- Hq. rewrite Z.leb_antisym. reflexivity. }
  rewrite Hg.
  destruct (a <? b)%N eqn:E; simpl.
  - split; [eexists; reflexivity |]. split; [reflexivity |].
    split; [reflexivity |]. intros _.
    apply Z.ltb_lt in Hq. split; [| exact Hq].
    apply Z.div_pos; lia.
  - split; [eexists; reflexivity |]. split; [reflexivity |].
    split; [reflexivity |]. intros H. discriminate H.
Qed.

(** ** A maximum of zero *)

Lemma whole_at_most_zero (M : BigNumber) :
  wholeOrUnlimited M -> BigNumber.lte M (BigNumber.ofZ 0) = true ->
  M = BigNumber.ofZ 0.
Proof.
  intros [-> | (m & Hm & ->)] H; [discriminate H |].
  rewrite lte_ofZ in H. apply Z.leb_le in H. f_equal. lia.
Qed.

Lemma plus_zero_r (t : Qc) :
  BigNumber.plus (BigNumber.Fin t) (BigNumber.ofZ 0) = BigNumber.Fin t.
Proof.
  unfold BigNumber.ofZ, BigNumber.ofQ. simpl. f_equal. apply Qc_is_canon.
  rewrite this_Qcplus, this_Q2Qc. simpl. ring.
Qed.

Lemma finite_remaining (a t : Qc) (s : State) :
  totalFulfilled s = BigNumber.Fin t ->
  remainingOf (BigNumber.Fin a) s = BigNumber.Fin (a + - t)%Qc.
Proof. intros H. unfold remainingOf. rewrite H. reflexivity. Qed.

(** With a maximum of zero every packet is of nothing. *)
Lemma zero_max_step (a t : Qc) (sl : BigNumber) (e : Event) (s : State) :
  debitOf e <> BigNumber.NaN ->
  maxPacketAmount s = BigNumber.ofZ 0 ->
  totalFulfilled s = BigNumber.Fin t ->
  maxPacketAmount (stateOf (iteration (BigNumber.Fin a) sl e s)) = BigNumber.ofZ 0 /\
  totalFulfilled (stateOf (iteration (BigNumber.Fin a) sl e s)) = BigNumber.Fin t /\
  (outbox (stateOf (iteration (BigNumber.Fin a) sl e s)) = outbox s \/
   exists p : IlpPrepare,
     outbox (stateOf (iteration (BigNumber.Fin a) sl e s)) = p :: outbox s /\
     amount p = BigNumber.ofZ 0).
Proof.
  intros Hd Hmax Ht.
  assert (HM : wholeOrUnlimited (maxPacketAmount s))
    by (rewrite Hmax; right; exists 0; split; [lia | reflexivity]).
  destruct (iteration_max (BigNumber.Fin a) sl e s HM) as [HM' Hle].
  rewrite Hmax in Hle.
  split; [apply whole_at_most_zero; assumption |].
  destruct (iteration_summary (BigNumber.Fin a) sl e s) as (Hout & _ & _ & _ & Htot).
  cbv zeta in Hout, Htot.
  destruct (sends (BigNumber.Fin a) e s) eqn:Hs.
  2: { cbn [andb] in Htot. rewrite Htot, Hout. split; [exact Ht | left; reflexivity]. }
  destruct (sends_true _ e s Hs) as (_ & Hz & Hl & _ & _ & Hdz).
  rewrite (finite_remaining a t s Ht) in Hz, Hl, Hout, Htot.
  pose proof (nonzero_positive _ Hz Hl) as Hr.
  destruct (packetSizing_fin (debitOf e) (maxPacketAmount s) (a + - t)%Qc)
    as (c & Hp & Hc & _ & _ & Hzero & _); try assumption.
  assert (c = 0) by (apply Hzero; exact Hmax). subst c.
  rewrite Hp in Hout, Htot. rewrite Hout, Htot. split.
  - destruct (isFulfill (response e)); cbn [andb];
      [rewrite Ht; apply plus_zero_r | exact Ht].
  - right. eexists. split; reflexivity.
Qed.

Lemma zero_max_run (a t : Qc) (sl : BigNumber) (events : list Event) (s : State) :
  forallb (fun e => negb (BigNumber.isNaN (debitOf e))) events = true ->
  maxPacketAmount s = BigNumber.ofZ 0 ->
  totalFulfilled s = BigNumber.Fin t ->
  maxPacketAmount (snd (trySendPacket (BigNumber.Fin a) sl events s)) =
    BigNumber.ofZ 0 /\
  totalFulfilled (snd (trySendPacket (BigNumber.Fin a) sl events s)) =
    BigNumber.Fin t /\
  exists sent : list IlpPrepare,
    outbox (snd (trySendPacket (BigNumber.Fin a) sl events s)) = sent ++ outbox s /\
    Forall (fun p => amount p = BigNumber.ofZ 0) sent.
Proof.
  intros Hev Hmax Ht.
  apply (trySendPacket_invariant
           (fun s' => maxPacketAmount s' = BigNumber.ofZ 0 /\
                      totalFulfilled s' = BigNumber.Fin t /\
                      exists sent : list IlpPrepare,
                        outbox s' = sent ++ outbox s /\
                        Forall (fun p => amount p = BigNumber.ofZ 0) sent)
           (fun e => debitOf e <> BigNumber.NaN)).
  - intros e s0 He (Hm0 & Ht0 & sent & Hout & Hall).
    destruct (zero_max_step a t sl e s0 He Hm0 Ht0) as (H1 & H2 & H3).
    split; [exact H1 |]. split; [exact H2 |].
    destruct H3 as [H3 | (p & H3 & Hp)]; rewrite H3, Hout.
    + exists sent. split; [reflexivity | exact Hall].
    + exists (p :: sent). split; [reflexivity |]. constructor; assumption.
  - apply forallb_numbers. exact Hev.
  - split; [exact Hmax |]. split; [exact Ht |].
    exists []. split; [reflexivity | constructor].
Qed.

Lemma finite_is_Fin (x : BigNumber) :
  BigNumber.isFinite x = true -> exists q : Qc, x = BigNumber.Fin q.
Proof. destruct x as [q | | |]; try discriminate. exists q. reflexivity. Qed.

(** X9.  Once an F08 has lowered the maximum packet amount to zero,
    with an amount still to send, the stream can no longer complete:
    every packet sent afterwards has amount zero, the total fulfilled
    stays where it was, the maximum stays zero, and the promise never
    resolves, whatever number of packets the destination fulfills (amount
    to send and total finite, debit capacities numbers). *)
Theorem zero_maximum_stalls :
  forall (opts : StreamMoneyOpts) (startedAt : Z)
         (registered : option PacketHandler) (pre post : list Event),
    fst (session opts startedAt registered pre) = None ->
    let s := snd (session opts startedAt registered pre) in
    let s' := snd (session opts startedAt registered (pre ++ post)) in
    maxPacketAmount s = BigNumber.ofZ 0 ->
    BigNumber.isFinite (amountToSendOf opts) = true ->
    BigNumber.isFinite (totalFulfilled s) = true ->
    BigNumber.gt (remainingOf (amountToSendOf opts) s) BigNumber.zero = true ->
    forallb (fun e => negb (BigNumber.isNaN (debitOf e))) post = true ->
    maxPacketAmount s' = BigNumber.ofZ 0 /\
    totalFulfilled s' = totalFulfilled s /\
    (exists sent : list IlpPrepare,
       outbox s' = sent ++ outbox s /\
       Forall (fun p => amount p = BigNumber.ofZ 0) sent) /\
    fst (streamMoney opts startedAt registered (pre ++ post)) <> Some Resolved.
Proof.
  intros opts startedAt registered pre post Hrun. cbv zeta.
  intros Hmax HA Htot Hgt Hev.
  destruct (finite_is_Fin _ HA) as (a & Ha).
  destruct (finite_is_Fin _ Htot) as (t & Ht).
  assert (Happ : forall evs,
             session opts startedAt registered (pre ++ evs) =
             trySendPacket (BigNumber.Fin a) (slippageOf opts) evs
               (snd (session opts startedAt registered pre))).
  { intros evs. unfold session in *. rewrite trySendPacket_app, Ha.
    rewrite Ha in Hrun.
    destruct (trySendPacket (BigNumber.Fin a) (slippageOf opts) pre _) as [[x |] s0];
      [discriminate Hrun | reflexivity]. }
  rewrite Ha in Hgt.
  rewrite (finite_remaining a t _ Ht) in Hgt.
  apply gt_Fin_true in Hgt. rewrite this_Q2Qc in Hgt.
  change (inject_Z 0) with 0%Q in Hgt.
  destruct (zero_max_run a t (slippageOf opts) post _ Hev Hmax Ht) as (H1 & H2 & H3).
  rewrite (Happ post), Ht.
  split; [exact H1 |]. split; [exact H2 |]. split; [exact H3 |].
  unfold streamMoney. rewrite (Happ post).
  destruct (trySendPacket (BigNumber.Fin a) (slippageOf opts) post _)
    as [[x |] s1] eqn:E; simpl; [| discriminate].
  assert (Hx : fst (trySendPacket (BigNumber.Fin a) (slippageOf opts) post
                      (snd (session opts startedAt registered pre))) = Some x)
    by (rewrite E; reflexivity).
  destruct (run_leaves _ _ _ _ x Hx) as (p1 & e & p2 & Hsplit & _ & Hit).
  apply iteration_return in Hit.
  assert (Hp1 : forallb (fun e => negb (BigNumber.isNaN (debitOf e))) p1 = true).
  { rewrite Hsplit in Hev. apply (forallb_app_l _ _ _ Hev). }
  destruct (zero_max_run a t (slippageOf opts) p1 _ Hp1 Hmax Ht) as (_ & Ht1 & _).
  assert (Hpos : BigNumber.isZero
                   (remainingOf (BigNumber.Fin a)
                      (snd (trySendPacket (BigNumber.Fin a) (slippageOf opts) p1
                              (snd (session opts startedAt registered pre))))) = false /\
                 BigNumber.lte
                   (remainingOf (BigNumber.Fin a)
                      (snd (trySendPacket (BigNumber.Fin a) (slippageOf opts) p1
                              (snd (session opts startedAt registered pre)))))
                   BigNumber.zero = false).
  { rewrite (finite_remaining a t _ Ht1). apply positive_guards.
    rewrite this_Qcplus, this_Qcopp in *. exact Hgt. }
  destruct Hpos as [Hz Hl].
  destruct x; simpl; try discriminate.
  - destruct Hit as [Hit _]. rewrite Hit in Hz. discriminate Hz.
  - destruct Hit as (_ & Hit & _). rewrite Hit in Hl. discriminate Hl.
Qed.

(** ** More than enough is accepted *)

Lemma gte_trans (a b c : BigNumber) :
  BigNumber.gte a b = true -> BigNumber.gte b c = true -> BigNumber.gte a c = true.
Proof.
  unfold BigNumber.gte.
  destruct a as [x | | |], b as [y | | |], c as [z | | |]; simpl;
    try discriminate; try reflexivity.
  intros H1 H2.
  assert (Hyx : (this y <= this x)%Q).
  { destruct (Qccompare x y) eqn:E; try discriminate H1.
    - apply (proj1 (Qccompare_Eq _ _)) in E. rewrite E. apply Qle_refl.
    - apply (proj1 (Qccompare_Gt _ _)) in E. apply Qlt_le_weak. exact E. }
  assert (Hzy : (this z <= this y)%Q).
  { destruct (Qccompare y z) eqn:E; try discriminate H2.
    - apply (proj1 (Qccompare_Eq _ _)) in E. rewrite E. apply Qle_refl.
    - apply (proj1 (Qccompare_Gt _ _)) in E. apply Qlt_le_weak. exact E. }
  destruct (Qccompare x z) eqn:E; try reflexivity.
  apply (proj1 (Qccompare_Lt _ _)) in E. exfalso. lra.
Qed.

(** X10.  The accept predicate is monotone in the amount claimed: when
    it fulfills a packet, it fulfills every packet with the same
    condition that claims at least as much, under the same rates. *)
Theorem accept_predicate_monotone :
  forall (slippage packetAmount : BigNumber) (condition : list byte)
         (fulfillPacket : IlpFulfill) (r : RateBackend)
         (incoming better : IlpPrepare),
    acceptPredicate slippage packetAmount condition fulfillPacket r incoming =
      Fulfill fulfillPacket ->
    executionCondition better = executionCondition incoming ->
    BigNumber.gte (amount better) (amount incoming) = true ->
    acceptPredicate slippage packetAmount condition fulfillPacket r better =
      Fulfill fulfillPacket.
Proof.
  intros sl p cond fp r incoming better H Hc Hge.
  unfold acceptPredicate in *. rewrite Hc.
  destruct (acceptExchangeRate sl r p (amount incoming)) eqn:Ea;
    [| discriminate H].
  destruct (correctCondition cond (executionCondition incoming));
    [| discriminate H].
  unfold acceptExchangeRate in *. rewrite (gte_trans _ _ _ Hge Ea). reflexivity.
Qed.

(** ** The slot of the destination *)

Lemma announced_not_thrown (m : Message) (x : Exit) :
  announces m = Some x ->
  match x with Threw _ => False | _ => True end.
Proof. destruct m; simpl; intros H; try discriminate H; injection H as <-; exact I. Qed.

Lemma run_slot (registered : option PacketHandler) (A sl : BigNumber)
    (events : list Event) (s : State) :
  (prepareCount s = 0%nat /\ packetHandler s = registered) \/
  ((0 < prepareCount s)%nat /\ packetHandler s = None) ->
  match trySendPacket A sl events s with
  | (Some (Threw _), s') =>
      (0 < prepareCount s')%nat /\ exists h, packetHandler s' = Some h
  | (_, s') =>
      (prepareCount s' = 0%nat /\ packetHandler s' = registered) \/
      ((0 < prepareCount s')%nat /\ packetHandler s' = None)
  end.
Proof.
  revert s. induction events as [| e events IH]; intros s Hinv; simpl.
  - exact Hinv.
  - iteration_paths A sl e s.
    + apply IH. right. simpl. split; [lia | reflexivity].
    + simpl. split; [lia | eexists; reflexivity].
    + apply IH. right.
      apply amountTooLarge_frame in Hf08. destruct Hf08 as (_ & Hp & _).
      simpl in Hp |- *. rewrite Hp. split; [lia | reflexivity].
    + apply IH. right. simpl. split; [lia | reflexivity].
    + apply IH. exact Hinv.
    + pose proof (announced_not_thrown m x Hm) as Hx.
      destruct x; try contradiction; exact Hinv.
Qed.

(** X11.  The slot of the destination during a session: until the
    first packet is prepared it holds what was registered before the
    call; after the loop has prepared a packet it is empty whenever the
    loop waits, goes on or returns; and when the loop is left by the
    exception of the reader, the predicate of the packet in flight is
    still registered, so that only the callback of [finally] removes
    it. *)
Theorem slot_during_a_session :
  forall (opts : StreamMoneyOpts) (startedAt : Z)
         (registered : option PacketHandler) (events : list Event),
    let s := snd (session opts startedAt registered events) in
    match fst (session opts startedAt registered events) with
    | Some (Threw _) =>
        (0 < prepareCount s)%nat /\ (exists h, packetHandler s = Some h) /\
        packetHandler (snd (streamMoney opts startedAt registered events)) = None
    | _ =>
        (prepareCount s = 0%nat /\ packetHandler s = registered) \/
        ((0 < prepareCount s)%nat /\ packetHandler s = None)
    end.
Proof.
  intros opts startedAt registered events. cbv zeta.
  pose proof (run_slot registered (amountToSendOf opts) (slippageOf opts) events
                (initialState startedAt registered)) as H.
  unfold streamMoney, session.
  destruct (trySendPacket _ _ events _) as [[x |] s']; simpl.
  - destruct x; try (apply H; left; split; reflexivity).
    destruct H as [Hp Hh]; [left; split; reflexivity |].
    split; [exact Hp |]. split; [exact Hh | reflexivity].
  - apply H. left. split; reflexivity.
Qed.

(** ** What never goes down, and what is sent *)

Lemma numeric_step (a t0 : Qc) (sl : BigNumber) (e : Event) (s0 s : State) :
  debitOf e <> BigNumber.NaN ->
  wholeOrUnlimited (maxPacketAmount s) /\
  (exists t : Qc, totalFulfilled s = BigNumber.Fin t /\ (this t0 <= this t)%Q) /\
  (prepareCount s0 <= prepareCount s)%nat /\
  (fulfillCount s0 <= fulfillCount s)%nat /\
  (exists sent : list IlpPrepare,
     outbox s = sent ++ outbox s0 /\ Forall wellFormedPacket sent) ->
  let s' := stateOf (iteration (BigNumber.Fin a) sl e s) in
  wholeOrUnlimited (maxPacketAmount s') /\
  (exists t : Qc, totalFulfilled s' = BigNumber.Fin t /\ (this t0 <= this t)%Q) /\
  (prepareCount s0 <= prepareCount s')%nat /\
  (fulfillCount s0 <= fulfillCount s')%nat /\
  (exists sent : list IlpPrepare,
     outbox s' = sent ++ outbox s0 /\ Forall wellFormedPacket sent).
Proof.
  intros Hd (HM & (t & Ht & Ht0) & Hp & Hf & sent & Hout & Hall). cbv zeta.
  split; [apply iteration_max; exact HM |].
  destruct (iteration_summary (BigNumber.Fin a) sl e s) as (Ho & Hp' & _ & Hf' & Htot).
  cbv zeta in Ho, Htot. rewrite Ho, Hp', Hf', Htot.
  destruct (sends (BigNumber.Fin a) e s) eqn:Hs.
  2: { cbn [andb]. split; [exists t; split; assumption |].
       split; [exact Hp |]. split; [exact Hf |].
       exists sent. split; assumption. }
  destruct (sends_true _ e s Hs) as (_ & Hz & Hl & _ & _ & Hdz).
  rewrite (finite_remaining a t s Ht) in *.
  pose proof (nonzero_positive _ Hz Hl) as Hr.
  destruct (packetSizing_fin (debitOf e) (maxPacketAmount s) (a + - t)%Qc)
    as (c & Hc & Hc0 & _); try assumption.
  rewrite Hc. split; [| split; [lia | split]].
  - destruct (isFulfill (response e)); cbn [andb];
      [| exists t; split; assumption].
    rewrite Ht. eexists. split; [reflexivity |].
    rewrite this_Qcplus, this_Q2Qc.
    pose proof (inject_Z_nonneg c Hc0). lra.
  - destruct (isFulfill (response e)); cbn [andb]; lia.
  - eexists (_ :: sent). rewrite Hout. split; [reflexivity |].
    constructor; [| exact Hall].
    split; [reflexivity |]. split; [reflexivity |].
    exists c. split; [exact Hc0 | reflexivity].
Qed.

Lemma numeric_run (a t0 : Qc) (sl : BigNumber) (events : list Event) (s0 : State) :
  forallb (fun e => negb (BigNumber.isNaN (debitOf e))) events = true ->
  wholeOrUnlimited (maxPacketAmount s0) ->
  totalFulfilled s0 = BigNumber.Fin t0 ->
  let s' := snd (trySendPacket (BigNumber.Fin a) sl events s0) in
  wholeOrUnlimited (maxPacketAmount s') /\
  (exists t : Qc, totalFulfilled s' = BigNumber.Fin t /\ (this t0 <= this t)%Q) /\
  (prepareCount s0 <= prepareCount s')%nat /\
  (fulfillCount s0 <= fulfillCount s')%nat /\
  (exists sent : list IlpPrepare,
     outbox s' = sent ++ outbox s0 /\ Forall wellFormedPacket sent).
Proof.
  intros Hev HM Ht. cbv zeta.
  apply (trySendPacket_invariant
           (fun s =>
              wholeOrUnlimited (maxPacketAmount s) /\
              (exists t : Qc, totalFulfilled s = BigNumber.Fin t /\
                              (this t0 <= this t)%Q) /\
              (prepareCount s0 <= prepareCount s)%nat /\
              (fulfillCount s0 <= fulfillCount s)%nat /\
              (exists sent : list IlpPrepare,
                 outbox s = sent ++ outbox s0 /\ Forall wellFormedPacket sent))
           (fun e => debitOf e <> BigNumber.NaN)).
  - intros e s He Hs. apply (numeric_step a t0 sl e s0 s He Hs).
  - apply forallb_numbers. exact Hev.
  - split; [exact HM |]. split; [exists t0; split; [exact Ht | apply Qle_refl] |].
    split; [apply Nat.le_refl |]. split; [apply Nat.le_refl |].
    exists []. split; [reflexivity | constructor].
Qed.

(** X12.  Every packet a session hands to [sendPacket] is addressed to
    the client address of the destination, carries no data and has a
    whole amount that is not negative (amount to send finite, debit
    capacities numbers). *)
Theorem packets_sent_are_well_formed :
  forall (opts : StreamMoneyOpts) (startedAt : Z)
         (registered : option PacketHandler) (events : list Event),
    BigNumber.isFinite (amountToSendOf opts) = true ->
    forallb (fun e => negb (BigNumber.isNaN (debitOf e))) events = true ->
    Forall wellFormedPacket
      (outbox (snd (session opts startedAt registered events))).
Proof.
  intros opts startedAt registered events HA Hev.
  destruct (finite_is_Fin _ HA) as (a & Ha).
  unfold session. rewrite Ha.
  destruct (numeric_run a (Q2Qc (inject_Z 0)) (slippageOf opts) events
              (initialState startedAt registered) Hev
              (whole_initial startedAt registered) eq_refl)
    as (_ & _ & _ & _ & sent & Hout & Hall).
  rewrite Hout. simpl. rewrite app_nil_r. exact Hall.
Qed.

(** X13.  Over any run of a session the counts of packets prepared and
    fulfilled and the total fulfilled never go down, and the packets sent
    before are kept: after more events each is at least what it was
    (amount to send finite, debit capacities numbers). *)
Theorem progress_never_undone :
  forall (opts : StreamMoneyOpts) (startedAt : Z)
         (registered : option PacketHandler) (pre post : list Event),
    BigNumber.isFinite (amountToSendOf opts) = true ->
    forallb (fun e => negb (BigNumber.isNaN (debitOf e))) (pre ++ post) = true ->
    let s := snd (session opts startedAt registered pre) in
    let s' := snd (session opts startedAt registered (pre ++ post)) in
    (prepareCount s <= prepareCount s')%nat /\
    (fulfillCount s <= fulfillCount s')%nat /\
    BigNumber.lte (totalFulfilled s) (totalFulfilled s') = true /\
    exists sent : list IlpPrepare, outbox s' = sent ++ outbox s.
Proof.
  intros opts startedAt registered pre post HA Hev. cbv zeta.
  destruct (finite_is_Fin _ HA) as (a & Ha).
  rewrite forallb_app in Hev. apply andb_prop in Hev. destruct Hev as [Hpre Hpost].
  unfold session. rewrite Ha, trySendPacket_app.
  destruct (numeric_run a (Q2Qc (inject_Z 0)) (slippageOf opts) pre
              (initialState startedAt registered) Hpre
              (whole_initial startedAt registered) eq_refl)
    as (HM & (t & Ht & _) & _).
  destruct (trySendPacket (BigNumber.Fin a) (slippageOf opts) pre _)
    as [[x |] s] eqn:E; simpl in HM, Ht |- *.
  - split; [apply Nat.le_refl |]. split; [apply Nat.le_refl |].
    split; [rewrite Ht; apply lte_Fin_intro; apply Qle_refl |].
    exists []. reflexivity.
  - destruct (numeric_run a t (slippageOf opts) post s Hpost HM Ht)
      as (_ & (t' & Ht' & Hle) & Hp & Hf & sent & Hout & _).
    split; [exact Hp |]. split; [exact Hf |].
    split; [rewrite Ht, Ht'; apply lte_Fin_intro; exact Hle |].
    exists sent. exact Hout.
Qed.

(** X14.  Whatever the predicate of a packet discloses is valid for
    the packet it answers: when it fulfills an incoming packet, the
    fulfillment it gives is the secret of the iteration, whose hash is
    the condition of that incoming packet and of the packet sent, and it
    carries no data. *)
Theorem disclosed_fulfillment_matches_condition :
  forall (slippage : BigNumber) (e : Event) (packetAmount : BigNumber) (s : State),
  exists (h : PacketHandler) (sent : IlpPrepare),
    packetHandler (prepare slippage e packetAmount s) = Some h /\
    hd_error (outbox (prepare slippage e packetAmount s)) = Some sent /\
    forall (r : RateBackend) (incoming : IlpPrepare) (f : IlpFulfill),
      h r incoming = Fulfill f ->
      sha256 (fulfillment f) = executionCondition incoming /\
      executionCondition incoming = executionCondition sent /\
      fulfillData f = [].
Proof.
  intros sl e p s. eexists. eexists.
  split; [reflexivity |]. split; [reflexivity |].
  intros r incoming f. cbn [executionCondition].
  unfold acceptPredicate, correctCondition, bufferEquals.
  destruct (acceptExchangeRate sl r p (amount incoming)); simpl;
    [| intros H; discriminate H].
  destruct (list_eq_dec Byte.byte_eq_dec (sha256 (secret e))
              (executionCondition incoming)) as [Heq | Hne];
    intros H; [| discriminate H].
  injection H as <-. simpl. repeat split; try assumption. symmetry. exact Heq.
Qed.

(** ** Packets within their bounds *)

(** X15.  In an iteration that sends a packet, when the remaining amount
    is a whole number [k] of base units, at most [2 * 10^20], and the
    minimum [m] of the debit capacity, the remaining amount and the
    maximum packet amount is a whole positive number: the packet sent is
    of at least one base unit and of at most [m], so that it is above
    neither the debit capacity, nor the maximum packet amount, nor the
    remaining amount. *)
Theorem packet_within_bounds_for_whole_amounts :
  forall (amountToSend slippage : BigNumber) (e : Event) (s : State) (k m : Z),
    sends amountToSend e s = true ->
    remainingOf amountToSend s = BigNumber.ofZ k ->
    leastBound (Q2Qc (inject_Z m)) (debitOf e) (Q2Qc (inject_Z k))
      (maxPacketAmount s) ->
    0 < m -> k <= 2 * 10 ^ 20 ->
    exists (p : IlpPrepare) (c : Z),
      outbox (stateOf (iteration amountToSend slippage e s)) = p :: outbox s /\
      amount p = BigNumber.ofZ c /\ 1 <= c <= m /\
      BigNumber.lte (amount p) (debitOf e) = true /\
      BigNumber.lte (amount p) (maxPacketAmount s) = true /\
      BigNumber.lte (amount p) (remainingOf amountToSend s) = true.
Proof.
  intros A sl e s k m Hs Hrem Hleast Hm Hk2.
  change (10 ^ 20) with BigNumber.scale in Hk2.
  set (r := Q2Qc (inject_Z k)) in *. set (b := Q2Qc (inject_Z m)) in *.
  change (BigNumber.ofZ k) with (BigNumber.Fin r) in Hrem.
  assert (Hrk : (this r == inject_Z k)%Q) by apply this_Q2Qc.
  assert (Hbm : (this b == inject_Z m)%Q) by apply this_Q2Qc.
  assert (Hm1 : (1 <= inject_Z m)%Q) by (apply inject_Z_ge1; lia).
  assert (Hb : (0 < this b)%Q) by lra.
  destruct Hleast as (Hin & Hbd & Hbr & HbM).
  pose proof (lte_Fin_le _ _ Hbr) as Hbr'.
  assert (Hr : (0 < this r)%Q) by lra.
  assert (Hmk : m <= k).
  { rewrite Hrk, Hbm in Hbr'. rewrite <- Zle_Qle in Hbr'. exact Hbr'. }
  destruct (sizing_positive r b Hr Hb Hbr')
    as (c & Hc & Hceil & _ & _ & _ & Hck & Hc1).
  assert (Hcm : c <= m).
  { destruct (Q_equal_split_exact k m (conj Hm Hmk) Hk2) as [H1 H2].
    cbv zeta in H1, H2. set (n := Qceiling (inject_Z k / inject_Z m)) in *.
    assert (En : Qceiling (BigNumber.roundHalfUp (this r / this b)) = n).
    { rewrite <- H1. apply Qceiling_comp, roundHalfUp_comp.
      rewrite Hrk, Hbm. reflexivity. }
    rewrite En in Hceil.
    assert (Ec : c = Qceiling (inject_Z k / inject_Z n)).
    { rewrite Hceil, <- H2. apply Qceiling_comp, roundHalfUp_comp.
      rewrite Hrk. reflexivity. }
    assert (Hm0 : (0 < inject_Z m)%Q) by lra.
    assert (Hkm : (inject_Z k / inject_Z m <= inject_Z n)%Q) by apply Qle_ceiling.
    assert (Hk1 : (1 <= inject_Z k / inject_Z m)%Q).
    { apply Qle_shift_div_l; [exact Hm0 |]. rewrite <- Hrk, <- Hbm. lra. }
    assert (Hn0 : (0 < inject_Z n)%Q) by lra.
    rewrite Ec. apply Qceiling_le.
    apply Qle_shift_div_r; [exact Hn0 |].
    assert (E : (inject_Z k / inject_Z m * inject_Z m == inject_Z k)%Q)
      by (field; lra).
    rewrite <- E. rewrite (Qmult_comm (inject_Z m)).
    apply Qmult_le_compat_r; lra. }
  assert (Hc1' : 1 <= c) by (apply (Hc1 k Hrk); lra).
  assert (Hcb : BigNumber.lte (BigNumber.ofZ c) (BigNumber.Fin b) = true).
  { unfold b. change (BigNumber.Fin (Q2Qc (inject_Z m))) with (BigNumber.ofZ m).
    rewrite lte_ofZ. apply Z.leb_le. exact Hcm. }
  destruct (iteration_summary A sl e s) as (Hout & _). cbv zeta in Hout.
  rewrite Hs in Hout.
  assert (Hp : packetSizing (debitOf e) (remainingOf A s) (maxPacketAmount s) =
               BigNumber.ofZ c).
  { unfold packetSizing. rewrite Hrem.
    rewrite (min_least _ _ _ _ (conj Hin (conj Hbd (conj Hbr HbM)))). exact Hc. }
  rewrite Hp in Hout.
  eexists. exists c. split; [exact Hout |]. cbn [amount].
  split; [reflexivity |]. split; [lia |].
  rewrite Hrem.
  split; [apply (lte_trans _ (BigNumber.Fin b)); assumption |].
  split; apply (lte_trans _ (BigNumber.Fin b)); assumption.
Qed.

End SessionFacts.

(** * The statements on runs of the demo ledger *)

Import Demo.

(** C1 fails as it is stated: with [10^21 + 1] base units remaining and
    a debit capacity of [10^21], the quotient [1 + 10^-21] is rounded to 1
    at twenty places, so that one packet of [10^21 + 1] is sent, above
    the debit capacity, where [ceil (r / ceil (r / b))] is
    [5 * 10^20 + 1]. *)
Lemma equal_split_counterexample :
  map (fun p => BigNumber.compare (amount p)
                  (BigNumber.ofZ 1000000000000000000001))
    (outbox (snd (session (request (1000000000000000000001 # 1000)) 0 None [ample]))) =
    [Some Eq] /\
  debitOf ample = BigNumber.ofZ 1000000000000000000000 /\
  Qceiling
    (inject_Z 1000000000000000000001 /
     inject_Z (Qceiling (inject_Z 1000000000000000000001 /
                         inject_Z 1000000000000000000000))) =
    500000000000000000001.
Proof.
  split; [vm_compute; reflexivity |]. split; [| vm_compute; reflexivity].
  vm_compute. f_equal. apply Qc_is_canon. reflexivity.
Qed.

(** A hundred base units under a debit capacity of forty go out in
    three packets, the first of thirty-four. *)
Lemma packet_amount_is_rounded_equal_split_witness :
  (exists p : IlpPrepare,
      outbox (stateOf (iteration (BigNumber.ofZ 100) (BigNumber.ofQ (1 # 100)) forty
                         (initialState 0 None))) = [p] /\
      amount p = BigNumber.ofZ 34) /\
  Qceiling (BigNumber.roundHalfUp (inject_Z 100 / inject_Z 40)) = 3.
Proof.
  assert (Hr : remainingOf (BigNumber.ofZ 100) (initialState 0 None) =
               BigNumber.Fin (Q2Qc (inject_Z 100))).
  { vm_compute. apply (f_equal BigNumber.Fin), Qc_is_canon. reflexivity. }
  assert (Hb : leastBound (Q2Qc (inject_Z 40)) (debitOf forty) (Q2Qc (inject_Z 100))
                 (maxPacketAmount (initialState 0 None))).
  { split; [left; vm_compute; apply (f_equal BigNumber.Fin), Qc_is_canon; reflexivity |].
    repeat split; vm_compute; reflexivity. }
  destruct (packet_amount_is_rounded_equal_split (BigNumber.ofZ 100)
              (BigNumber.ofQ (1 # 100)) forty (initialState 0 None)
              (Q2Qc (inject_Z 100)) (Q2Qc (inject_Z 40)))
    as ((p & Hout & Hp) & _ & Hexact).
  - vm_compute. reflexivity.
  - exact Hr.
  - exact Hb.
  - vm_compute. reflexivity.
  - split.
    + exists p. split; [exact Hout |]. rewrite Hp.
      apply (f_equal BigNumber.ofZ). vm_compute. reflexivity.
    + vm_compute. reflexivity.
Defined.

(** An F08 for a packet of 100 that reports 100 received and a maximum
    of 50 lowers the maximum to 50. *)
Lemma max_packet_amount_never_raised_witness :
  maxPacketAmount
    (stateOf (iteration (BigNumber.ofZ 100) (BigNumber.ofQ (1 # 100)) tooLarge
                (initialState 0 None))) = BigNumber.ofZ 50.
Proof.
  assert (Hs : sends (BigNumber.ofZ 100) tooLarge (initialState 0 None) = true)
    by (vm_compute; reflexivity).
  assert (H1 : Reader.readUInt64BigNum (uint64 x64 ++ uint64 x32) =
               inr (BigNumber.ofN 100, uint64 x32)) by (vm_compute; reflexivity).
  assert (H2 : Reader.readUInt64BigNum (uint64 x32) = inr (BigNumber.ofN 50, []))
    by (vm_compute; reflexivity).
  pose proof (proj1 (proj2 (max_packet_amount_never_raised (request 1) 0 None [] []))
                (BigNumber.ofZ 100) (BigNumber.ofQ (1 # 100)) tooLarge
                (initialState 0 None)
                {| code := "F08"; rejectData := uint64 x64 ++ uint64 x32 |}
                (BigNumber.ofN 100) (BigNumber.ofN 50) (uint64 x32) []
                Hs eq_refl eq_refl H1 H2) as H.
  cbv zeta in H. destruct H as [H _].
  - vm_compute. discriminate.
  - rewrite H. vm_compute. reflexivity.
Defined.

(** A packet with the right condition that claims 197 where 198 are due
    (100 at a rate of 2, less one percent) is answered with the
    application error. *)
Lemma accept_predicate_enforces_slippage_witness :
  exists h : PacketHandler,
    packetHandler
      (prepare (BigNumber.ofQ (1 # 100)) refused (BigNumber.ofZ 100)
         (initialState 0 None)) = Some h /\
    h (BigNumber.ofZ 2) (incoming 197 [x02; x01]) = Reject APPLICATION_ERROR /\
    h (BigNumber.ofZ 2) (incoming 198 [x02; x01]) =
      Fulfill {| fulfillment := [x01; x02]; fulfillData := [] |}.
Proof.
  destruct (accept_predicate_enforces_slippage (BigNumber.ofQ (1 # 100)) refused
              (BigNumber.ofZ 100) (initialState 0 None))
    as (h & sent & Hh & Hsent & _ & Hcond & Hspec).
  exists h. split; [exact Hh |]. split.
  - apply (proj2 (proj2 (Hspec (BigNumber.ofZ 2) (incoming 197 [x02; x01])))).
    vm_compute. reflexivity.
  - apply (proj2 (proj1 (Hspec (BigNumber.ofZ 2) (incoming 198 [x02; x01])))).
    split; [rewrite Hcond | ]; vm_compute; reflexivity.
Defined.

(** A tenth of an exchange unit, a hundred base units, is sent in one
    packet and the session succeeds. *)
Lemma unlimited_capacity_completion_witness :
  fst (session (request (1 # 10)) 0 None
         [unlimited 1 fulfilled; unlimited 2 fulfilled]) = Some Succeeded /\
  totalFulfilled
    (snd (session (request (1 # 10)) 0 None
            [unlimited 1 fulfilled; unlimited 2 fulfilled])) =
  amountToSendOf (request (1 # 10)) /\
  fst (streamMoney (request (1 # 10)) 0 None
         [unlimited 1 fulfilled; unlimited 2 fulfilled]) = Some Resolved.
Proof.
  destruct (unlimited_capacity_completion (request (1 # 10)) 0 None
              (unlimited 1 fulfilled) (unlimited 2 fulfilled) [])
    as (H1 & H2 & _ & _ & H5).
  - vm_compute. reflexivity.
  - vm_compute. reflexivity.
  - reflexivity.
  - reflexivity.
  - reflexivity.
  - reflexivity.
  - vm_compute. discriminate.
  - vm_compute. discriminate.
  - split; [exact H1 |]. split; [exact H2 | exact H5].
Defined.

(** A hundred base units, all fulfilled by one packet: the total is
    within the amount to send. *)
Lemma total_fulfilled_within_one_packet_witness :
  BigNumber.lte
    (totalFulfilled
       (snd (session (request (1 # 10)) 0 None
               [unlimited 1 fulfilled; unlimited 2 fulfilled])))
    (amountToSendOf (request (1 # 10))) = true \/
  exists p : IlpPrepare,
    In p (outbox (snd (session (request (1 # 10)) 0 None
                         [unlimited 1 fulfilled; unlimited 2 fulfilled]))) /\
    BigNumber.lte
      (totalFulfilled
         (snd (session (request (1 # 10)) 0 None
                 [unlimited 1 fulfilled; unlimited 2 fulfilled])))
      (BigNumber.plus (amountToSendOf (request (1 # 10))) (amount p)) = true.
Proof.
  apply (proj1 (total_fulfilled_within_one_packet (request (1 # 10)) 0 None
                  [unlimited 1 fulfilled; unlimited 2 fulfilled]
                  eq_refl eq_refl eq_refl)).
Defined.

(** After a refused packet, an iteration that starts twenty seconds
    after the session ends it as timed out with nothing fulfilled. *)
Lemma idle_deadline_refresh_and_failure_witness :
  fst (session (request 1) 0 None ([refused] ++ late :: [])) = Some TimedOut /\
  fulfillCount (snd (session (request 1) 0 None ([refused] ++ late :: []))) = 0%nat /\
  hd_error (journal (snd (session (request 1) 0 None ([refused] ++ late :: [])))) =
    Some StreamTimedOut.
Proof.
  apply (proj2 (proj2 (proj2 (idle_deadline_refresh_and_failure (request 1) 0 None
                                [refused] late [] eq_refl)))).
  - reflexivity.
  - vm_compute. reflexivity.
Defined.

(** One exchange unit asked for where half a unit can be sent: refused
    before any packet. *)
Lemma outgoing_capacity_refusal_witness :
  fst (session (request 1) 0 None ([] ++ scarce :: [])) = Some NoOutgoingCapacity /\
  prepareCount (snd (session (request 1) 0 None ([] ++ scarce :: []))) = 0%nat /\
  fst (streamMoney (request 1) 0 None ([] ++ scarce :: [])) = Some (Rejected None).
Proof.
  destruct (outgoing_capacity_refusal (request 1) 0 None [] scarce [] eq_refl)
    as (H1 & _ & _ & _ & H5 & H6).
  - vm_compute. discriminate.
  - vm_compute. reflexivity.
  - vm_compute. reflexivity.
  - vm_compute. reflexivity.
  - split; [exact H1 |]. split; [exact (proj1 (H6 eq_refl)) | exact H5].
Defined.

(** C8 fails as it is stated: a call for a source whose settler is not
    registered is rejected with the exception of the lookup, and the
    predicate that was registered on the destination before the call is
    still there. *)
Lemma handler_kept_counterexample :
  fst (streamMoneyCall ["eth"%string] (uplink "btc") (uplink "eth")
         (request 1) 0 (Some keeper) [unlimited 1 fulfilled]) =
    Some (Failed UnknownSettlerError) /\
  snd (streamMoneyCall ["eth"%string] (uplink "btc") (uplink "eth")
         (request 1) 0 (Some keeper) [unlimited 1 fulfilled]) = Some keeper.
Proof. split; reflexivity. Qed.

(** With both settlers found, an F08 without data throws while the
    predicate of the packet is registered; the slot is empty once the
    promise is rejected. *)
Lemma handler_deregistered_once_settlers_are_found_witness :
  fst (streamMoney (request 1) 0 (Some keeper) [malformed]) =
    Some (Rejected (Some Reader.UnderreadError)) /\
  snd (streamMoneyCall ["eth"%string; "btc"%string] (uplink "btc") (uplink "eth")
         (request 1) 0 (Some keeper) [malformed]) = None.
Proof.
  apply (handler_deregistered_once_settlers_are_found
           ["eth"%string; "btc"%string] (uplink "btc") (uplink "eth")
           (request 1) 0 (Some keeper) [malformed]
           (Settled (Rejected (Some Reader.UnderreadError)))).
  vm_compute. reflexivity.
Defined.

(** C9 fails as it is stated: the idle timeout and the want of outgoing
    capacity reject the promise alike, with no reason; and a packet
    rejected with F08 and no data ends the loop with the exception of the
    reader. *)
Lemma fatal_conditions_counterexample :
  fst (streamMoney (request 1) 0 None [late]) = Some (Rejected None) /\
  fst (streamMoney (request 1) 0 None [scarce]) = Some (Rejected None) /\
  fst (streamMoney (request 1) 0 None [malformed]) =
    Some (Rejected (Some Reader.UnderreadError)).
Proof. repeat split; vm_compute; reflexivity. Qed.

(** A session that starts its first iteration too late, and a refused
    packet that is absorbed. *)
Lemma fatal_conditions_reject_without_reason_witness :
  (fst (streamMoney (request 1) 0 None [late]) = Some (Rejected None) /\
   exists m : Message,
     hd_error (journal (snd (session (request 1) 0 None [late]))) = Some m /\
     announces m = Some TimedOut /\ level m = LevelError) /\
  exists s' : State,
    iteration (BigNumber.ofZ 1000) (BigNumber.ofQ (1 # 100)) refused
      (initialState 0 None) = Recurse s'.
Proof.
  split.
  - apply (proj1 fatal_conditions_reject_without_reason (request 1) 0 None [late]
             TimedOut); vm_compute; reflexivity.
  - apply (proj2 fatal_conditions_reject_without_reason (BigNumber.ofZ 1000)
             (BigNumber.ofQ (1 # 100)) refused (initialState 0 None)
             {| code := "F99"; rejectData := [] |}).
    + vm_compute. reflexivity.
    + reflexivity.
    + left. reflexivity.
Defined.

(** C10 fails as it is stated: with nothing received and a foreign
    maximum of nothing, the new maximum of a packet of 100 is NaN, not
    infinite, and the anomaly is not logged. *)
Lemma zero_received_amount_counterexample :
  newMaxPacketAmount (BigNumber.ofZ 100) (BigNumber.ofN 0) (BigNumber.ofN 0) =
    BigNumber.NaN /\
  outbox (snd (session (request (1 # 10)) 0 None [zeroReceived])) =
    [ {| destination := "test.dest";
         amount := BigNumber.ofZ 100;
         executionCondition := [x02; x01];
         data := [];
         expiresAt := 5001 |} ] /\
  journal (snd (session (request (1 # 10)) 0 None [zeroReceived])) =
    [ PacketRejected 1 "F08"; SendingPacket 1 (BigNumber.ofZ 100);
      StartingExchange ].
Proof. repeat split; vm_compute; reflexivity. Qed.

(** The same F08 leaves the maximum unlimited and the loop running. *)
Lemma zero_received_amount_keeps_maximum_witness :
  (exists s' : State,
     iteration (amountToSendOf (request (1 # 10))) (slippageOf (request (1 # 10)))
       zeroReceived (snd (session (request (1 # 10)) 0 None [])) = Recurse s') /\
  maxPacketAmount
    (stateOf
       (iteration (amountToSendOf (request (1 # 10))) (slippageOf (request (1 # 10)))
          zeroReceived (snd (session (request (1 # 10)) 0 None [])))) =
  BigNumber.PInf.
Proof.
  destruct (zero_received_amount_keeps_maximum (request (1 # 10)) 0 None []
              zeroReceived
              {| code := "F08"; rejectData := uint64 x00 ++ uint64 x00 |}
              (BigNumber.ofN 0) (uint64 x00) [])
    as (H1 & H2 & _).
  - vm_compute. reflexivity.
  - reflexivity.
  - reflexivity.
  - vm_compute. reflexivity.
  - vm_compute. reflexivity.
  - split; [exact H1 | exact H2].
Defined.

(** ** Runs for the further statements *)

(** One exchange unit asked for where the destination can take in half
    a unit: refused before any packet. *)
Lemma incoming_capacity_refusal_witness :
  fst (session (request 1) 0 None ([] ++ crowded :: [])) = Some NoIncomingCapacity /\
  prepareCount (snd (session (request 1) 0 None ([] ++ crowded :: []))) = 0%nat /\
  fst (streamMoney (request 1) 0 None ([] ++ crowded :: [])) = Some (Rejected None).
Proof.
  destruct (incoming_capacity_refusal (request 1) 0 None [] crowded [] eq_refl)
    as (H1 & _ & _ & H4 & H5).
  - vm_compute. discriminate.
  - vm_compute. reflexivity.
  - vm_compute. reflexivity.
  - vm_compute. reflexivity.
  - vm_compute. reflexivity.
  - split; [exact H1 |]. split; [exact H4 | exact H5].
Defined.

(** Three iterations without debit leave the session as it started. *)
Lemma nothing_sent_without_debit_witness :
  outbox (snd (session (request 1) 0 None [indebted 1; indebted 2; indebted 3])) = [] /\
  prepareCount
    (snd (session (request 1) 0 None [indebted 1; indebted 2; indebted 3])) = 0%nat.
Proof.
  destruct (nothing_sent_without_debit (request 1) 0 None
              [indebted 1; indebted 2; indebted 3]) as (H1 & H2 & _).
  - vm_compute. reflexivity.
  - split; [exact H1 | exact H2].
Defined.

(** A hundred base units are fulfilled by one packet: the promise
    resolves with the total equal to the amount. *)
Lemma resolved_means_fulfilled_witness :
  BigNumber.gte
    (totalFulfilled
       (snd (streamMoney (request (1 # 10)) 0 None
               [unlimited 1 fulfilled; unlimited 2 fulfilled])))
    (amountToSendOf (request (1 # 10))) = true.
Proof.
  apply (proj1 (resolved_means_fulfilled (request (1 # 10)) 0 None
                  [unlimited 1 fulfilled; unlimited 2 fulfilled] eq_refl)).
Defined.

(** A request for minus one exchange unit resolves without a packet. *)
Lemma nothing_to_send_witness :
  fst (session (request (-1 # 1)) 0 None [unlimited 1 fulfilled]) = Some SentTooMuch /\
  fst (streamMoney (request (-1 # 1)) 0 None [unlimited 1 fulfilled]) = Some Resolved /\
  outbox (snd (session (request (-1 # 1)) 0 None [unlimited 1 fulfilled])) = [].
Proof.
  destruct (nothing_to_send (request (-1 # 1)) 0 None (unlimited 1 fulfilled) [])
    as (H1 & H2 & H3 & _).
  - vm_compute. discriminate.
  - vm_compute. reflexivity.
  - split; [exact H1 |]. split; [exact H2 | exact H3].
Defined.

(** Three base units with two of debit at a time never overshoot. *)
Lemma whole_amount_never_overshoots_witness :
  BigNumber.lte
    (totalFulfilled
       (snd (session (request (3 # 1000)) 0 None [funded 1; funded 2; funded 3])))
    (amountToSendOf (request (3 # 1000))) = true.
Proof.
  apply (proj1 (whole_amount_never_overshoots (request (3 # 1000)) 0 None
                  [funded 1; funded 2; funded 3] eq_refl eq_refl eq_refl)).
Defined.

(** Three base units with two of debit at a time go out in two packets. *)
Lemma whole_amount_completes_witness :
  fst (session (request (3 # 1000)) 0 None
         [funded 1; funded 2; funded 3; funded 4]) = Some Succeeded /\
  fst (streamMoney (request (3 # 1000)) 0 None
         [funded 1; funded 2; funded 3; funded 4]) = Some Resolved.
Proof.
  destruct (whole_amount_completes (request (3 # 1000)) 0 None
              [funded 1; funded 2; funded 3; funded 4] 3)
    as (H1 & _ & _ & H4).
  - vm_compute. f_equal. apply Qc_is_canon. reflexivity.
  - lia.
  - simpl. lia.
  - vm_compute. reflexivity.
  - vm_compute. reflexivity.
  - split; [exact H1 | exact H4].
Defined.

(** A packet of 100 with 100 received and 50 the most: lowered to 50. *)
Lemma amount_too_large_lowers_iff_below_witness :
  maxPacketAmount
    (stateOf (iteration (amountToSendOf (request (1 # 10)))
                (slippageOf (request (1 # 10))) tooLarge (initialState 0 None))) =
  BigNumber.ofZ 50.
Proof.
  refine (eq_trans
            (proj1 (proj2 (amount_too_large_lowers_iff_below
                             (amountToSendOf (request (1 # 10)))
                             (slippageOf (request (1 # 10))) tooLarge
                             (initialState 0 None)
                             {| code := "F08"; rejectData := uint64 x64 ++ uint64 x32 |}
                             100 100%N 50%N (uint64 x32) [] _ _ _ _ _ _ _ _))) _).
  - vm_compute. reflexivity.
  - reflexivity.
  - reflexivity.
  - vm_compute. reflexivity.
  - vm_compute. reflexivity.
  - vm_compute. reflexivity.
  - lia.
  - discriminate.
  - vm_compute. reflexivity.
Defined.

(** One base unit, halved to a maximum of zero: two fulfilled packets
    of nothing later the promise has not resolved. *)
Lemma zero_maximum_stalls_witness :
  totalFulfilled
    (snd (session (request (1 # 1000)) 0 None
            ([halved] ++ [unlimited 2 fulfilled; unlimited 3 fulfilled]))) =
  totalFulfilled (snd (session (request (1 # 1000)) 0 None [halved])) /\
  fst (streamMoney (request (1 # 1000)) 0 None
         ([halved] ++ [unlimited 2 fulfilled; unlimited 3 fulfilled])) <>
  Some Resolved.
Proof.
  destruct (zero_maximum_stalls (request (1 # 1000)) 0 None [halved]
              [unlimited 2 fulfilled; unlimited 3 fulfilled])
    as (_ & H2 & _ & H4).
  - vm_compute. reflexivity.
  - vm_compute. reflexivity.
  - vm_compute. reflexivity.
  - vm_compute. reflexivity.
  - vm_compute. reflexivity.
  - vm_compute. reflexivity.
  - split; [exact H2 | exact H4].
Defined.

(** What is fulfilled for 198 is fulfilled for 250. *)
Lemma accept_predicate_monotone_witness :
  acceptPredicate (C := ledger) (BigNumber.ofQ (1 # 100)) (BigNumber.ofZ 100) [x02; x01]
    {| fulfillment := [x01; x02]; fulfillData := [] |} (BigNumber.ofZ 2)
    (incoming 250 [x02; x01]) =
  Fulfill {| fulfillment := [x01; x02]; fulfillData := [] |}.
Proof.
  apply (accept_predicate_monotone (C := ledger) (BigNumber.ofQ (1 # 100)) (BigNumber.ofZ 100)
           [x02; x01] {| fulfillment := [x01; x02]; fulfillData := [] |}
           (BigNumber.ofZ 2) (incoming 198 [x02; x01]) (incoming 250 [x02; x01])).
  - vm_compute. reflexivity.
  - reflexivity.
  - vm_compute. reflexivity.
Defined.

(** The packets of a session that meets an F08 and then completes. *)
Lemma packets_sent_are_well_formed_witness :
  Forall wellFormedPacket
    (outbox (snd (session (request (1 # 10)) 0 None
                    [tooLarge; unlimited 2 fulfilled; unlimited 3 fulfilled]))).
Proof.
  apply (packets_sent_are_well_formed (request (1 # 10)) 0 None
           [tooLarge; unlimited 2 fulfilled; unlimited 3 fulfilled]
           eq_refl eq_refl).
Defined.

(** The total after three funded iterations is at least the total after
    one. *)
Lemma progress_never_undone_witness :
  BigNumber.lte
    (totalFulfilled (snd (session (request (3 # 1000)) 0 None [funded 1])))
    (totalFulfilled
       (snd (session (request (3 # 1000)) 0 None
               ([funded 1] ++ [funded 2; funded 3])))) = true.
Proof.
  apply (proj1 (proj2 (proj2 (progress_never_undone (request (3 # 1000)) 0 None
                                [funded 1] [funded 2; funded 3] eq_refl eq_refl)))).
Defined.

(** A packet of thirty-four under a debit capacity of forty. *)
Lemma packet_within_bounds_for_whole_amounts_witness :
  exists (p : IlpPrepare) (c : Z),
    outbox (stateOf (iteration (BigNumber.ofZ 100) (BigNumber.ofQ (1 # 100)) forty
                       (initialState 0 None))) = [p] /\
    amount p = BigNumber.ofZ c /\ 1 <= c <= 40.
Proof.
  destruct (packet_within_bounds_for_whole_amounts (BigNumber.ofZ 100)
              (BigNumber.ofQ (1 # 100)) forty (initialState 0 None) 100 40)
    as (p & c & Hout & Hp & Hc & _).
  - vm_compute. reflexivity.
  - vm_compute. apply (f_equal BigNumber.Fin), Qc_is_canon. reflexivity.
  - split; [left; vm_compute; apply (f_equal BigNumber.Fin), Qc_is_canon; reflexivity |].
    repeat split; vm_compute; reflexivity.
  - lia.
  - vm_compute. discriminate.
  - exists p, c. split; [exact Hout |]. split; [exact Hp | exact Hc].
Defined.
